(** * PPO2 training loop ([baselines/ppo2/ppo2.py]): a shallow embedding

    The development follows the layout of [learn]:

    - [Num]        Python / NumPy scalars (ints, floats, [np.nan], [np.inf]);
    - [safemean]   the guarded mean at the bottom of the file;
    - [Minibatch]  the index bookkeeping of the optimisation epochs, for the
                   non-recurrent and the recurrent data layout;
    - [Curriculum] the three nested schedule functions called [fn];
    - [Loop]       the body of [for update in range(1, nupdates+1)], the
                   set-up before it and the reload after it, as a
                   state-and-exception monad over the mutable variables of
                   [learn].

    The collaborators of [learn] (the policy network, the vector
    environment behind [runner.run()], the validation games, the files of
    [model.save] and [model.load]) appear through what [learn] observes of
    them: a rollout per update, a validation reward per update, the files
    on disk.  A run leaves a trace of the calls it makes to them.  The
    learning-rate schedule is embedded on its own ([constfn],
    [lr_annealing], [frac], [lrnow]).  Within [Loop] the calls [lr(frac)]
    and [cliprange(frac)] are taken to return without raising (as they do
    for floats, and for ["LR_ANNEALING"] with a non-zero factor); they,
    wall-clock timing and the logger then take no part in control flow and
    are left out of it.

    Numbers.  A Python [int] is exact; a Python [float] and a NumPy
    [float64] are IEEE binary64.  Both are embedded in one type of extended
    rationals ([NaN], the two infinities, and exact finite values), with the
    IEEE rules for the special values.  Rounding, overflow of finite
    results and the sign of zero are not modelled; every concrete input
    used below is chosen so that its binary64 evaluation takes the same
    branches. *)

From Stdlib Require Import ZArith QArith Qround Lia Lqa Bool List String.
From Stdlib Require Import Permutation.
Import ListNotations.

Set Implicit Arguments.
Local Open Scope Z_scope.

(* ===================================================================== *)
(** ** Scalars *)
(* ===================================================================== *)

Module Num.

Inductive num : Type :=
| NaN
| NInf
| PInf
| Fin (q : Q).

Definition of_Z (z : Z) : num := Fin (inject_Z z).
Definition of_nat (n : nat) : num := of_Z (Z.of_nat n).

Definition zero : num := of_Z 0.
Definition one : num := of_Z 1.

(** Sign of a value, as used by the rules for products and quotients of
    infinities: [Some Lt] negative, [Some Eq] zero, [Some Gt] positive. *)
Definition sign (a : num) : option comparison :=
  match a with
  | NaN => None
  | NInf => Some Lt
  | PInf => Some Gt
  | Fin q => Some (q ?= 0)%Q
  end.

Definition inf_of (c : comparison) : num :=
  match c with Lt => NInf | Eq => NaN | Gt => PInf end.

Definition sign_mul (c d : comparison) : comparison :=
  match c, d with
  | Eq, _ | _, Eq => Eq
  | Lt, Lt | Gt, Gt => Gt
  | _, _ => Lt
  end.

Definition neg (a : num) : num :=
  match a with
  | NaN => NaN
  | NInf => PInf
  | PInf => NInf
  | Fin q => Fin (Qred (- q))
  end.

Definition add (a b : num) : num :=
  match a, b with
  | NaN, _ | _, NaN => NaN
  | PInf, NInf | NInf, PInf => NaN
  | PInf, _ | _, PInf => PInf
  | NInf, _ | _, NInf => NInf
  | Fin p, Fin q => Fin (Qred (p + q))
  end.

Definition sub (a b : num) : num := add a (neg b).

Definition mul (a b : num) : num :=
  match a, b with
  | Fin p, Fin q => Fin (Qred (p * q))
  | _, _ =>
      match sign a, sign b with
      | Some c, Some d => inf_of (sign_mul c d)
      | _, _ => NaN
      end
  end.

(** [x / y] on NumPy scalars and on Python floats whose divisor is not
    zero: never raises.  A finite non-zero value over zero is an infinity,
    zero over zero and infinity over infinity are [NaN]. *)
Definition div (a b : num) : num :=
  match a, b with
  | NaN, _ | _, NaN => NaN
  | Fin p, Fin q =>
      if Qeq_bool q 0 then inf_of (p ?= 0)%Q else Fin (Qred (p / q))
  | Fin _, _ => zero
  | _, Fin q =>
      match sign a with
      | Some c => inf_of (sign_mul c (if Qeq_bool q 0 then Gt else (q ?= 0)%Q))
      | None => NaN
      end
  | _, _ => NaN
  end.

(** Three-way comparison; [None] when an operand is [NaN] (unordered). *)
Definition compare (a b : num) : option comparison :=
  match a, b with
  | NaN, _ | _, NaN => None
  | PInf, PInf => Some Eq
  | PInf, _ => Some Gt
  | _, PInf => Some Lt
  | NInf, NInf => Some Eq
  | NInf, _ => Some Lt
  | _, NInf => Some Gt
  | Fin p, Fin q => Some (p ?= q)%Q
  end.

(** The Python operators [>], [<], [>=], [<=], [==], [!=]. *)
Definition gtb (a b : num) : bool :=
  match compare a b with Some Gt => true | _ => false end.
Definition ltb (a b : num) : bool :=
  match compare a b with Some Lt => true | _ => false end.
Definition geb (a b : num) : bool :=
  match compare a b with Some Gt | Some Eq => true | _ => false end.
Definition leb (a b : num) : bool :=
  match compare a b with Some Lt | Some Eq => true | _ => false end.
Definition eqb (a b : num) : bool :=
  match compare a b with Some Eq => true | _ => false end.
Definition neb (a b : num) : bool := negb (eqb a b).

(** The builtin [max(a, b)] of two arguments: it keeps [a] unless [b > a],
    so [max(nan, 0)] is [nan]. *)
Definition py_max (a b : num) : num := if gtb b a then b else a.

Definition is_nan (a : num) : bool :=
  match a with NaN => true | _ => false end.

Definition le (a b : num) : Prop := leb a b = true.

(** Membership in the closed interval [[0, 1]]. *)
Definition in_unit (a : num) : Prop := le zero a /\ le a one.

Fixpoint sum (xs : list num) : num :=
  match xs with
  | [] => zero
  | x :: xs' => add x (sum xs')
  end.

(** [np.mean] of a non-empty one-dimensional list: the sum over the
    number of elements. *)
Definition np_mean (xs : list num) : num :=
  div (sum xs) (of_nat (List.length xs)).

End Num.

Import Num.

Declare Scope num_scope.
Delimit Scope num_scope with num.
Infix "+" := Num.add : num_scope.
Infix "-" := Num.sub : num_scope.
Infix "*" := Num.mul : num_scope.
Infix "/" := Num.div : num_scope.
Infix ">?" := Num.gtb : num_scope.
Infix "<?" := Num.ltb : num_scope.
Infix "=?" := Num.eqb : num_scope.
Infix "<=" := Num.le : num_scope.

(* ===================================================================== *)
(** ** [safemean] *)
(* ===================================================================== *)

(** [def safemean(xs): return np.nan if len(xs) == 0 else np.mean(xs)] *)
Definition safemean (xs : list num) : num :=
  if Nat.eqb (List.length xs) 0 then NaN else np_mean xs.

(* ===================================================================== *)
(** ** Exceptions *)
(* ===================================================================== *)

(** The Python exceptions that the modelled statements can raise. *)
Inductive exn : Type :=
| AssertionError
| ZeroDivisionError
| ValueError
| IndexError
| UnboundLocalError
| TypeError
| FileNotFoundError.

Inductive result (A : Type) : Type :=
| Ok (a : A)
| Raise (e : exn).

Arguments Ok {A} a.
Arguments Raise {A} e.

Definition rbind {A B : Type} (r : result A) (k : A -> result B) : result B :=
  match r with
  | Ok a => k a
  | Raise e => Raise e
  end.

(** [[f(x) for x in xs]] for an [f] that may raise: the first exception
    wins. *)
Fixpoint rmap {A B : Type} (f : A -> result B) (xs : list A) : result (list B) :=
  match xs with
  | [] => Ok []
  | x :: xs' =>
      rbind (f x) (fun y => rbind (rmap f xs') (fun ys => Ok (y :: ys)))
  end.

(* ===================================================================== *)
(** ** Index bookkeeping of the optimisation epochs *)
(* ===================================================================== *)

Module Minibatch.

(** *** Python and NumPy primitives *)

(** [len(range(start, stop, step))] for a non-zero [step], by CPython's
    formula. *)
Definition range_len (start stop step : Z) : Z :=
  if 0 <? step then
    if start <? stop then (stop - start - 1) / step + 1 else 0
  else
    if stop <? start then (start - stop - 1) / (- step) + 1 else 0.

(** [range(start, stop, step)]; a zero step is a [ValueError]. *)
Definition py_range (start stop step : Z) : result (list Z) :=
  if step =? 0 then Raise ValueError
  else Ok (map (fun k => start + Z.of_nat k * step)
               (seq 0 (Z.to_nat (range_len start stop step)))).

(** Slice bounds are clipped to the sequence; a negative bound counts from
    the end. *)
Definition clamp_index (i len : Z) : Z :=
  if i <? 0 then Z.max (i + len) 0 else Z.min i len.

(** [x[start:stop]] *)
Definition slice {A : Type} (x : list A) (start stop : Z) : list A :=
  let n := Z.of_nat (List.length x) in
  let s := clamp_index start n in
  let e := clamp_index stop n in
  firstn (Z.to_nat (e - s)) (skipn (Z.to_nat s) x).

(** [np.arange(n)] *)
Definition arange (n : nat) : list nat := seq 0 n.

(** [a.reshape(rows, cols)] of a one-dimensional array of [rows * cols]
    elements, as the list of its rows. *)
Fixpoint reshape {A : Type} (rows cols : nat) (a : list A) : list (list A) :=
  match rows with
  | O => []
  | S r => firstn cols a :: reshape r cols (skipn cols a)
  end.

(** [a[idx]] for an integer index array [idx] (non-negative entries):
    one element of [a] per entry, [IndexError] when an entry is out of
    bounds. *)
Definition fancy_index {A : Type} (a : list A) (idx : list nat) : result (list A) :=
  rmap (fun i => match nth_error a i with
                 | Some v => Ok v
                 | None => Raise IndexError
                 end) idx.

(** [m.ravel()] of a two-dimensional array given by its rows. *)
Definition ravel {A : Type} (m : list (list A)) : list A := List.concat m.

(** *** [np.random.shuffle]

    The generator is a tape of raw draws.  [random_interval g max] is
    NumPy's bounded draw: a value in [[0, max]] and the advanced generator. *)
Definition bitgen : Type := list nat.

Definition random_interval (g : bitgen) (max : nat) : nat * bitgen :=
  match g with
  | [] => (O, [])
  | w :: g' => (Nat.modulo w (S max), g')
  end.

(** [x[i] = v] for [i] in bounds. *)
Fixpoint upd {A : Type} (i : nat) (v : A) (x : list A) : list A :=
  match x, i with
  | [], _ => []
  | _ :: t, O => v :: t
  | h :: t, S i' => h :: upd i' v t
  end.

(** [x[i], x[j] = x[j], x[i]] *)
Definition swap {A : Type} (x : list A) (i j : nat) : list A :=
  match nth_error x i, nth_error x j with
  | Some xi, Some xj => upd i xj (upd j xi x)
  | _, _ => x
  end.

(** The loop of [shuffle] on a one-dimensional array:
    [for i in reversed(range(1, n)): j = random_interval(i); swap(i, j)]. *)
Fixpoint shuffle_from {A : Type} (i : nat) (g : bitgen) (x : list A)
  : list A * bitgen :=
  match i with
  | O => (x, g)
  | S i' =>
      let (j, g') := random_interval g i in
      shuffle_from i' g' (swap x i j)
  end.

Definition shuffle {A : Type} (g : bitgen) (x : list A) : list A * bitgen :=
  shuffle_from (List.length x - 1) g x.

(** *** Non-recurrent layout (lines 184-193) *)

(** The minibatch index arrays of one epoch over the already shuffled
    [inds]:
    [for start in range(0, nbatch, nbatch_train): inds[start:start+nbatch_train]]. *)
Definition epoch_slices (nbatch nbatch_train : Z) (inds : list nat)
  : result (list (list nat)) :=
  rbind (py_range 0 nbatch nbatch_train) (fun starts =>
  Ok (map (fun start => slice inds start (start + nbatch_train)) starts)).

(** What a phase of [model.train] calls got done: the calls made, epoch by
    epoch and in order, the exception that cut the phase short (if any),
    and the generator it leaves. *)
Record phase (A : Type) : Type := {
  epochs : list (list A);
  failure : option exn;
  gen_after : bitgen
}.

(** [noptepochs] epochs; [inds] is shuffled in place, so every epoch starts
    from the order the previous one left. *)
Fixpoint nonrecurrent_epochs (noptepochs : nat) (nbatch nbatch_train : Z)
  (g : bitgen) (inds : list nat) : phase (list nat) :=
  match noptepochs with
  | O => {| epochs := []; failure := None; gen_after := g |}
  | S k =>
      let (inds', g') := shuffle g inds in
      match epoch_slices nbatch nbatch_train inds' with
      | Raise e => {| epochs := []; failure := Some e; gen_after := g' |}
      | Ok mbs =>
          let rest := nonrecurrent_epochs k nbatch nbatch_train g' inds' in
          {| epochs := mbs :: epochs rest;
             failure := failure rest;
             gen_after := gen_after rest |}
      end
  end.

(** The [if states is None] branch: [inds = np.arange(nbatch)], then the
    epochs. *)
Definition nonrecurrent (noptepochs : Z) (nbatch nbatch_train : Z) (g : bitgen)
  : phase (list nat) :=
  nonrecurrent_epochs (Z.to_nat noptepochs) nbatch nbatch_train g
    (arange (Z.to_nat nbatch)).

(** *** Recurrent layout (lines 196-208) *)

(** One [model.train] call of the recurrent branch: the environments it
    selects, the flat indices of its slices and its state rows. *)
Record rec_minibatch (S : Type) : Type := {
  mbenvinds : list nat;
  mbflatinds : list nat;
  mbstates : list S
}.

Definition recurrent_minibatch {S : Type} (flatinds : list (list nat))
  (states : list S) (envinds : list nat) (start envsperbatch : Z)
  : result (rec_minibatch S) :=
  let mbenv := slice envinds start (start + envsperbatch) in
  rbind (fancy_index flatinds mbenv) (fun rows =>
  rbind (fancy_index states mbenv) (fun sts =>
  Ok {| mbenvinds := mbenv; mbflatinds := ravel rows; mbstates := sts |})).

(** The calls of a [for] loop whose body may raise: those completed before
    the first exception, and that exception. *)
Fixpoint until_raise {A B : Type} (f : A -> result B) (xs : list A)
  : list B * option exn :=
  match xs with
  | [] => ([], None)
  | x :: xs' =>
      match f x with
      | Raise e => ([], Some e)
      | Ok y => let (ys, o) := until_raise f xs' in (y :: ys, o)
      end
  end.

Definition recurrent_epoch {S : Type} (nenvs : nat) (envsperbatch : Z)
  (flatinds : list (list nat)) (states : list S) (envinds : list nat)
  : list (rec_minibatch S) * option exn :=
  match py_range 0 (Z.of_nat nenvs) envsperbatch with
  | Raise e => ([], Some e)
  | Ok starts =>
      until_raise
        (fun start => recurrent_minibatch flatinds states envinds start envsperbatch)
        starts
  end.

Fixpoint recurrent_epochs {S : Type} (noptepochs : nat) (nenvs : nat)
  (envsperbatch : Z) (flatinds : list (list nat)) (states : list S)
  (g : bitgen) (envinds : list nat) : phase (rec_minibatch S) :=
  match noptepochs with
  | O => {| epochs := []; failure := None; gen_after := g |}
  | S k =>
      let (envinds', g') := shuffle g envinds in
      match recurrent_epoch nenvs envsperbatch flatinds states envinds' with
      | (mbs, Some e) =>
          {| epochs := [mbs]; failure := Some e; gen_after := g' |}
      | (mbs, None) =>
          let rest :=
            recurrent_epochs k nenvs envsperbatch flatinds states g' envinds' in
          {| epochs := mbs :: epochs rest;
             failure := failure rest;
             gen_after := gen_after rest |}
      end
  end.

(** The whole [else] branch, from its assertion on. *)
Definition recurrent {S : Type} (noptepochs : Z) (nenvs nsteps : nat)
  (nminibatches : Z) (states : list S) (g : bitgen) : phase (rec_minibatch S) :=
  if nminibatches =? 0 then
    {| epochs := []; failure := Some ZeroDivisionError; gen_after := g |}
  else if negb (Z.of_nat nenvs mod nminibatches =? 0) then
    {| epochs := []; failure := Some AssertionError; gen_after := g |}
  else
    let envsperbatch := Z.of_nat nenvs / nminibatches in
    let envinds := arange nenvs in
    let flatinds := reshape nenvs nsteps (arange (nenvs * nsteps)) in
    recurrent_epochs (Z.to_nat noptepochs) nenvs envsperbatch flatinds states
      g envinds.

End Minibatch.

(* ===================================================================== *)
(** ** Curriculum schedules *)
(* ===================================================================== *)

(** [a / b] on Python numbers: a zero divisor raises. *)
Definition py_div (a b : num) : result num :=
  if Num.eqb b zero then Raise ZeroDivisionError else Ok (a / b)%num.

(** [a // b] and [a % b] on Python ints ([Z.div] and [Z.modulo] round and
    sign like Python's): a zero divisor raises. *)
Definition py_floordiv (a b : Z) : result Z :=
  if b =? 0 then Raise ZeroDivisionError else Ok (a / b).

Definition py_mod (a b : Z) : result Z :=
  if b =? 0 then Raise ZeroDivisionError else Ok (a mod b).

(** The value of [additional_params["SELF_PLAY_HORIZON"]]: [None], a number
    or a list. *)
Inductive sp_horizon_t : Type :=
| SpNone
| SpScalar (v : num)
| SpList (l : list num).

(** [sp_horizon != 0] *)
Definition sp_horizon_nonzero (h : sp_horizon_t) : bool :=
  match h with
  | SpScalar v => Num.neb v zero
  | _ => true
  end.

Module Curriculum.

Section Schedules.

(** [np.exp], a NumPy primitive, is left abstract. *)
Variable np_exp : num -> num.

(** The inner [lambda] shared by the two piecewise-linear schedules:
    [-1 * (x - thresh) * 1 / (horizon - thresh) + 1]. *)
Definition ramp (thresh horizon x : num) : result num :=
  rbind (py_div (of_Z (-1) * (x - thresh) * one)%num (horizon - thresh)%num)
        (fun d => Ok (d + one)%num).

(** Lines 358-363, with [annealing_thresh] and [annealing_horizon] as
    arguments:
    [if annealing_thresh != 0 and
        annealing_thresh - (annealing_horizon / annealing_thresh) * x > 1:
       return 1
     else: return max(lambda(x), 0)] *)
Definition annealing_fn (annealing_thresh annealing_horizon x : num)
  : result num :=
  rbind (if Num.neb annealing_thresh zero then
           rbind (py_div annealing_horizon annealing_thresh) (fun q =>
           Ok (annealing_thresh - q * x >? one)%num)
         else Ok false) (fun before =>
  if before then Ok one
  else rbind (ramp annealing_thresh annealing_horizon x) (fun v =>
       Ok (py_max v zero))).

(** The reward-shaping schedule as [learn] builds it:
    [annealing_thresh = 0]. *)
Definition reward_shaping_fn (annealing_horizon x : num) : result num :=
  annealing_fn zero annealing_horizon x.

(** Lines 379-381: the sigmoid schedule for a scalar [sp_horizon].
    [shift = rew_target / 2; t = (1 / rew_target) * 10;
     fn = lambda x: -1 * (np.exp(t*(x-shift)) / (1 + np.exp(t*(x-shift)))) + 1] *)
Definition sigmoid_fn (rew_target x : num) : result num :=
  rbind (py_div rew_target (of_Z 2)) (fun shift =>
  rbind (py_div one rew_target) (fun inv =>
  let t := (inv * of_Z 10)%num in
  let e := np_exp (t * (x - shift))%num in
  Ok (of_Z (-1) * (e / (one + e)) + one)%num)).

(** Lines 393-398: the piecewise-linear self-play schedule.
    [if self_play_thresh != 0 and
        self_play_timeline - (self_play_timeline / self_play_thresh) * x > 1:
       return 1
     else: return max(lambda(x), 0)] *)
Definition self_play_fn (self_play_thresh self_play_timeline x : num)
  : result num :=
  rbind (if Num.neb self_play_thresh zero then
           rbind (py_div self_play_timeline self_play_thresh) (fun q =>
           Ok (self_play_timeline - q * x >? one)%num)
         else Ok false) (fun before =>
  if before then Ok one
  else rbind (ramp self_play_thresh self_play_timeline x) (fun v =>
       Ok (py_max v zero))).

End Schedules.

End Curriculum.

(* ===================================================================== *)
(** ** The update loop of [learn] *)
(* ===================================================================== *)

Module Loop.

(** An episode record of the rollout: the keys that [learn] reads. *)
Record epinfo : Type := {
  ep_r : num;            (* epinfo['r'] *)
  ep_length : num;       (* epinfo['ep_length'] *)
  ep_shaped_r : num;     (* epinfo['ep_shaped_r'] *)
  ep_sparse_r : num      (* epinfo['ep_sparse_r'] *)
}.

(** Model parameters are identified by the number of [model.train] calls
    that produced them from the freshly constructed model. *)
Definition weights : Type := nat.

(** The files that [learn] writes or reads model parameters to or from. *)
Inductive ckpt : Type :=
| LoadPath               (* load_path *)
| TempBest               (* checkdir + ".temp_best_model" *)
| BestTrain              (* SAVE_DIR seed CURR_SEED /best_train *)
| BestVal                (* SAVE_DIR seed CURR_SEED /best_val *)
| Periodic (update : Z). (* checkdir / '%.5i' % update *)

Definition ckpt_eqb (a b : ckpt) : bool :=
  match a, b with
  | LoadPath, LoadPath | TempBest, TempBest
  | BestTrain, BestTrain | BestVal, BestVal => true
  | Periodic u, Periodic v => u =? v
  | _, _ => false
  end.

(** The checkpoint files: the latest write to a path comes first. *)
Definition disk : Type := list (ckpt * weights).

Fixpoint read_ckpt (d : disk) (c : ckpt) : option weights :=
  match d with
  | [] => None
  | (c', w) :: d' => if ckpt_eqb c c' then Some w else read_ckpt d' c
  end.

(** What an observer of a run can see, in order. *)
Inductive event : Type :=
| EvBuildPolicy                       (* build_policy(env, network, ..) *)
| EvModelInit                         (* model_fn(policy=.., ..) *)
| EvLoad (c : ckpt)                   (* model.load(..) *)
| EvRunnerInit                        (* Runner(env=env, ..) *)
| EvEvalRunnerInit                    (* Runner(env=eval_env, ..) *)
| EvUpdate (update : Z)               (* print("UPDATE {} / {}; ..") *)
| EvRollout (update : Z)              (* runner.run() *)
| EvEvalRollout (update : Z)          (* eval_runner.run() *)
| EvTrain (update : Z) (inds : list nat)  (* model.train(.., *slices) *)
| EvSave (c : ckpt) (w : weights)     (* model.save / save_ppo_model *)
| EvValidation (update : Z) (sp : num)
      (* play_validation_games / play_parallel_val_games, with the value
         of env.self_play_randomization at the call *)
| EvRewardShaping (v : num)           (* env.update_reward_shaping_param *)
| EvSelfPlay (v : num)                (* env.self_play_randomization = .. *)
| EvVisualize (update : Z)            (* overcooked_env.run_agents(..) *)
| EvBreak (update : Z).               (* break *)

(** The arguments of [learn] and the entries of [additional_params] that
    decide control flow.  [nsteps] and [env.num_envs] are counts. *)
Record config : Type := {
  total_timesteps : Z;
  early_stopping : bool;
  has_eval_env : bool;                (* eval_env is not None *)
  nsteps : nat;
  log_interval : Z;
  nminibatches : Z;
  noptepochs : Z;
  save_interval : Z;
  has_load_path : bool;               (* load_path is not None *)
  num_envs : nat;                     (* env.num_envs *)
  can_save : bool;  (* logger.get_dir() and (MPI is None or rank == 0) *)
  RUN_TYPE : string;
  PPO_TO_SAVE : list string;
  VAL_FREQ : Z;
  SELF_PLAY_HORIZON : sp_horizon_t;
  OTHER_AGENT_TYPE : string;
  STOPPING_STAGNANT_UPDATES : Z;
  REW_SHAPING_HORIZON : num;
  VIZ_FREQUENCY : Z
}.

(** What [runner.run()] hands back, as far as [learn] looks into it:
    [states] ([None] for a feed-forward policy, else one row per
    environment) and [epinfos]. *)
Record rollout (S : Type) : Type := {
  ro_states : option (list S);
  ro_epinfos : list epinfo
}.

(** The collaborators: the rollout of each update, the reward of the
    validation games played at an update, and what the run finds when it
    starts (the environment's self-play ratio, the files on disk, the
    random generator). *)
Record world (S : Type) : Type := {
  runner_run : Z -> rollout S;
  play_validation_games : Z -> num;
  self_play_randomization0 : num;
  disk0 : disk;
  gen0 : Minibatch.bitgen
}.

(** The mutable variables of [learn], of [env] and of the file system. *)
Record state : Type := {
  model : weights;
  files : disk;
  best_train_rew : num;
  best_val_rew : num;
  signif_best_val_rew : num;
  count_val_stagnation : Z;
  best_rew_per_step : num;
  epinfobuf : list epinfo;            (* deque(maxlen=100) *)
  sp_horizon : option sp_horizon_t;   (* [None]: not yet assigned *)
  self_play_randomization : num;      (* env.self_play_randomization *)
  gen : Minibatch.bitgen;
  trace : list event
}.

(** Field updates. *)
Definition set_model (v : weights) (s : state) : state :=
  {| model := v; files := files s; best_train_rew := best_train_rew s;
     best_val_rew := best_val_rew s;
     signif_best_val_rew := signif_best_val_rew s;
     count_val_stagnation := count_val_stagnation s;
     best_rew_per_step := best_rew_per_step s; epinfobuf := epinfobuf s;
     sp_horizon := sp_horizon s;
     self_play_randomization := self_play_randomization s; gen := gen s;
     trace := trace s |}.

Definition set_files (v : disk) (s : state) : state :=
  {| model := model s; files := v; best_train_rew := best_train_rew s;
     best_val_rew := best_val_rew s;
     signif_best_val_rew := signif_best_val_rew s;
     count_val_stagnation := count_val_stagnation s;
     best_rew_per_step := best_rew_per_step s; epinfobuf := epinfobuf s;
     sp_horizon := sp_horizon s;
     self_play_randomization := self_play_randomization s; gen := gen s;
     trace := trace s |}.

Definition set_best_train_rew (v : num) (s : state) : state :=
  {| model := model s; files := files s; best_train_rew := v;
     best_val_rew := best_val_rew s;
     signif_best_val_rew := signif_best_val_rew s;
     count_val_stagnation := count_val_stagnation s;
     best_rew_per_step := best_rew_per_step s; epinfobuf := epinfobuf s;
     sp_horizon := sp_horizon s;
     self_play_randomization := self_play_randomization s; gen := gen s;
     trace := trace s |}.

Definition set_best_val_rew (v : num) (s : state) : state :=
  {| model := model s; files := files s; best_train_rew := best_train_rew s;
     best_val_rew := v; signif_best_val_rew := signif_best_val_rew s;
     count_val_stagnation := count_val_stagnation s;
     best_rew_per_step := best_rew_per_step s; epinfobuf := epinfobuf s;
     sp_horizon := sp_horizon s;
     self_play_randomization := self_play_randomization s; gen := gen s;
     trace := trace s |}.

Definition set_signif_best_val_rew (v : num) (s : state) : state :=
  {| model := model s; files := files s; best_train_rew := best_train_rew s;
     best_val_rew := best_val_rew s; signif_best_val_rew := v;
     count_val_stagnation := count_val_stagnation s;
     best_rew_per_step := best_rew_per_step s; epinfobuf := epinfobuf s;
     sp_horizon := sp_horizon s;
     self_play_randomization := self_play_randomization s; gen := gen s;
     trace := trace s |}.

Definition set_count_val_stagnation (v : Z) (s : state) : state :=
  {| model := model s; files := files s; best_train_rew := best_train_rew s;
     best_val_rew := best_val_rew s;
     signif_best_val_rew := signif_best_val_rew s; count_val_stagnation := v;
     best_rew_per_step := best_rew_per_step s; epinfobuf := epinfobuf s;
     sp_horizon := sp_horizon s;
     self_play_randomization := self_play_randomization s; gen := gen s;
     trace := trace s |}.

Definition set_best_rew_per_step (v : num) (s : state) : state :=
  {| model := model s; files := files s; best_train_rew := best_train_rew s;
     best_val_rew := best_val_rew s;
     signif_best_val_rew := signif_best_val_rew s;
     count_val_stagnation := count_val_stagnation s; best_rew_per_step := v;
     epinfobuf := epinfobuf s; sp_horizon := sp_horizon s;
     self_play_randomization := self_play_randomization s; gen := gen s;
     trace := trace s |}.

Definition set_epinfobuf (v : list epinfo) (s : state) : state :=
  {| model := model s; files := files s; best_train_rew := best_train_rew s;
     best_val_rew := best_val_rew s;
     signif_best_val_rew := signif_best_val_rew s;
     count_val_stagnation := count_val_stagnation s;
     best_rew_per_step := best_rew_per_step s; epinfobuf := v;
     sp_horizon := sp_horizon s;
     self_play_randomization := self_play_randomization s; gen := gen s;
     trace := trace s |}.

Definition set_sp_horizon (v : option sp_horizon_t) (s : state) : state :=
  {| model := model s; files := files s; best_train_rew := best_train_rew s;
     best_val_rew := best_val_rew s;
     signif_best_val_rew := signif_best_val_rew s;
     count_val_stagnation := count_val_stagnation s;
     best_rew_per_step := best_rew_per_step s; epinfobuf := epinfobuf s;
     sp_horizon := v; self_play_randomization := self_play_randomization s;
     gen := gen s; trace := trace s |}.

Definition set_self_play_randomization (v : num) (s : state) : state :=
  {| model := model s; files := files s; best_train_rew := best_train_rew s;
     best_val_rew := best_val_rew s;
     signif_best_val_rew := signif_best_val_rew s;
     count_val_stagnation := count_val_stagnation s;
     best_rew_per_step := best_rew_per_step s; epinfobuf := epinfobuf s;
     sp_horizon := sp_horizon s; self_play_randomization := v; gen := gen s;
     trace := trace s |}.

Definition set_gen (v : Minibatch.bitgen) (s : state) : state :=
  {| model := model s; files := files s; best_train_rew := best_train_rew s;
     best_val_rew := best_val_rew s;
     signif_best_val_rew := signif_best_val_rew s;
     count_val_stagnation := count_val_stagnation s;
     best_rew_per_step := best_rew_per_step s; epinfobuf := epinfobuf s;
     sp_horizon := sp_horizon s;
     self_play_randomization := self_play_randomization s; gen := v;
     trace := trace s |}.

Definition set_trace (v : list event) (s : state) : state :=
  {| model := model s; files := files s; best_train_rew := best_train_rew s;
     best_val_rew := best_val_rew s;
     signif_best_val_rew := signif_best_val_rew s;
     count_val_stagnation := count_val_stagnation s;
     best_rew_per_step := best_rew_per_step s; epinfobuf := epinfobuf s;
     sp_horizon := sp_horizon s;
     self_play_randomization := self_play_randomization s; gen := gen s;
     trace := v |}.

(** [break] or fall through to the next iteration. *)
Inductive ctrl : Type := Continue | Break.

(** *** The monad: state threaded through, exceptions keep the state *)

Definition M (A : Type) : Type := state -> result A * state.

Definition ret {A : Type} (a : A) : M A := fun s => (Ok a, s).

Definition bind {A B : Type} (c : M A) (k : A -> M B) : M B :=
  fun s =>
    match c s with
    | (Ok a, s') => k a s'
    | (Raise e, s') => (Raise e, s')
    end.

Definition raise {A : Type} (e : exn) : M A := fun s => (Raise e, s).

Definition get : M state := fun s => (Ok s, s).

Definition lift {A : Type} (r : result A) : M A := fun s => (r, s).

Declare Scope loop_scope.
Delimit Scope loop_scope with loop.
Notation "x <- c ;; k" := (bind c (fun x => k))
  (at level 61, c at next level, right associativity) : loop_scope.
Notation "c ;; k" := (bind c (fun _ => k))
  (at level 61, right associativity) : loop_scope.
Local Open Scope loop_scope.

Definition modify (f : state -> state) : M unit := fun s => (Ok tt, f s).

Definition emit (e : event) : M unit :=
  modify (fun s => set_trace (trace s ++ [e]) s).

Definition assert (b : bool) : M unit :=
  if b then ret tt else raise AssertionError.

Definition when (b : bool) (c : M unit) : M unit :=
  if b then c else ret tt.


(** *** Small helpers *)

(** [x in xs] for strings. *)
Definition str_in (x : string) (xs : list string) : bool :=
  existsb (String.eqb x) xs.

(** [buf.extend(xs)] on a [deque(maxlen=100)]: the newest 100 remain. *)
Definition deque_extend (buf xs : list epinfo) : list epinfo :=
  let l := buf ++ xs in
  skipn (List.length l - 100)%nat l.

(** [model.save(path)] and [save_ppo_model(model, path)] *)
Definition save (c : ckpt) : M unit :=
  s <- get ;;
  modify (set_files ((c, model s) :: files s)) ;;
  emit (EvSave c (model s)).

(** [model.load(path)] *)
Definition load (c : ckpt) : M unit :=
  emit (EvLoad c) ;;
  s <- get ;;
  match read_ckpt (files s) c with
  | Some w => modify (set_model w)
  | None => raise FileNotFoundError
  end.

(** [model_fn(policy=policy, ..)]: a freshly constructed model. *)
Definition model_init : M unit :=
  emit EvModelInit ;;
  modify (set_model O).

(** One [model.train] call on the slices selected by [inds]. *)
Definition train (update : Z) (inds : list nat) : M unit :=
  emit (EvTrain update inds) ;;
  modify (fun s => set_model (Datatypes.S (model s)) s).

Fixpoint train_all (update : Z) (mbs : list (list nat)) : M unit :=
  match mbs with
  | [] => ret tt
  | inds :: rest => train update inds ;; train_all update rest
  end.

(** The factor of the ten-percent test, the literal [1.1]. *)
Definition signif_factor : num := Fin (11 # 10).

Section Learn.

Variable S : Type.
Variable np_exp : num -> num.
Variable cfg : config.
Variable W : world S.

(** Lines 104-112 and 141. *)
Definition nenvs : nat := num_envs cfg.
Definition nbatch : Z := Z.of_nat (nenvs * nsteps cfg).
Definition nbatch_train : Z := nbatch / nminibatches cfg.
Definition nupdates : Z := total_timesteps cfg / nbatch.

(** [additional_params["RUN_TYPE"] in ["ppo", "joint_ppo"]] *)
Definition ppo_run : bool := str_in (RUN_TYPE cfg) ["ppo"; "joint_ppo"]%string.

(** Lines 161-173: the reward-per-step test of [early_stopping]. *)
Definition early_stopping_block (epinfos : list epinfo) : M unit :=
  let eplenmean := safemean (map ep_length epinfos) in
  let eprewmean := safemean (map ep_r epinfos) in
  let rew_per_step := (eprewmean / eplenmean)%num in
  s <- get ;;
  when ((rew_per_step >? best_rew_per_step s)%num && early_stopping cfg)
    (modify (set_best_rew_per_step (eprewmean / eplenmean)%num) ;;
     save TempBest).

(** Lines 180-208: the [model.train] calls of one update; returns how many
    were made. *)
Definition optimise (update : Z) (states : option (list S)) : M nat :=
  s <- get ;;
  match states with
  | None =>
      let ph := Minibatch.nonrecurrent (noptepochs cfg) nbatch nbatch_train
                  (gen s) in
      let calls := List.concat (Minibatch.epochs ph) in
      modify (set_gen (Minibatch.gen_after ph)) ;;
      train_all update calls ;;
      match Minibatch.failure ph with
      | Some e => raise e
      | None => ret (List.length calls)
      end
  | Some sts =>
      let ph := Minibatch.recurrent (noptepochs cfg) nenvs (nsteps cfg)
                  (nminibatches cfg) sts (gen s) in
      let calls :=
        map (@Minibatch.mbflatinds S) (List.concat (Minibatch.epochs ph)) in
      modify (set_gen (Minibatch.gen_after ph)) ;;
      train_all update calls ;;
      match Minibatch.failure ph with
      | Some e => raise e
      | None => ret (List.length calls)
      end
  end.

(** Line 217: [update % log_interval == 0 or update == 1]. *)
Definition log_due (update : Z) : M bool :=
  m <- lift (py_mod update (log_interval cfg)) ;;
  ret ((m =? 0) || (update =? 1)).

(** Lines 270-284: the best-training-reward checkpoint. *)
Definition best_train_block (ep_sparse_rew_mean : num) : M unit :=
  when (ppo_run && str_in "best_train" (PPO_TO_SAVE cfg))
    (modify (set_sp_horizon (Some (SELF_PLAY_HORIZON cfg))) ;;
     s <- get ;;
     when (ep_sparse_rew_mean >? best_train_rew s)%num
       (if str_in (OTHER_AGENT_TYPE cfg) ["tom"; "bc_pop"; "tom_bc"]%string
           && sp_horizon_nonzero (SELF_PLAY_HORIZON cfg)
           && (self_play_randomization s >? zero)%num
        then ret tt
        else
          save BestTrain ;;
          modify (set_best_train_rew
                    (py_max ep_sparse_rew_mean (best_train_rew s))))).

(** Lines 287-290: the guard of the validation block, evaluated left to
    right. *)
Definition validation_due (update : Z) : M bool :=
  if ppo_run && str_in "best_validation" (PPO_TO_SAVE cfg) then
    m <- lift (py_mod update (VAL_FREQ cfg)) ;;
    s <- get ;;
    ret ((m =? 0)
         && sp_horizon_nonzero (SELF_PLAY_HORIZON cfg)
         && (self_play_randomization s =? zero)%num)
  else ret false.

(** Lines 304-324: what the validation block does with [val_rew]. *)
Definition model_selection (update : Z) (val_rew : num) : M ctrl :=
  s <- get ;;
  when (val_rew >? best_val_rew s)%num
    (save BestVal ;; modify (set_best_val_rew val_rew)) ;;
  if (val_rew >? signif_factor * signif_best_val_rew s)%num then
    modify (set_signif_best_val_rew val_rew) ;;
    modify (set_count_val_stagnation 0) ;;
    ret Continue
  else
    modify (set_count_val_stagnation (count_val_stagnation s + 1)) ;;
    s' <- get ;;
    if count_val_stagnation s' >=? STOPPING_STAGNANT_UPDATES cfg then
      emit (EvBreak update) ;; ret Break
    else ret Continue.

(** Lines 287-324. *)
Definition validation_block (update : Z) : M ctrl :=
  due <- validation_due update ;;
  if due then
    s <- get ;;
    emit (EvValidation update (self_play_randomization s)) ;;
    model_selection update (play_validation_games W update)
  else ret Continue.

(** Lines 351-368: reward-shaping annealing. *)
Definition reward_shaping_block (update : Z) : M unit :=
  when (Num.neb (REW_SHAPING_HORIZON cfg) zero)
    (v <- lift (Curriculum.reward_shaping_fn (REW_SHAPING_HORIZON cfg)
                  (of_Z (update * nbatch))) ;;
     emit (EvRewardShaping v)).

Definition set_self_play (v : num) : M unit :=
  modify (set_self_play_randomization v) ;;
  emit (EvSelfPlay v).

(** Lines 373-402: the self-play schedule.  [sp_horizon] is the local
    variable assigned in the best-training-reward block. *)
Definition self_play_block (update : Z) (ep_sparse_rew_mean : num) : M unit :=
  when (negb (String.eqb (OTHER_AGENT_TYPE cfg) "sp"))
    (s <- get ;;
     match sp_horizon s with
     | None => raise UnboundLocalError
     | Some SpNone => ret tt
     | Some (SpScalar rew_target) =>
         v <- lift (Curriculum.sigmoid_fn np_exp rew_target
                      ep_sparse_rew_mean) ;;
         set_self_play v
     | Some (SpList [self_play_thresh; self_play_timeline]) =>
         v <- lift (Curriculum.self_play_fn self_play_thresh
                      self_play_timeline (of_Z (update * nbatch))) ;;
         set_self_play v
     | Some (SpList _) => raise AssertionError
     end).

(** Lines 217-402: the logging-interval part of an update.  [ncalls] is
    the number of [model.train] calls of the update: with none,
    [lossvals = np.mean([], axis=0)] is a scalar and [zip(lossvals, ..)]
    at line 262 is a [TypeError]. *)
Definition logging_block (update : Z) (ncalls : nat) : M ctrl :=
  s <- get ;;
  let ep_sparse_rew_mean := safemean (map ep_sparse_r (epinfobuf s)) in
  when (Nat.eqb ncalls 0) (raise TypeError) ;;
  best_train_block ep_sparse_rew_mean ;;
  c <- validation_block update ;;
  match c with
  | Break => ret Break
  | Continue =>
      when ppo_run
        (reward_shaping_block update ;;
         self_play_block update ep_sparse_rew_mean) ;;
      ret Continue
  end.

(** Lines 406-411: the periodic checkpoint. *)
Definition periodic_save (update : Z) : M unit :=
  when (negb (save_interval cfg =? 0)
        && ((update mod save_interval cfg =? 0) || (update =? 1))
        && can_save cfg)
    (save (Periodic update)).

(** Lines 413-471: the rendered rollout. *)
Definition visualize (update : Z) : M unit :=
  when ppo_run
    (m <- lift (py_mod update (VIZ_FREQUENCY cfg)) ;;
     when (m =? 0) (emit (EvVisualize update))).

(** Line 217 with its block: [if update % log_interval == 0 or ..: ..]. *)
Definition logging (update : Z) (ncalls : nat) : M ctrl :=
  due <- log_due update ;;
  if due then logging_block update ncalls else ret Continue.

(** Lines 147-471: an iteration after its banner. *)
Definition update_rest (update : Z) : M ctrl :=
  assert (nbatch mod nminibatches cfg =? 0) ;;
  emit (EvRollout update) ;;
  let ro := runner_run W update in
  when (has_eval_env cfg) (emit (EvEvalRollout update)) ;;
  early_stopping_block (ro_epinfos ro) ;;
  modify (fun s => set_epinfobuf (deque_extend (epinfobuf s) (ro_epinfos ro)) s) ;;
  ncalls <- optimise update (ro_states ro) ;;
  c <- logging update ncalls ;;
  match c with
  | Break => ret Break
  | Continue =>
      periodic_save update ;;
      visualize update ;;
      ret Continue
  end.

(** Lines 143-471: one iteration of the [for] loop. *)
Definition update_body (update : Z) : M ctrl :=
  emit (EvUpdate update) ;;
  update_rest update.

(** [for update in ..: body], leaving at the first [break]. *)
Fixpoint run_updates (updates : list Z) : M unit :=
  match updates with
  | [] => ret tt
  | update :: rest =>
      c <- update_body update ;;
      match c with
      | Break => ret tt
      | Continue => run_updates rest
      end
  end.

(** [range(1, nupdates + 1)] *)
Definition update_range (n : Z) : list Z :=
  map Z.of_nat (seq 1 (Z.to_nat n)).

(** Lines 97-141: everything before the loop; the result is [nupdates]. *)
Definition setup : M Z :=
  emit EvBuildPolicy ;;
  _ <- lift (py_floordiv nbatch (nminibatches cfg)) ;;
  model_init ;;
  when (has_load_path cfg) (load LoadPath) ;;
  emit EvRunnerInit ;;
  when (has_eval_env cfg) (emit EvEvalRunnerInit) ;;
  lift (py_floordiv (total_timesteps cfg) nbatch).

(** Lines 484-488: the reload after the loop and [return model, ..]. *)
Definition finish (n : Z) : M weights :=
  when ((0 <? n) && early_stopping cfg) (load TempBest) ;;
  s <- get ;;
  ret (model s).

(** [learn]; the result is the returned model. *)
Definition learn : M weights :=
  n <- setup ;;
  run_updates (update_range n) ;;
  finish n.

(** The variables of [learn] as initialised at lines 99-102 and 131-138,
    in the world the run starts in. *)
Definition init_state : state :=
  {| model := O; files := disk0 W;
     best_train_rew := NInf; best_val_rew := NInf;
     signif_best_val_rew := NInf; count_val_stagnation := 0;
     best_rew_per_step := zero; epinfobuf := [];
     sp_horizon := None;
     self_play_randomization := self_play_randomization0 W;
     gen := gen0 W; trace := [] |}.

Definition run_learn : result weights * state := learn init_state.

End Learn.

End Loop.
(* ===================================================================== *)
(** ** Specification vocabulary *)
(* ===================================================================== *)

(** The minibatches [mbs] of one epoch split the index range [[0, n)]
    exactly: laid end to end they list every index once; every index is in
    one minibatch and in no other; no minibatch repeats an index; and they
    are [k] arrays of [b] indices each. *)
Definition exact_partition (n k b : nat) (mbs : list (list nat)) : Prop :=
  Permutation (List.concat mbs) (seq 0 n) /\
  (forall i, (i < n)%nat ->
     exists! a, exists mb, nth_error mbs a = Some mb /\ In i mb) /\
  Forall (@NoDup nat) mbs /\
  List.length mbs = k /\
  Forall (fun mb => List.length mb = b) mbs.

(** The flat indices of environment [e]: its [nsteps] consecutive time
    steps. *)
Definition window (nsteps e : nat) : list nat := seq (e * nsteps) nsteps.

(** A recurrent minibatch is made of whole per-environment sequences: its
    flat indices are the windows of its environments, in order, and its
    state rows are the rows of [states] at those environments. *)
Definition whole_sequences {S : Type} (nsteps : nat) (states : list S)
  (mb : Minibatch.rec_minibatch S) : Prop :=
  Minibatch.mbflatinds mb = flat_map (window nsteps) (Minibatch.mbenvinds mb) /\
  Forall2 (fun e st => nth_error states e = Some st)
          (Minibatch.mbenvinds mb) (Minibatch.mbstates mb).

(** A stand-in for [np.exp], used to run the definitions on concrete
    inputs: it overflows to [inf] and underflows to zero where binary64
    [exp] does, and is positive and increasing in between. *)
Definition coarse_exp (a : num) : num :=
  match a with
  | NaN => NaN
  | NInf => zero
  | PInf => PInf
  | Fin q =>
      if Qle_bool 710 q then PInf
      else if Qle_bool q (-746) then zero
      else Fin (Qred (Qpower 3 (Qfloor q)))
  end.

(** *** Traces of a run *)

Import Loop.
Local Open Scope loop_scope.

Definition is_update (e : event) : bool :=
  match e with EvUpdate _ => true | _ => false end.

Definition is_train (e : event) : bool :=
  match e with EvTrain _ _ => true | _ => false end.

Definition is_break (e : event) : bool :=
  match e with EvBreak _ => true | _ => false end.

(** How many events of a kind a trace holds. *)
Definition count (f : event -> bool) (l : list event) : nat :=
  List.length (filter f l).

(** Events that replace the model parameters instead of training them. *)
Definition no_reload (e : event) : Prop :=
  match e with
  | EvModelInit | EvLoad _ => False
  | _ => True
  end.

(** [s'] comes after [s]: the trace has grown by events that all satisfy
    [E], and unless the model was constructed or reloaded in between, its
    parameters have moved by exactly the [model.train] calls among them. *)
Definition follows (E : event -> Prop) (s s' : state) : Prop :=
  exists evs,
    trace s' = trace s ++ evs /\
    Forall E evs /\
    (Forall no_reload evs -> model s' = (model s + count is_train evs)%nat).

(** Whatever the start state and the outcome, running [c] leads to a state
    that follows the start state. *)
Definition steps {A : Type} (E : event -> Prop) (c : M A) : Prop :=
  forall s, follows E s (snd (c s)).

Definition not_break (e : event) : Prop := is_break e = false.

Section Alphabets.

Variable S : Type.
Variable cfg : config.
Variable W : world S.

(** [update % log_interval == 0 or update == 1] holds (and could be
    evaluated). *)
Definition log_interval_hit (update : Z) : Prop :=
  log_interval cfg <> 0 /\ (update mod log_interval cfg = 0 \/ update = 1).

(** The guard of the validation block holds at [update], with [sp] the
    value of [env.self_play_randomization]. *)
Definition validation_guard (update : Z) (sp : num) : Prop :=
  ppo_run cfg = true /\
  str_in "best_validation" (PPO_TO_SAVE cfg) = true /\
  VAL_FREQ cfg <> 0 /\ update mod VAL_FREQ cfg = 0 /\
  sp_horizon_nonzero (SELF_PLAY_HORIZON cfg) = true /\
  Num.eqb sp zero = true.

(** The events an iteration can emit after its banner. *)
Definition update_event (update : Z) (e : event) : Prop :=
  match e with
  | EvRollout u | EvEvalRollout u | EvTrain u _ | EvVisualize u
  | EvBreak u => u = update
  | EvSave c _ =>
      match c with
      | TempBest =>
          early_stopping cfg = true /\ ro_epinfos (runner_run W update) <> []
      | BestTrain | BestVal => True
      | Periodic u => u = update
      | LoadPath => False
      end
  | EvValidation u sp =>
      u = update /\ log_interval_hit update /\ validation_guard update sp
  | EvRewardShaping _ | EvSelfPlay _ => True
  | _ => False
  end.

(** The events of a whole run. *)
Definition run_event (e : event) : Prop :=
  match e with
  | EvBuildPolicy | EvModelInit | EvLoad _ | EvRunnerInit
  | EvEvalRunnerInit | EvUpdate _ => True
  | _ => exists update, update_event update e
  end.

(** A block of the loop body that may [break] in iteration [update]: when
    it returns [Break], the trace has grown by events that end in
    [EvBreak update], the only break among them, and the stagnation
    counter has reached its threshold; otherwise it has emitted no
    break. *)
Definition breaks_at (update : Z) (c : M ctrl) : Prop :=
  forall s,
    match fst (c s) with
    | Ok Break =>
        exists pre,
          trace (snd (c s)) = trace s ++ pre ++ [EvBreak update] /\
          Forall not_break pre /\
          STOPPING_STAGNANT_UPDATES cfg <= count_val_stagnation (snd (c s))
    | _ =>
        exists evs,
          trace (snd (c s)) = trace s ++ evs /\ Forall not_break evs
    end.

End Alphabets.

(** Every normal return of [c] satisfies [P]. *)
Definition returns {A : Type} (c : M A) (P : A -> Prop) : Prop :=
  forall s a s', c s = (Ok a, s') -> P a.

(** *** Concrete runs *)

(** An episode of total reward [r] over [l] steps. *)
Definition episode (r l : Z) : epinfo :=
  {| ep_r := of_Z r; ep_length := of_Z l;
     ep_shaped_r := of_Z 0; ep_sparse_r := of_Z r |}.

(** Two environments, four steps per update, eight timesteps in all, two
    minibatches, one epoch: the end-to-end scenario of the specification. *)
Definition scenario_cfg : config :=
  {| total_timesteps := 8; early_stopping := false; has_eval_env := false;
     nsteps := 4; log_interval := 1; nminibatches := 2; noptepochs := 1;
     save_interval := 0; has_load_path := false; num_envs := 2;
     can_save := true;
     RUN_TYPE := "ppo"; PPO_TO_SAVE := ["best_train"; "best_validation"]%string;
     VAL_FREQ := 1; SELF_PLAY_HORIZON := SpNone; OTHER_AGENT_TYPE := "sp";
     STOPPING_STAGNANT_UPDATES := 2; REW_SHAPING_HORIZON := of_Z 0;
     VIZ_FREQUENCY := 100 |}.

(** A feed-forward policy in an environment whose two episodes per rollout
    collect rewards [1, 1, 1, 1]; validation games score [val update]. *)
Definition scenario_world (val : Z -> num) : world unit :=
  {| runner_run := fun _ =>
       {| ro_states := None; ro_epinfos := [episode 4 4; episode 4 4] |};
     play_validation_games := val;
     self_play_randomization0 := zero;
     disk0 := [];
     gen0 := [3; 1; 4; 1; 5; 9; 2; 6; 5; 3; 5; 8; 9; 7; 9; 3; 2; 3; 8; 4; 6]%nat |}.

(** The same set-up over ten updates, stopping after two stagnant
    validations. *)
Definition stagnation_cfg : config :=
  {| total_timesteps := 80; early_stopping := false; has_eval_env := false;
     nsteps := 4; log_interval := 1; nminibatches := 2; noptepochs := 1;
     save_interval := 0; has_load_path := false; num_envs := 2;
     can_save := true;
     RUN_TYPE := "ppo"; PPO_TO_SAVE := ["best_train"; "best_validation"]%string;
     VAL_FREQ := 1; SELF_PLAY_HORIZON := SpNone; OTHER_AGENT_TYPE := "sp";
     STOPPING_STAGNANT_UPDATES := 2; REW_SHAPING_HORIZON := of_Z 0;
     VIZ_FREQUENCY := 100 |}.

(** Validation reward 10 at the first update, 5 afterwards. *)
Definition stagnant_val (update : Z) : num :=
  if update =? 1 then of_Z 10 else of_Z 5.

(** Validation reward -10 at the first update, -10.5 afterwards. *)
Definition negative_val (update : Z) : num :=
  if update =? 1 then of_Z (-10) else Fin (-21 # 2).

(** Eight samples cannot be split into three minibatches. *)
Definition indivisible_cfg : config :=
  {| total_timesteps := 8; early_stopping := false; has_eval_env := false;
     nsteps := 4; log_interval := 1; nminibatches := 3; noptepochs := 1;
     save_interval := 0; has_load_path := false; num_envs := 2;
     can_save := true;
     RUN_TYPE := "ppo"; PPO_TO_SAVE := ["best_train"; "best_validation"]%string;
     VAL_FREQ := 1; SELF_PLAY_HORIZON := SpNone; OTHER_AGENT_TYPE := "sp";
     STOPPING_STAGNANT_UPDATES := 2; REW_SHAPING_HORIZON := of_Z 0;
     VIZ_FREQUENCY := 100 |}.

(** The scenario's environment when no episode ends within a rollout. *)
Definition quiet_world : world unit :=
  {| runner_run := fun _ => {| ro_states := None; ro_epinfos := [] |};
     play_validation_games := stagnant_val;
     self_play_randomization0 := zero;
     disk0 := [];
     gen0 := [2; 7; 1; 8; 2; 8; 1; 8]%nat |}.

(** Events from before the first rollout: construction, loading, and the
    banner of an iteration. *)
Definition before_rollout (e : event) : Prop :=
  match e with
  | EvBuildPolicy | EvModelInit | EvLoad _ | EvRunnerInit
  | EvEvalRunnerInit | EvUpdate _ => True
  | _ => False
  end.

(** Events up to the construction of the model. *)
Definition model_construction (e : event) : Prop :=
  e = EvBuildPolicy \/ e = EvModelInit.

(* ===================================================================== *)
(** ** Learning-rate schedule (lines 17-20, 86-94 and 150-154) *)
(* ===================================================================== *)

(** [def constfn(val): def f(_): return val; return f] *)
Definition constfn (val : num) : num -> result num := fun _ => Ok val.




(* ===================================================================== *)
(** ** What a run writes, and when *)
(* ===================================================================== *)

Section Accounting.

Variable cfg : config.

(** The guard of line 406 holds at [update]. *)
Definition periodic_save_due (update : Z) : Prop :=
  save_interval cfg <> 0 /\
  (update mod save_interval cfg = 0 \/ update = 1) /\
  can_save cfg = true.

(** The events of iteration [update], each with the configuration and the
    schedule that its place in the loop body implies. *)
Definition accounted_event (update : Z) (e : event) : Prop :=
  match e with
  | EvSave c _ =>
      match c with
      | LoadPath => False
      | TempBest => early_stopping cfg = true
      | BestTrain =>
          ppo_run cfg = true /\
          str_in "best_train" (PPO_TO_SAVE cfg) = true /\
          log_interval_hit cfg update
      | BestVal =>
          ppo_run cfg = true /\
          str_in "best_validation" (PPO_TO_SAVE cfg) = true /\
          log_interval_hit cfg update /\
          VAL_FREQ cfg <> 0 /\ update mod VAL_FREQ cfg = 0
      | Periodic u => u = update /\ periodic_save_due update
      end
  | EvVisualize u =>
      u = update /\ ppo_run cfg = true /\
      VIZ_FREQUENCY cfg <> 0 /\ update mod VIZ_FREQUENCY cfg = 0
  | EvRewardShaping v =>
      ppo_run cfg = true /\ log_interval_hit cfg update /\
      Num.neb (REW_SHAPING_HORIZON cfg) zero = true /\
      Curriculum.reward_shaping_fn (REW_SHAPING_HORIZON cfg)
        (of_Z (update * nbatch cfg)) = Ok v
  | EvSelfPlay _ =>
      ppo_run cfg = true /\ log_interval_hit cfg update /\
      String.eqb (OTHER_AGENT_TYPE cfg) "sp" = false
  | _ => True
  end.

(** The events of a run: those of the set-up and the banners, and those
    of the iterations [1 .. nupdates]. *)
Definition accounted (e : event) : Prop :=
  before_rollout e \/
  exists update, 1 <= update <= nupdates cfg /\ accounted_event update e.

(** A checkpoint written, or a change made to the curriculum of the
    environment, is one the configuration asks for; [load_path] is never
    written. *)
Definition configured (e : event) : Prop :=
  match e with
  | EvSave LoadPath _ => False
  | EvSave TempBest _ => early_stopping cfg = true
  | EvSave BestTrain _ =>
      ppo_run cfg = true /\ str_in "best_train" (PPO_TO_SAVE cfg) = true
  | EvSave BestVal _ =>
      ppo_run cfg = true /\ str_in "best_validation" (PPO_TO_SAVE cfg) = true
  | EvRewardShaping _ =>
      ppo_run cfg = true /\ Num.neb (REW_SHAPING_HORIZON cfg) zero = true
  | EvSelfPlay _ =>
      ppo_run cfg = true /\ String.eqb (OTHER_AGENT_TYPE cfg) "sp" = false
  | _ => True
  end.

(** A periodic checkpoint or a rendered rollout belongs to an iteration
    of the run that is on its schedule. *)
Definition on_schedule (e : event) : Prop :=
  match e with
  | EvSave (Periodic u) _ =>
      1 <= u <= nupdates cfg /\ periodic_save_due u
  | EvVisualize u =>
      1 <= u <= nupdates cfg /\ ppo_run cfg = true /\
      VIZ_FREQUENCY cfg <> 0 /\ u mod VIZ_FREQUENCY cfg = 0
  | _ => True
  end.

(** A reward-shaping parameter handed to the environment is the value of
    the schedule at the timesteps of a logged iteration, and lies in
    [[0, 1]]. *)
Definition shaping_in_unit (e : event) : Prop :=
  match e with
  | EvRewardShaping v =>
      in_unit v /\
      exists update,
        1 <= update <= nupdates cfg /\ log_interval_hit cfg update /\
        Curriculum.reward_shaping_fn (REW_SHAPING_HORIZON cfg)
          (of_Z (update * nbatch cfg)) = Ok v
  | _ => True
  end.

End Accounting.

(** The scenario over three updates, with the shaped reward annealed away
    over sixteen timesteps. *)
Definition shaping_cfg : config :=
  {| total_timesteps := 24; early_stopping := false; has_eval_env := false;
     nsteps := 4; log_interval := 1; nminibatches := 2; noptepochs := 1;
     save_interval := 0; has_load_path := false; num_envs := 2;
     can_save := true;
     RUN_TYPE := "ppo"; PPO_TO_SAVE := ["best_train"; "best_validation"]%string;
     VAL_FREQ := 1; SELF_PLAY_HORIZON := SpNone; OTHER_AGENT_TYPE := "sp";
     STOPPING_STAGNANT_UPDATES := 5; REW_SHAPING_HORIZON := of_Z 16;
     VIZ_FREQUENCY := 100 |}.

(* ===================================================================== *)
(** ** Invariants of a run *)
(* ===================================================================== *)

(** [c] keeps [I]: started where [I] holds, it ends where [I] holds,
    whether it returns or raises. *)
Definition keeps {A : Type} (I : state -> Prop) (c : M A) : Prop :=
  forall s, I s -> I (snd (c s)).

(** Started where [P] holds, every normal return of [c] satisfies [Q]. *)
Definition hoare {A : Type} (P : state -> Prop) (c : M A)
  (Q : A -> state -> Prop) : Prop :=
  forall s a s', P s -> c s = (Ok a, s') -> Q a s'.

(** The parameters that the events of a trace wrote last to [c]. *)
Definition last_save (c : ckpt) (tr : list event) : option weights :=
  fold_left (fun acc e =>
               match e with
               | EvSave c' w => if ckpt_eqb c c' then Some w else acc
               | _ => acc
               end) tr None.

(** What [c] holds after the events of [tr]: the last write among them,
    else what the disk held before. *)
Definition ckpt_after (d : disk) (c : ckpt) (tr : list event) : option weights :=
  match last_save c tr with
  | Some w => Some w
  | None => read_ckpt d c
  end.

(** The scenario over two updates with [early_stopping]. *)
Definition early_stopping_cfg : config :=
  {| total_timesteps := 16; early_stopping := true; has_eval_env := false;
     nsteps := 4; log_interval := 1; nminibatches := 2; noptepochs := 1;
     save_interval := 0; has_load_path := false; num_envs := 2;
     can_save := true;
     RUN_TYPE := "ppo"; PPO_TO_SAVE := ["best_train"; "best_validation"]%string;
     VAL_FREQ := 1; SELF_PLAY_HORIZON := SpNone; OTHER_AGENT_TYPE := "sp";
     STOPPING_STAGNANT_UPDATES := 5; REW_SHAPING_HORIZON := of_Z 0;
     VIZ_FREQUENCY := 100 |}.

(** A run against a population of behaviour-cloned partners that keeps
    only the best validation model. *)
Definition bc_pop_cfg : config :=
  {| total_timesteps := 16; early_stopping := false; has_eval_env := false;
     nsteps := 4; log_interval := 1; nminibatches := 2; noptepochs := 1;
     save_interval := 0; has_load_path := false; num_envs := 2;
     can_save := true;
     RUN_TYPE := "ppo"; PPO_TO_SAVE := ["best_validation"]%string;
     VAL_FREQ := 1; SELF_PLAY_HORIZON := SpList [of_Z 8; of_Z 16];
     OTHER_AGENT_TYPE := "bc_pop";
     STOPPING_STAGNANT_UPDATES := 5; REW_SHAPING_HORIZON := of_Z 0;
     VIZ_FREQUENCY := 100 |}.

(** The file [c] holds what the trace says it does. *)
Definition disk_agrees {S : Type} (W : world S) (c : ckpt) (s : state) : Prop :=
  read_ckpt (files s) c = ckpt_after (disk0 W) c (trace s).

(** The local variable [sp_horizon] has not been assigned. *)
Definition sp_horizon_unset (s : state) : Prop := sp_horizon s = None.

(** [best_val_rew] is a number, and no validation of the run so far
    scored above it. *)
Definition best_val_dominates {S : Type} (W : world S) (s : state) : Prop :=
  is_nan (best_val_rew s) = false /\
  forall u sp,
    In (EvValidation u sp) (trace s) ->
    is_nan (play_validation_games W u) = false ->
    Num.le (play_validation_games W u) (best_val_rew s).





(** The local variable [sp_horizon] holds [h]. *)
Definition sp_horizon_is (h : sp_horizon_t) (s : state) : Prop :=
  sp_horizon s = Some h.

(** No assumption on the state. *)
Definition any_state (s : state) : Prop := True.

(** The scenario with logging switched off the way periodic saving is. *)
Definition zero_log_interval_cfg : config :=
  {| total_timesteps := 16; early_stopping := false; has_eval_env := false;
     nsteps := 4; log_interval := 0; nminibatches := 2; noptepochs := 1;
     save_interval := 0; has_load_path := false; num_envs := 2;
     can_save := true;
     RUN_TYPE := "ppo"; PPO_TO_SAVE := ["best_train"; "best_validation"]%string;
     VAL_FREQ := 1; SELF_PLAY_HORIZON := SpNone; OTHER_AGENT_TYPE := "sp";
     STOPPING_STAGNANT_UPDATES := 5; REW_SHAPING_HORIZON := of_Z 0;
     VIZ_FREQUENCY := 100 |}.

(** A run against behaviour-cloned partners with a self-play horizon of
    zero. *)
Definition zero_horizon_cfg : config :=
  {| total_timesteps := 16; early_stopping := false; has_eval_env := false;
     nsteps := 4; log_interval := 1; nminibatches := 2; noptepochs := 1;
     save_interval := 0; has_load_path := false; num_envs := 2;
     can_save := true;
     RUN_TYPE := "ppo"; PPO_TO_SAVE := ["best_train"; "best_validation"]%string;
     VAL_FREQ := 1; SELF_PLAY_HORIZON := SpScalar zero;
     OTHER_AGENT_TYPE := "bc_pop";
     STOPPING_STAGNANT_UPDATES := 5; REW_SHAPING_HORIZON := of_Z 0;
     VIZ_FREQUENCY := 100 |}.

(** The scenario with [early_stopping] and seven timesteps in all, one
    short of a batch. *)
Definition short_cfg : config :=
  {| total_timesteps := 7; early_stopping := true; has_eval_env := false;
     nsteps := 4; log_interval := 1; nminibatches := 2; noptepochs := 1;
     save_interval := 0; has_load_path := false; num_envs := 2;
     can_save := true;
     RUN_TYPE := "ppo"; PPO_TO_SAVE := ["best_train"; "best_validation"]%string;
     VAL_FREQ := 1; SELF_PLAY_HORIZON := SpNone; OTHER_AGENT_TYPE := "sp";
     STOPPING_STAGNANT_UPDATES := 5; REW_SHAPING_HORIZON := of_Z 0;
     VIZ_FREQUENCY := 100 |}.

(* ===================================================================== *)
(** * Properties *)
(* ===================================================================== *)

(** ** Scalars and [safemean] *)




(** ** The shuffle is a permutation *)

Section ShuffleFacts.

Context {A : Type}.
Implicit Types (x : list A) (i j : nat) (g : Minibatch.bitgen).

Lemma length_upd i (v : A) x :
  List.length (Minibatch.upd i v x) = List.length x.
Proof.
  revert i; induction x as [|h t IH]; intros [|i]; simpl; auto.
Qed.

Lemma upd_removes i (v a : A) x :
  nth_error x i = Some a ->
  Permutation (a :: Minibatch.upd i v x) (v :: x).
Proof.
  revert i; induction x as [|h t IH]; intros [|i] H; simpl in *;
    try discriminate.
  - injection H as ->. apply perm_swap.
  - rewrite perm_swap. rewrite (IH _ H). apply perm_swap.
Qed.

Lemma nth_error_upd_same i (v : A) x :
  (i < List.length x)%nat -> nth_error (Minibatch.upd i v x) i = Some v.
Proof.
  revert i; induction x as [|h t IH]; intros [|i] H; simpl in *;
    try lia; auto.
  apply IH. lia.
Qed.

Lemma nth_error_upd_other i j (v : A) x :
  i <> j -> nth_error (Minibatch.upd j v x) i = nth_error x i.
Proof.
  revert i j; induction x as [|h t IH]; intros [|i] [|j] H; simpl;
    try reflexivity; try congruence.
  apply IH. congruence.
Qed.

Lemma swap_perm x i j : Permutation (Minibatch.swap x i j) x.
Proof.
  unfold Minibatch.swap.
  destruct (nth_error x i) as [xi|] eqn:Hi; [|reflexivity].
  destruct (nth_error x j) as [xj|] eqn:Hj; [|reflexivity].
  apply Permutation_cons_inv with (a := xi).
  assert (Hi' : nth_error (Minibatch.upd j xi x) i = Some xi).
  { destruct (Nat.eq_dec i j) as [->|Hne].
    - apply nth_error_upd_same. apply nth_error_Some. congruence.
    - rewrite nth_error_upd_other by assumption. exact Hi. }
  rewrite (@upd_removes i xj xi _ Hi').
  rewrite (@upd_removes j xi xj _ Hj).
  reflexivity.
Qed.

Lemma shuffle_from_perm i g x :
  Permutation (fst (Minibatch.shuffle_from i g x)) x.
Proof.
  revert g x; induction i as [|i IH]; intros g x; simpl.
  - reflexivity.
  - destruct (Minibatch.random_interval g (Datatypes.S i)) as [j g'].
    rewrite IH. apply swap_perm.
Qed.

Lemma shuffle_perm g x : Permutation (fst (Minibatch.shuffle g x)) x.
Proof. apply shuffle_from_perm. Qed.

End ShuffleFacts.

(** The bounded draw stays within its bound. *)
Lemma random_interval_le g max :
  (fst (Minibatch.random_interval g max) <= max)%nat.
Proof.
  destruct g as [|w g]; simpl; [lia|].
  pose proof (Nat.mod_upper_bound w (Datatypes.S max)). lia.
Qed.

(** ** Cutting a list into consecutive chunks *)

Lemma range_len_exact (k b : Z) :
  0 < b -> 0 <= k -> Minibatch.range_len 0 (k * b) b = k.
Proof.
  intros Hb Hk. unfold Minibatch.range_len.
  destruct (Z.ltb_spec 0 b); [|lia].
  destruct (Z.ltb_spec 0 (k * b)) as [Hpos|Hz].
  - assert (1 <= k) by nia.
    assert ((k * b - 0 - 1) / b = k - 1); [|lia].
    symmetry. apply Z.div_unique with (r := b - 1); lia.
  - nia.
Qed.

Lemma py_range_exact (k b : Z) :
  0 < b -> 0 <= k ->
  Minibatch.py_range 0 (k * b) b
  = Ok (map (fun i => Z.of_nat i * b) (seq 0 (Z.to_nat k))).
Proof.
  intros Hb Hk. unfold Minibatch.py_range.
  destruct (Z.eqb_spec b 0); [lia|].
  rewrite range_len_exact by assumption. reflexivity.
Qed.

Lemma slice_in_bounds {A : Type} (x : list A) (s e : Z) :
  0 <= s -> s <= e -> e <= Z.of_nat (List.length x) ->
  Minibatch.slice x s e = firstn (Z.to_nat (e - s)) (skipn (Z.to_nat s) x).
Proof.
  intros Hs Hse He. unfold Minibatch.slice, Minibatch.clamp_index.
  destruct (Z.ltb_spec s 0); [lia|].
  destruct (Z.ltb_spec e 0); [lia|].
  rewrite !Z.min_l by lia. reflexivity.
Qed.

Lemma chunks_concat {A : Type} (k b : nat) (l : list A) :
  List.length l = (k * b)%nat ->
  List.concat (map (fun i => firstn b (skipn (i * b) l)) (seq 0 k)) = l.
Proof.
  revert l; induction k as [|k IH]; intros l Hl.
  - destruct l; [reflexivity|discriminate].
  - cbn [seq map List.concat]. rewrite <- seq_shift, map_map.
    cbn [Nat.mul skipn].
    rewrite (map_ext (fun i => firstn b (skipn (Datatypes.S i * b) l))
                     (fun i => firstn b (skipn (i * b) (skipn b l)))).
    + rewrite IH; [apply firstn_skipn|].
      rewrite length_skipn. lia.
    + intros i. rewrite skipn_skipn. f_equal. f_equal. lia.
Qed.

Lemma chunks_length {A : Type} (k b : nat) (l : list A) :
  List.length l = (k * b)%nat ->
  Forall (fun c => List.length c = b)
         (map (fun i => firstn b (skipn (i * b) l)) (seq 0 k)).
Proof.
  intros Hl. apply Forall_forall. intros c Hc.
  apply in_map_iff in Hc. destruct Hc as [i [<- Hi]].
  apply in_seq in Hi.
  rewrite length_firstn, length_skipn. nia.
Qed.

(** One epoch: with [nbatch = k * b] indices, [b > 0], the slices are [k]
    chunks of [b] indices each, and laid end to end they are [inds]. *)
Lemma epoch_slices_exact (k b : Z) (inds : list nat) :
  0 < b -> 0 <= k -> Z.of_nat (List.length inds) = k * b ->
  exists mbs,
    Minibatch.epoch_slices (k * b) b inds = Ok mbs /\
    List.concat mbs = inds /\
    List.length mbs = Z.to_nat k /\
    Forall (fun mb => List.length mb = Z.to_nat b) mbs.
Proof.
  intros Hb Hk Hl. unfold Minibatch.epoch_slices.
  rewrite py_range_exact by assumption. cbn [rbind].
  eexists. split; [reflexivity|].
  rewrite map_map.
  assert (Hn : List.length inds = (Z.to_nat k * Z.to_nat b)%nat) by nia.
  rewrite (map_ext_in _ (fun i => firstn (Z.to_nat b)
                                    (skipn (i * Z.to_nat b) inds))).
  - split; [apply chunks_concat; exact Hn|].
    split; [rewrite length_map, length_seq; reflexivity|].
    apply chunks_length; exact Hn.
  - intros i Hi. apply in_seq in Hi.
    rewrite slice_in_bounds by nia.
    f_equal; [f_equal; lia|f_equal; nia].
Qed.

(** ** C1: the non-recurrent epochs *)

Lemma NoDup_app_disjoint {A : Type} (l1 l2 : list A) (a : A) :
  NoDup (l1 ++ l2) -> In a l1 -> ~ In a l2.
Proof.
  induction l1 as [|h t IH]; simpl; intros Hnd Hin; [contradiction|].
  apply NoDup_cons_iff in Hnd. destruct Hnd as [Hh Ht].
  destruct Hin as [->|Hin].
  - intro H2. apply Hh. apply in_or_app. now right.
  - now apply IH.
Qed.

Lemma NoDup_concat_each {A : Type} (ls : list (list A)) :
  NoDup (List.concat ls) -> Forall (@NoDup A) ls.
Proof.
  induction ls as [|h t IH]; simpl; intros H; constructor.
  - eapply NoDup_app_remove_r; eassumption.
  - apply IH. eapply NoDup_app_remove_l; eassumption.
Qed.

Lemma NoDup_concat_one_home {A : Type} (ls : list (list A)) (i : A)
  (a a' : nat) (l l' : list A) :
  NoDup (List.concat ls) ->
  nth_error ls a = Some l -> In i l ->
  nth_error ls a' = Some l' -> In i l' ->
  a = a'.
Proof.
  revert a a'; induction ls as [|h t IH]; intros a a' Hnd Ha Hi Ha' Hi'.
  - destruct a; discriminate.
  - simpl in Hnd.
    assert (Hout : forall n m, nth_error t n = Some m -> In i m -> ~ In i h).
    { intros n m Hn Hm Hh. apply (NoDup_app_disjoint _ _ _ Hnd Hh).
      apply in_concat. exists m. split; [|assumption].
      eapply nth_error_In; eassumption. }
    destruct a as [|a], a' as [|a']; simpl in Ha, Ha'.
    + reflexivity.
    + injection Ha as <-. exfalso. eapply Hout; eassumption.
    + injection Ha' as <-. exfalso. eapply Hout; eassumption.
    + f_equal. apply IH; try assumption.
      eapply NoDup_app_remove_l; eassumption.
Qed.

(** A list of chunks that is, end to end, a permutation of [[0, n)] is an
    exact partition of it. *)
Lemma exact_partition_intro (n k b : nat) (mbs : list (list nat)) :
  Permutation (List.concat mbs) (seq 0 n) ->
  List.length mbs = k ->
  Forall (fun mb => List.length mb = b) mbs ->
  exact_partition n k b mbs.
Proof.
  intros Hp Hk Hb.
  assert (Hnd : NoDup (List.concat mbs)).
  { eapply Permutation_NoDup; [symmetry; exact Hp|apply seq_NoDup]. }
  repeat split; try assumption.
  - intros i Hi.
    assert (Hin : In i (List.concat mbs)).
    { eapply Permutation_in; [symmetry; exact Hp|]. apply in_seq. lia. }
    apply in_concat in Hin. destruct Hin as [mb [Hmb Himb]].
    apply In_nth_error in Hmb. destruct Hmb as [a Ha].
    exists a. split.
    + exists mb. split; assumption.
    + intros a' [mb' [Ha' Hi']].
      eapply NoDup_concat_one_home; eassumption.
  - apply NoDup_concat_each. exact Hnd.
Qed.

Lemma nonrecurrent_epochs_partition (n : nat) (k b : Z) (g : Minibatch.bitgen)
  (inds : list nat) :
  0 < b -> 0 <= k ->
  Permutation inds (seq 0 (Z.to_nat (k * b))) ->
  let ph := Minibatch.nonrecurrent_epochs n (k * b) b g inds in
  Minibatch.failure ph = None /\
  List.length (Minibatch.epochs ph) = n /\
  Forall (exact_partition (Z.to_nat (k * b)) (Z.to_nat k) (Z.to_nat b))
         (Minibatch.epochs ph).
Proof.
  intros Hb Hk. revert g inds.
  induction n as [|n IH]; intros g inds Hp; cbn zeta.
  - simpl. repeat split. constructor.
  - cbn [Minibatch.nonrecurrent_epochs].
    pose proof (shuffle_perm g inds) as Hs.
    destruct (Minibatch.shuffle g inds) as [inds' g'] eqn:E.
    cbn [fst] in Hs.
    assert (Hp' : Permutation inds' (seq 0 (Z.to_nat (k * b)))).
    { rewrite Hs. exact Hp. }
    assert (Hl : Z.of_nat (List.length inds') = k * b).
    { rewrite (Permutation_length Hp'), length_seq. nia. }
    destruct (epoch_slices_exact inds' Hb Hk Hl) as [mbs [He [Hc [Hn Hf]]]].
    rewrite He.
    specialize (IH g' inds' Hp'). cbn zeta in IH.
    destruct IH as [IH1 [IH2 IH3]].
    cbn [Minibatch.failure Minibatch.epochs List.length].
    repeat split; [assumption|congruence|].
    constructor; [|assumption].
    apply exact_partition_intro; [rewrite Hc; exact Hp'|assumption|assumption].
Qed.

(** C1: in the non-recurrent branch, for a batch of [nbatch > 0] indices
    split into [nminibatches > 0] minibatches with
    [nbatch % nminibatches == 0], whatever the random draws, no epoch
    raises, there are [noptepochs] epochs, and the minibatches of each
    epoch are an exact partition of [[0, nbatch)] into [nminibatches]
    arrays of [nbatch // nminibatches] indices. *)
Theorem nonrecurrent_partition (noptepochs nbatch nminibatches : Z)
  (g : Minibatch.bitgen) :
  0 < nbatch -> 0 < nminibatches -> nbatch mod nminibatches = 0 ->
  let ph :=
    Minibatch.nonrecurrent noptepochs nbatch (nbatch / nminibatches) g in
  Minibatch.failure ph = None /\
  List.length (Minibatch.epochs ph) = Z.to_nat noptepochs /\
  Forall (exact_partition (Z.to_nat nbatch) (Z.to_nat nminibatches)
            (Z.to_nat (nbatch / nminibatches)))
         (Minibatch.epochs ph).
Proof.
  intros Hn Hm Hdiv.
  assert (Heq : nbatch = nminibatches * (nbatch / nminibatches)).
  { apply Z.div_exact; lia. }
  set (b := nbatch / nminibatches) in *.
  assert (Hb : 0 < b) by nia.
  unfold Minibatch.nonrecurrent, Minibatch.arange.
  clearbody b. subst nbatch.
  apply nonrecurrent_epochs_partition; try lia.
  reflexivity.
Qed.

Lemma nonrecurrent_partition_witness :
  0 < 8 /\ 0 < 2 /\ 8 mod 2 = 0 /\
  let ph := Minibatch.nonrecurrent 2 8 (8 / 2) [3; 1; 4; 1; 5; 9; 2; 6]%nat in
  Minibatch.failure ph = None /\
  List.length (Minibatch.epochs ph) = Z.to_nat 2 /\
  Forall (exact_partition (Z.to_nat 8) (Z.to_nat 2) (Z.to_nat (8 / 2)))
         (Minibatch.epochs ph).
Proof.
  split; [lia|]. split; [lia|]. split; [reflexivity|].
  apply (@nonrecurrent_partition 2 8 2 [3; 1; 4; 1; 5; 9; 2; 6]%nat);
    [lia | lia | reflexivity].
Defined.

(** ** C4: the recurrent epochs *)

Lemma firstn_seq_app (s c n : nat) :
  firstn c (seq s (c + n)) = seq s c.
Proof.
  rewrite seq_app, firstn_app, length_seq, Nat.sub_diag, firstn_O, app_nil_r.
  apply firstn_all2. rewrite length_seq. lia.
Qed.

Lemma reshape_arange_row (r c s e : nat) :
  (e < r)%nat ->
  nth_error (Minibatch.reshape r c (seq s (r * c))) e = Some (seq (s + e * c) c).
Proof.
  revert s e; induction r as [|r IH]; intros s e He; [lia|].
  cbn [Minibatch.reshape Nat.mul].
  destruct e as [|e]; cbn [nth_error].
  - rewrite firstn_seq_app. do 2 f_equal. lia.
  - rewrite skipn_seq.
    replace (c + r * c - c)%nat with (r * c)%nat by lia.
    rewrite IH by lia. do 2 f_equal. simpl. lia.
Qed.

Lemma fancy_index_total {A : Type} (a : list A) (idx : list nat) :
  Forall (fun i => (i < List.length a)%nat) idx ->
  exists vs,
    Minibatch.fancy_index a idx = Ok vs /\
    Forall2 (fun i v => nth_error a i = Some v) idx vs.
Proof.
  unfold Minibatch.fancy_index.
  induction 1 as [|i idx Hi _ [vs [Hvs Hf]]]; simpl.
  - exists []. split; [reflexivity|constructor].
  - destruct (nth_error a i) as [v|] eqn:E.
    + rewrite Hvs. simpl. exists (v :: vs). split; [reflexivity|].
      constructor; assumption.
    + apply nth_error_None in E. lia.
Qed.

Lemma Forall2_nth_error_map {A : Type} (a : list A) (f : nat -> A)
  (idx : list nat) (vs : list A) :
  Forall2 (fun i v => nth_error a i = Some v) idx vs ->
  Forall (fun i => nth_error a i = Some (f i)) idx ->
  vs = map f idx.
Proof.
  induction 1 as [|i v idx vs Hiv _ IH]; intros Hf; [reflexivity|].
  apply Forall_cons_iff in Hf. destruct Hf as [Hi Hf].
  simpl. f_equal; [congruence|auto].
Qed.

Lemma until_raise_total {A B : Type} (f : A -> result B) (P : B -> Prop)
  (xs : list A) :
  Forall (fun x => exists y, f x = Ok y /\ P y) xs ->
  exists ys,
    Minibatch.until_raise f xs = (ys, None) /\
    Forall2 (fun x y => f x = Ok y) xs ys /\ Forall P ys.
Proof.
  induction 1 as [|x xs [y [Hy Py]] _ [ys [Hys [Hf Hp]]]]; simpl.
  - exists []. repeat split; constructor.
  - rewrite Hy, Hys. exists (y :: ys).
    repeat split; constructor; assumption.
Qed.

Lemma In_slice {A : Type} (x : list A) (s e : Z) (a : A) :
  In a (Minibatch.slice x s e) -> In a x.
Proof.
  unfold Minibatch.slice. intros H.
  set (n := Z.to_nat (Minibatch.clamp_index e (Z.of_nat (List.length x))
                      - Minibatch.clamp_index s (Z.of_nat (List.length x)))) in *.
  set (m := Z.to_nat (Minibatch.clamp_index s (Z.of_nat (List.length x)))) in *.
  rewrite <- (firstn_skipn m x). apply in_or_app. right.
  rewrite <- (firstn_skipn n (skipn m x)). apply in_or_app. left. exact H.
Qed.

(** A minibatch drawn from environment indices below [nenvs], with one
    state row per environment, is made of whole sequences. *)
Lemma recurrent_minibatch_whole {S : Type} (nenvs nsteps : nat)
  (states : list S) (envinds : list nat) (start b : Z) :
  List.length states = nenvs ->
  Forall (fun e => (e < nenvs)%nat) envinds ->
  exists mb,
    Minibatch.recurrent_minibatch
      (Minibatch.reshape nenvs nsteps (Minibatch.arange (nenvs * nsteps)))
      states envinds start b = Ok mb /\
    Minibatch.mbenvinds mb = Minibatch.slice envinds start (start + b) /\
    whole_sequences nsteps states mb.
Proof.
  intros Hst Hlt. unfold Minibatch.recurrent_minibatch.
  set (mbenv := Minibatch.slice envinds start (start + b)).
  set (flat := Minibatch.reshape nenvs nsteps (Minibatch.arange (nenvs * nsteps))).
  assert (Hmb : Forall (fun e => (e < nenvs)%nat) mbenv).
  { apply Forall_forall. intros e He. apply In_slice in He.
    rewrite Forall_forall in Hlt. auto. }
  assert (Hrow : Forall (fun e => nth_error flat e = Some (window nsteps e)) mbenv).
  { eapply Forall_impl; [|exact Hmb]. intros e He. unfold flat, Minibatch.arange.
    rewrite reshape_arange_row by exact He. reflexivity. }
  destruct (@fancy_index_total _ flat mbenv) as [rows [Hrows Hr2]].
  { eapply Forall_impl; [|exact Hrow]. intros e He.
    apply nth_error_Some. congruence. }
  destruct (@fancy_index_total _ states mbenv) as [sts [Hsts Hs2]].
  { rewrite Hst. exact Hmb. }
  rewrite Hrows, Hsts. cbn [rbind]. eexists. split; [reflexivity|].
  split; [reflexivity|]. split; cbn; [|exact Hs2].
  rewrite (@Forall2_nth_error_map _ flat (window nsteps) mbenv rows Hr2 Hrow).
  unfold Minibatch.ravel. symmetry. apply flat_map_concat_map.
Qed.

Lemma Forall2_map_eq {A B C : Type} (g : B -> C) (h : A -> C)
  (xs : list A) (ys : list B) :
  Forall2 (fun x y => g y = h x) xs ys -> map g ys = map h xs.
Proof.
  induction 1; simpl; congruence.
Qed.

Lemma recurrent_epoch_exact {S : Type} (nenvs nsteps : nat) (k b : Z)
  (states : list S) (envinds : list nat) :
  0 < b -> 0 <= k -> Z.of_nat nenvs = k * b ->
  List.length states = nenvs ->
  Permutation envinds (seq 0 nenvs) ->
  exists mbs,
    Minibatch.recurrent_epoch nenvs b
      (Minibatch.reshape nenvs nsteps (Minibatch.arange (nenvs * nsteps)))
      states envinds = (mbs, None) /\
    exact_partition nenvs (Z.to_nat k) (Z.to_nat b)
      (map (@Minibatch.mbenvinds S) mbs) /\
    Forall (whole_sequences nsteps states) mbs.
Proof.
  intros Hb Hk Hn Hst Hp.
  assert (Hlt : Forall (fun e => (e < nenvs)%nat) envinds).
  { apply Forall_forall. intros e He.
    apply (Permutation_in _ Hp) in He. apply in_seq in He. lia. }
  assert (Hl : Z.of_nat (List.length envinds) = k * b).
  { rewrite (Permutation_length Hp), length_seq. exact Hn. }
  destruct (epoch_slices_exact envinds Hb Hk Hl) as [chunks [He [Hc [Hk' Hf]]]].
  unfold Minibatch.epoch_slices in He.
  unfold Minibatch.recurrent_epoch. rewrite Hn.
  rewrite py_range_exact in He |- * by assumption.
  cbn [rbind] in He. injection He as He.
  set (starts := map (fun i => Z.of_nat i * b) (seq 0 (Z.to_nat k))) in *.
  set (flat := Minibatch.reshape nenvs nsteps (Minibatch.arange (nenvs * nsteps))).
  set (f := fun start =>
              Minibatch.recurrent_minibatch flat states envinds start b).
  destruct (@until_raise_total _ _ f
              (fun mb => whole_sequences nsteps states mb) starts)
    as [mbs [Hu [Hf2 Hw]]].
  { apply Forall_forall. intros start _.
    destruct (@recurrent_minibatch_whole S nenvs nsteps states envinds start b Hst Hlt)
      as [mb [Hmb [_ Hwh]]].
    exists mb. split; assumption. }
  exists mbs. split; [exact Hu|]. split; [|exact Hw].
  assert (Hmap : map (@Minibatch.mbenvinds S) mbs = chunks).
  { rewrite <- He. apply Forall2_map_eq.
    eapply Forall2_impl; [|exact Hf2].
    intros start mb Hfm. cbv beta in Hfm.
    destruct (@recurrent_minibatch_whole S nenvs nsteps states envinds start b Hst Hlt)
      as [mb' [Hmb' [Henv _]]].
    unfold f in Hfm. fold flat in Hmb'. congruence. }
  rewrite Hmap.
  apply exact_partition_intro; try assumption.
  rewrite Hc. exact Hp.
Qed.

Lemma recurrent_epochs_exact {S : Type} (n nenvs nsteps : nat) (k b : Z)
  (states : list S) (g : Minibatch.bitgen) (envinds : list nat) :
  0 < b -> 0 <= k -> Z.of_nat nenvs = k * b ->
  List.length states = nenvs ->
  Permutation envinds (seq 0 nenvs) ->
  let ph :=
    Minibatch.recurrent_epochs n nenvs b
      (Minibatch.reshape nenvs nsteps (Minibatch.arange (nenvs * nsteps)))
      states g envinds in
  Minibatch.failure ph = None /\
  List.length (Minibatch.epochs ph) = n /\
  Forall (fun mbs =>
            exact_partition nenvs (Z.to_nat k) (Z.to_nat b)
              (map (@Minibatch.mbenvinds S) mbs) /\
            Forall (whole_sequences nsteps states) mbs)
         (Minibatch.epochs ph).
Proof.
  intros Hb Hk Hn Hst. revert g envinds.
  induction n as [|n IH]; intros g envinds Hp; cbn zeta.
  - simpl. repeat split. constructor.
  - cbn [Minibatch.recurrent_epochs].
    pose proof (shuffle_perm g envinds) as Hs.
    destruct (Minibatch.shuffle g envinds) as [envinds' g'].
    cbn [fst] in Hs.
    assert (Hp' : Permutation envinds' (seq 0 nenvs)) by (rewrite Hs; exact Hp).
    destruct (@recurrent_epoch_exact S nenvs nsteps k b states envinds' Hb Hk Hn Hst Hp')
      as [mbs [He [Hpart Hw]]].
    rewrite He.
    specialize (IH g' envinds' Hp'). cbn zeta in IH.
    destruct IH as [IH1 [IH2 IH3]].
    cbn [Minibatch.failure Minibatch.epochs List.length].
    repeat split; [assumption|congruence|].
    constructor; [split; assumption|assumption].
Qed.

(** C4: in the recurrent branch, with [nenvs % nminibatches == 0] (for
    [nenvs > 0] environments, [nminibatches > 0], one state row per
    environment), whatever the random draws, no epoch raises; what is
    shuffled and cut is the environment indices [[0, nenvs)], each epoch
    splitting them exactly into [nminibatches] groups of
    [nenvs // nminibatches]; and every minibatch is made of whole
    sequences: its flat indices are, environment by environment, the
    [nsteps] consecutive indices of that environment, and its state rows
    are those of exactly its environments. *)
Theorem recurrent_whole_sequences {S : Type} (noptepochs : Z)
  (nenvs nsteps : nat) (nminibatches : Z) (states : list S)
  (g : Minibatch.bitgen) :
  (0 < nenvs)%nat -> 0 < nminibatches ->
  Z.of_nat nenvs mod nminibatches = 0 ->
  List.length states = nenvs ->
  let ph := Minibatch.recurrent noptepochs nenvs nsteps nminibatches states g in
  Minibatch.failure ph = None /\
  List.length (Minibatch.epochs ph) = Z.to_nat noptepochs /\
  Forall (fun mbs =>
            exact_partition nenvs (Z.to_nat nminibatches)
              (Z.to_nat (Z.of_nat nenvs / nminibatches))
              (map (@Minibatch.mbenvinds S) mbs) /\
            Forall (whole_sequences nsteps states) mbs)
         (Minibatch.epochs ph).
Proof.
  intros Hn Hm Hdiv Hst.
  assert (Heq : Z.of_nat nenvs = nminibatches * (Z.of_nat nenvs / nminibatches)).
  { apply Z.div_exact; lia. }
  unfold Minibatch.recurrent.
  destruct (Z.eqb_spec nminibatches 0); [lia|].
  rewrite Hdiv. cbn [Z.eqb negb].
  apply recurrent_epochs_exact; try assumption; try nia.
  reflexivity.
Qed.

Lemma recurrent_whole_sequences_witness :
  (0 < 4)%nat /\ 0 < 2 /\ Z.of_nat 4 mod 2 = 0 /\
  List.length [10; 11; 12; 13]%nat = 4%nat /\
  let ph :=
    Minibatch.recurrent 2 4 3 2 [10; 11; 12; 13]%nat [3; 1; 4; 1; 5; 9]%nat in
  Minibatch.failure ph = None /\
  List.length (Minibatch.epochs ph) = Z.to_nat 2 /\
  Forall (fun mbs =>
            exact_partition 4 (Z.to_nat 2) (Z.to_nat (Z.of_nat 4 / 2))
              (map (@Minibatch.mbenvinds nat) mbs) /\
            Forall (whole_sequences 3 [10; 11; 12; 13]%nat) mbs)
         (Minibatch.epochs ph).
Proof.
  split; [lia|]. split; [lia|]. split; [reflexivity|]. split; [reflexivity|].
  apply (@recurrent_whole_sequences nat 2 4 3 2 [10; 11; 12; 13]%nat
           [3; 1; 4; 1; 5; 9]%nat); [lia | lia | reflexivity | reflexivity].
Defined.

(** ** Order facts on scalars *)

Lemma leb_Fin (p q : Q) : Num.leb (Fin p) (Fin q) = true <-> (p <= q)%Q.
Proof.
  unfold Num.leb, Num.compare. rewrite Qle_alt.
  destruct (p ?= q)%Q; split; intros H; try reflexivity; try discriminate.
  exfalso. now apply H.
Qed.

Lemma gtb_Fin (p q : Q) : Num.gtb (Fin p) (Fin q) = true <-> (q < p)%Q.
Proof.
  unfold Num.gtb, Num.compare. rewrite (Qgt_alt p q).
  destruct (p ?= q)%Q; split; intros H; try reflexivity; discriminate.
Qed.

Lemma eqb_Fin (p q : Q) : Num.eqb (Fin p) (Fin q) = true <-> (p == q)%Q.
Proof.
  unfold Num.eqb, Num.compare. rewrite Qeq_alt.
  destruct (p ?= q)%Q; split; intros H; try reflexivity; discriminate.
Qed.

Lemma in_unit_Fin (q : Q) : in_unit (Fin q) <-> (0 <= q <= 1)%Q.
Proof.
  unfold in_unit, Num.le, zero, one, of_Z.
  rewrite !leb_Fin. reflexivity.
Qed.

Lemma in_unit_finite (a : num) :
  in_unit a -> exists q, a = Fin q /\ (0 <= q <= 1)%Q.
Proof.
  intros H. destruct a as [| | |q]; try (destruct H as [H1 H2]; discriminate).
  exists q. split; [reflexivity|]. now apply in_unit_Fin.
Qed.

Lemma py_max_zero_Fin (v : Q) :
  exists w, py_max (Fin v) zero = Fin w /\ (0 <= w)%Q /\ ((v <= 1)%Q -> (w <= 1)%Q).
Proof.
  unfold py_max, zero, of_Z.
  destruct (Num.gtb (Fin (inject_Z 0)) (Fin v)) eqn:E.
  - exists (inject_Z 0). split; [reflexivity|]. split; intros; unfold inject_Z; lra.
  - exists v. split; [reflexivity|]. split; [|auto].
    destruct (Qlt_le_dec v 0) as [Hlt|Hle]; [|exact Hle].
    apply gtb_Fin in Hlt. unfold inject_Z in E. 
    change (0%Q) with (0 # 1) in Hlt. congruence.
Qed.

(** ** C3: the schedules *)

Lemma py_div_Fin (p d : Q) :
  ~ (d == 0)%Q -> py_div (Fin p) (Fin d) = Ok (Fin (Qred (p / d))).
Proof.
  intros Hd. unfold py_div.
  destruct (Num.eqb (Fin d) zero) eqn:E.
  - apply eqb_Fin in E. contradiction.
  - unfold Num.div. destruct (Qeq_bool d 0) eqn:F; [|reflexivity].
    apply Qeq_bool_eq in F. contradiction.
Qed.

Lemma ramp_Fin (t h x : Q) :
  ~ (h - t == 0)%Q ->
  exists v,
    Curriculum.ramp (Fin t) (Fin h) (Fin x) = Ok (Fin v) /\
    (v == 1 - (x - t) / (h - t))%Q.
Proof.
  intros Hd. unfold Curriculum.ramp.
  cbn [Num.sub Num.neg Num.add Num.mul one of_Z].
  rewrite py_div_Fin.
  - cbn [rbind Num.add]. eexists. split; [reflexivity|].
    rewrite !Qred_correct. unfold inject_Z. field. exact Hd.
  - rewrite !Qred_correct. exact Hd.
Qed.

(** The tail shared by the two piecewise-linear schedules: the clipped
    ramp is in [[0, 1]] once the timestep has reached the threshold. *)
Lemma clipped_ramp_unit (t h x : Q) :
  (t < h)%Q -> (t <= x)%Q ->
  exists v,
    rbind (Curriculum.ramp (Fin t) (Fin h) (Fin x))
          (fun v => Ok (py_max v zero)) = Ok v /\
    in_unit v.
Proof.
  intros Hth Htx.
  destruct (@ramp_Fin t h x) as [v [Hv Hq]]; [lra|].
  rewrite Hv. cbn [rbind].
  destruct (py_max_zero_Fin v) as [w [Hw [H0 H1]]].
  exists (Fin w). split; [congruence|].
  apply in_unit_Fin. split; [exact H0|]. apply H1.
  rewrite Hq.
  assert (0 <= (x - t) / (h - t))%Q; [|lra].
  apply Qle_shift_div_l; lra.
Qed.

Lemma reward_shaping_unit (h x : Q) :
  (0 < h)%Q -> (0 <= x)%Q ->
  exists v,
    Curriculum.reward_shaping_fn (Fin h) (Fin x) = Ok v /\ in_unit v.
Proof.
  intros Hh Hx. unfold Curriculum.reward_shaping_fn, Curriculum.annealing_fn.
  change (Num.neb zero zero) with false. cbn [rbind].
  apply (@clipped_ramp_unit 0 h x); assumption.
Qed.



(** When [np.exp] overflows, the sigmoid schedule is [nan]. *)
Lemma sigmoid_overflow (np_exp : num -> num) (target x : num) :
  Num.eqb target zero = false ->
  np_exp ((one / target * of_Z 10) * (x - target / of_Z 2))%num = PInf ->
  Curriculum.sigmoid_fn np_exp target x = Ok NaN.
Proof.
  intros Ht He. unfold Curriculum.sigmoid_fn, py_div.
  rewrite Ht. change (Num.eqb (of_Z 2) zero) with false.
  cbn [rbind]. rewrite He. reflexivity.
Qed.

(** With a reward target of 1 and a reward of 100 the exponent is 995, far
    beyond the overflow threshold of binary64 [exp]: the ratio is [nan]. *)
Example sigmoid_overflow_example :
  Curriculum.sigmoid_fn coarse_exp (of_Z 1) (of_Z 100) = Ok NaN.
Proof. reflexivity. Qed.




(** ** Reasoning about traces *)

Lemma count_app (f : event -> bool) (l l' : list event) :
  count f (l ++ l') = (count f l + count f l')%nat.
Proof. unfold count. rewrite filter_app, length_app. reflexivity. Qed.

Lemma follows_refl (E : event -> Prop) (s : state) : follows E s s.
Proof.
  exists []. rewrite app_nil_r. repeat split; [constructor|].
  intros _. simpl. unfold count. simpl. lia.
Qed.

Lemma follows_trans (E : event -> Prop) (s1 s2 s3 : state) :
  follows E s1 s2 -> follows E s2 s3 -> follows E s1 s3.
Proof.
  intros [e1 [H1 [F1 M1]]] [e2 [H2 [F2 M2]]].
  exists (e1 ++ e2). split; [rewrite H2, H1, app_assoc; reflexivity|].
  split; [apply Forall_app; split; assumption|].
  intros Hn. apply Forall_app in Hn. destruct Hn as [N1 N2].
  rewrite (M2 N2), (M1 N1), count_app. lia.
Qed.

Lemma follows_weaken (E E' : event -> Prop) (s s' : state) :
  (forall e, E e -> E' e) -> follows E s s' -> follows E' s s'.
Proof.
  intros H [evs [Ht [Hf Hm]]]. exists evs. repeat split; try assumption.
  eapply Forall_impl; eassumption.
Qed.

Section StepRules.

Variable E : event -> Prop.

Lemma steps_ret {A : Type} (a : A) : steps E (ret a).
Proof. intros s. apply follows_refl. Qed.

Lemma steps_raise {A : Type} (e : exn) : steps E (@raise A e).
Proof. intros s. apply follows_refl. Qed.

Lemma steps_get : steps E get.
Proof. intros s. apply follows_refl. Qed.

Lemma steps_lift {A : Type} (r : result A) : steps E (lift r).
Proof. intros s. apply follows_refl. Qed.

Lemma steps_bind {A B : Type} (c : M A) (k : A -> M B) :
  steps E c -> (forall a, steps E (k a)) -> steps E (bind c k).
Proof.
  intros Hc Hk s. unfold bind. specialize (Hc s).
  destruct (c s) as [[a|e] s1]; cbn [snd] in *.
  - eapply follows_trans; [exact Hc|apply Hk].
  - exact Hc.
Qed.

(** An update of variables other than the model and the trace. *)
Lemma steps_modify (f : state -> state) :
  (forall s, trace (f s) = trace s) -> (forall s, model (f s) = model s) ->
  steps E (modify f).
Proof.
  intros Ht Hm s. exists []. cbn [modify snd].
  rewrite Ht, app_nil_r. repeat split; [constructor|].
  intros _. rewrite Hm. unfold count. simpl. lia.
Qed.

Lemma steps_emit (e : event) :
  E e -> is_train e = false -> steps E (emit e).
Proof.
  intros He Hnt s. exists [e]. cbn. repeat split.
  - constructor; [exact He|constructor].
  - intros _. unfold count. simpl. rewrite Hnt. simpl. lia.
Qed.

Lemma steps_when (b : bool) (c : M unit) :
  (b = true -> steps E c) -> steps E (when b c).
Proof.
  intros H. unfold when. destruct b; [auto|apply steps_ret].
Qed.

Lemma steps_assert (b : bool) : steps E (assert b).
Proof. unfold assert. destruct b; [apply steps_ret|apply steps_raise]. Qed.

Lemma steps_model_init : E EvModelInit -> steps E model_init.
Proof.
  intros He s. exists [EvModelInit]. cbn. repeat split.
  - constructor; [exact He|constructor].
  - intros Hn. inversion Hn as [|? ? Hf]. destruct Hf.
Qed.

Lemma steps_save (c : ckpt) : (forall w, E (EvSave c w)) -> steps E (save c).
Proof.
  intros He. unfold save.
  apply steps_bind; [apply steps_get|intros s0].
  apply steps_bind; [apply steps_modify; reflexivity|intros _].
  apply steps_emit; [apply He|reflexivity].
Qed.

Lemma steps_load (c : ckpt) : E (EvLoad c) -> steps E (load c).
Proof.
  intros He s. unfold load, bind, emit, modify, get. cbn.
  destruct (read_ckpt (files s) c) as [w|]; cbn;
    exists [EvLoad c]; (repeat split;
      [constructor; [exact He|constructor]
      |intros Hn; inversion Hn as [|? ? Hf]; destruct Hf]).
Qed.

Lemma steps_train (update : Z) (inds : list nat) :
  E (EvTrain update inds) -> steps E (train update inds).
Proof.
  intros He s. exists [EvTrain update inds]. cbn. repeat split.
  - constructor; [exact He|constructor].
  - intros _. unfold count. simpl. lia.
Qed.

Lemma steps_train_all (update : Z) (mbs : list (list nat)) :
  (forall inds, E (EvTrain update inds)) -> steps E (train_all update mbs).
Proof.
  intros He. induction mbs as [|inds rest IH]; cbn [train_all].
  - apply steps_ret.
  - apply steps_bind; [apply steps_train; apply He|intros _; exact IH].
Qed.

End StepRules.

Lemma steps_weaken {A : Type} (E E' : event -> Prop) (c : M A) :
  (forall e, E e -> E' e) -> steps E c -> steps E' c.
Proof. intros H Hc s. eapply follows_weaken; [exact H|apply Hc]. Qed.

(** One step of a proof that a block only emits events of [E]: split a
    sequence, close a primitive, or branch on the scrutinee. *)
Ltac steps_step :=
  lazymatch goal with
  | |- steps _ (bind _ _) => apply steps_bind; [|intros ?]
  | |- steps _ (ret _) => apply steps_ret
  | |- steps _ (raise _) => apply steps_raise
  | |- steps _ get => apply steps_get
  | |- steps _ (lift _) => apply steps_lift
  | |- steps _ (assert _) => apply steps_assert
  | |- steps _ (modify _) => apply steps_modify; reflexivity
  | |- steps _ (emit _) => apply steps_emit; [|reflexivity]
  | |- steps _ (save _) => apply steps_save; intros ?
  | |- steps _ (load _) => apply steps_load
  | |- steps _ model_init => apply steps_model_init
  | |- steps _ (train_all _ _) => apply steps_train_all; intros ?
  | |- steps _ (when _ _) => apply steps_when; intros ?
  | |- steps _ (if ?b then _ else _) => destruct b eqn:?
  | |- steps _ (match ?x with _ => _ end) => destruct x eqn:?
  end.

Ltac steps_auto := repeat steps_step.

Lemma steps_bind_returns {A B : Type} (E : event -> Prop) (P : A -> Prop)
  (c : M A) (k : A -> M B) :
  steps E c -> returns c P -> (forall a, P a -> steps E (k a)) ->
  steps E (bind c k).
Proof.
  intros Hc Hr Hk s. unfold bind. specialize (Hc s).
  destruct (c s) as [[a|e] s1] eqn:Ec; cbn [snd] in *.
  - eapply follows_trans; [exact Hc|]. apply Hk. eapply Hr; exact Ec.
  - exact Hc.
Qed.

Lemma returns_ret {A : Type} (P : A -> Prop) (a : A) : P a -> returns (ret a) P.
Proof. intros H s a' s' E. injection E as <- _. exact H. Qed.

Lemma returns_bind {A B : Type} (P : B -> Prop) (c : M A) (k : A -> M B) :
  (forall a, returns (k a) P) -> returns (bind c k) P.
Proof.
  intros H s b s' E. unfold bind in E.
  destruct (c s) as [[a|e] s1]; [|discriminate].
  eapply H; exact E.
Qed.

Lemma returns_lift {A : Type} (P : A -> Prop) (r : result A) :
  (forall a, r = Ok a -> P a) -> returns (lift r) P.
Proof. intros H s a s' E. injection E as E _. auto. Qed.

(** ** The blocks of an iteration, one by one *)

Section Blocks.

Variable S : Type.
Variable np_exp : num -> num.
Variable cfg : config.
Variable W : world S.
Variable E : event -> Prop.

(** With no episode in the rollout both means are [nan], so is their
    quotient, the test [rew_per_step > best_rew_per_step] is false, and
    the block changes nothing. *)
Lemma early_stopping_block_no_episode (s : state) :
  early_stopping_block cfg [] s = (Ok tt, s).
Proof. reflexivity. Qed.

Lemma steps_early_stopping_block (epinfos : list epinfo) :
  (early_stopping cfg = true -> epinfos <> [] ->
   forall w, E (EvSave TempBest w)) ->
  steps E (early_stopping_block cfg epinfos).
Proof.
  intros He. destruct epinfos as [|ep eps].
  - intros s. rewrite early_stopping_block_no_episode. apply follows_refl.
  - unfold early_stopping_block. steps_auto.
    apply He; [|discriminate].
    match goal with H : _ && _ = true |- _ => apply andb_prop in H; apply H end.
Qed.

Lemma steps_optimise (update : Z) (states : option (list S)) :
  (forall inds, E (EvTrain update inds)) ->
  steps E (optimise cfg update states).
Proof.
  intros He. unfold optimise. steps_auto; apply He.
Qed.

Lemma steps_log_due (update : Z) : steps E (log_due cfg update).
Proof. unfold log_due. steps_auto. Qed.

Lemma returns_log_due (update : Z) :
  returns (log_due cfg update)
          (fun due => due = true -> log_interval_hit cfg update).
Proof.
  intros s due s' Hr Hdue. subst due.
  unfold log_due, py_mod, bind, lift, ret in Hr.
  destruct (Z.eqb_spec (log_interval cfg) 0) as [Hz|Hz]; [discriminate|].
  injection Hr as Hr _. split; [exact Hz|].
  apply orb_prop in Hr. destruct Hr as [Hr|Hr];
    apply Z.eqb_eq in Hr; [left|right]; exact Hr.
Qed.

Lemma steps_best_train_block (ep_sparse_rew_mean : num) :
  (forall w, E (EvSave BestTrain w)) ->
  steps E (best_train_block cfg ep_sparse_rew_mean).
Proof.
  intros He. unfold best_train_block. steps_auto. apply He.
Qed.

Lemma steps_model_selection (update : Z) (val_rew : num) :
  (forall w, E (EvSave BestVal w)) -> E (EvBreak update) ->
  steps E (model_selection cfg update val_rew).
Proof.
  intros Hs Hb. unfold model_selection. steps_auto; auto.
Qed.

Lemma follows_emit (s : state) (e : event) :
  E e -> is_train e = false ->
  follows E s (set_trace (trace s ++ [e]) s).
Proof. intros He Hn. apply (@steps_emit E e He Hn s). Qed.

Lemma steps_validation_block (update : Z) :
  (forall sp, validation_guard cfg update sp -> E (EvValidation update sp)) ->
  (forall w, E (EvSave BestVal w)) -> E (EvBreak update) ->
  steps E (validation_block cfg W update).
Proof.
  intros Hv Hs Hb s. unfold validation_block, validation_due.
  destruct (ppo_run cfg) eqn:Hppo; cbn [andb];
    [|cbv [bind ret snd]; apply follows_refl].
  destruct (str_in "best_validation" (PPO_TO_SAVE cfg)) eqn:Hin;
    [|cbv [bind ret snd]; apply follows_refl].
  unfold py_mod. cbv [bind lift get ret emit modify].
  destruct (Z.eqb_spec (VAL_FREQ cfg) 0) as [Hz|Hz]; [apply follows_refl|].
  destruct (Z.eqb_spec (update mod VAL_FREQ cfg) 0) as [Hm|Hm]; cbn [andb];
    [|apply follows_refl].
  destruct (sp_horizon_nonzero (SELF_PLAY_HORIZON cfg)) eqn:Hh; cbn [andb];
    [|apply follows_refl].
  destruct (self_play_randomization s =? zero)%num eqn:Hsp;
    [|apply follows_refl].
  eapply follows_trans; [|apply steps_model_selection; assumption].
  apply follows_emit; [|reflexivity].
  apply Hv. repeat split; assumption.
Qed.

Lemma steps_reward_shaping_block (update : Z) :
  (forall v, E (EvRewardShaping v)) -> steps E (reward_shaping_block cfg update).
Proof. intros He. unfold reward_shaping_block. steps_auto. apply He. Qed.

Lemma steps_set_self_play (v : num) : E (EvSelfPlay v) -> steps E (set_self_play v).
Proof. intros He. unfold set_self_play. steps_auto. exact He. Qed.

Lemma steps_self_play_block (update : Z) (ep_sparse_rew_mean : num) :
  (forall v, E (EvSelfPlay v)) ->
  steps E (self_play_block np_exp cfg update ep_sparse_rew_mean).
Proof.
  intros He. unfold self_play_block. steps_auto;
    apply steps_set_self_play; apply He.
Qed.

Lemma steps_logging_block (update : Z) (ncalls : nat) :
  (forall sp, validation_guard cfg update sp -> E (EvValidation update sp)) ->
  (forall c w, c = BestTrain \/ c = BestVal -> E (EvSave c w)) ->
  E (EvBreak update) ->
  (forall v, E (EvRewardShaping v)) -> (forall v, E (EvSelfPlay v)) ->
  steps E (logging_block np_exp cfg W update ncalls).
Proof.
  intros Hv Hs Hb Hr Hp. unfold logging_block. steps_auto.
  - apply steps_best_train_block. intros w. apply Hs. now left.
  - apply steps_validation_block; try assumption.
    intros w. apply Hs. now right.
  - apply steps_reward_shaping_block. exact Hr.
  - apply steps_self_play_block. exact Hp.
Qed.

Lemma steps_logging (update : Z) (ncalls : nat) :
  (forall sp, log_interval_hit cfg update -> validation_guard cfg update sp ->
              E (EvValidation update sp)) ->
  (forall c w, c = BestTrain \/ c = BestVal -> E (EvSave c w)) ->
  E (EvBreak update) ->
  (forall v, E (EvRewardShaping v)) -> (forall v, E (EvSelfPlay v)) ->
  steps E (logging np_exp cfg W update ncalls).
Proof.
  intros Hv Hs Hb Hr Hp. unfold logging.
  eapply steps_bind_returns;
    [apply steps_log_due|apply returns_log_due|].
  intros due Hdue. destruct due; [|apply steps_ret].
  apply steps_logging_block; auto.
Qed.

Lemma steps_periodic_save (update : Z) :
  (forall w, E (EvSave (Periodic update) w)) ->
  steps E (periodic_save cfg update).
Proof. intros He. unfold periodic_save. steps_auto. apply He. Qed.

Lemma steps_visualize (update : Z) :
  E (EvVisualize update) -> steps E (visualize cfg update).
Proof. intros He. unfold visualize. steps_auto. exact He. Qed.

End Blocks.

(** An iteration, after its banner, emits only the events of
    [update_event]. *)
Lemma steps_update_rest (S : Type) (np_exp : num -> num) (cfg : config)
  (W : world S) (update : Z) :
  steps (update_event cfg W update) (update_rest np_exp cfg W update).
Proof.
  unfold update_rest. steps_auto; try reflexivity.
  - apply steps_early_stopping_block. intros He Hne w. split; assumption.
  - apply steps_optimise. reflexivity.
  - apply steps_logging; try (intros; exact I); try reflexivity.
    + intros sp Hl Hg. split; [reflexivity|split; assumption].
    + intros c w [->| ->]; exact I.
  - apply steps_periodic_save. reflexivity.
  - apply steps_visualize. reflexivity.
Qed.

(** ** Where the loop can break *)

Section Breaks.

Variable S : Type.
Variable np_exp : num -> num.
Variable cfg : config.
Variable W : world S.

Lemma breaks_at_ret_continue (update : Z) : breaks_at cfg update (ret Continue).
Proof. intros s. exists []. cbn. rewrite app_nil_r. split; constructor. Qed.

Lemma breaks_at_bind {A : Type} (update : Z) (c : M A) (k : A -> M ctrl) :
  steps not_break c -> (forall a, breaks_at cfg update (k a)) ->
  breaks_at cfg update (bind c k).
Proof.
  intros Hc Hk s. unfold bind.
  destruct (Hc s) as [evs [Ht [Hf _]]].
  destruct (c s) as [[a|e] s1]; cbn [fst snd] in *.
  - specialize (Hk a s1).
    destruct (k a s1) as [[[|]|e] s2]; cbn [fst snd] in *.
    + destruct Hk as [evs2 [Ht2 Hf2]]. exists (evs ++ evs2).
      rewrite Ht2, Ht, app_assoc. split; [reflexivity|].
      apply Forall_app. split; assumption.
    + destruct Hk as [pre [Ht2 [Hf2 Hc2]]]. exists (evs ++ pre).
      rewrite Ht2, Ht, !app_assoc. split; [reflexivity|].
      split; [apply Forall_app; split; assumption|exact Hc2].
    + destruct Hk as [evs2 [Ht2 Hf2]]. exists (evs ++ evs2).
      rewrite Ht2, Ht, app_assoc. split; [reflexivity|].
      apply Forall_app. split; assumption.
  - exists evs. split; assumption.
Qed.

(** [c = block; if c is Break: break; else: k]. *)
Lemma breaks_at_match (update : Z) (c k : M ctrl) :
  breaks_at cfg update c -> steps not_break k ->
  returns k (fun x => x = Continue) ->
  breaks_at cfg update
    (bind c (fun x => match x with Break => ret Break | Continue => k end)).
Proof.
  intros Hc Hk Hr s. unfold bind. specialize (Hc s).
  destruct (c s) as [[[|]|e] s1]; cbn [fst snd] in *.
  - destruct Hc as [evs [Ht Hf]].
    destruct (Hk s1) as [evs2 [Ht2 [Hf2 _]]].
    assert (Hx : forall x s2, k s1 = (Ok x, s2) -> x = Continue).
    { intros x s2 Hx. eapply Hr; exact Hx. }
    destruct (k s1) as [[x|e] s2]; cbn [fst snd] in *.
    + rewrite (Hx x s2 eq_refl). exists (evs ++ evs2).
      rewrite Ht2, Ht, app_assoc. split; [reflexivity|].
      apply Forall_app. split; assumption.
    + exists (evs ++ evs2).
      rewrite Ht2, Ht, app_assoc. split; [reflexivity|].
      apply Forall_app. split; assumption.
  - exact Hc.
  - exact Hc.
Qed.

(** Lines 322-324: [if count_val_stagnation >= ..: break]. *)
Lemma breaks_at_stagnation_test (update : Z) :
  breaks_at cfg update
    (s' <- get ;;
     if count_val_stagnation s' >=? STOPPING_STAGNANT_UPDATES cfg
     then emit (EvBreak update) ;; ret Break
     else ret Continue).
Proof.
  intros s. cbv [bind get].
  destruct (Z.geb_spec (count_val_stagnation s) (STOPPING_STAGNANT_UPDATES cfg))
    as [Hge|Hlt]; cbn.
  - exists []. repeat split; [constructor|lia].
  - exists []. rewrite app_nil_r. split; constructor.
Qed.

Lemma breaks_at_model_selection (update : Z) (val_rew : num) :
  breaks_at cfg update (model_selection cfg update val_rew).
Proof.
  unfold model_selection.
  apply breaks_at_bind; [apply steps_get|intros s0].
  apply breaks_at_bind.
  { steps_auto. reflexivity. }
  intros _.
  destruct (val_rew >? signif_factor * signif_best_val_rew s0)%num.
  - apply breaks_at_bind; [steps_auto|intros _].
    apply breaks_at_bind; [steps_auto|intros _].
    apply breaks_at_ret_continue.
  - apply breaks_at_bind; [steps_auto|intros _].
    apply breaks_at_stagnation_test.
Qed.

Lemma steps_validation_due (E : event -> Prop) (update : Z) :
  steps E (validation_due cfg update).
Proof. unfold validation_due. steps_auto. Qed.

Lemma breaks_at_validation_block (update : Z) :
  breaks_at cfg update (validation_block cfg W update).
Proof.
  unfold validation_block.
  apply breaks_at_bind; [apply steps_validation_due|intros due].
  destruct due; [|apply breaks_at_ret_continue].
  apply breaks_at_bind; [apply steps_get|intros s0].
  apply breaks_at_bind; [steps_auto; reflexivity|intros _].
  apply breaks_at_model_selection.
Qed.

Lemma breaks_at_logging_block (update : Z) (ncalls : nat) :
  breaks_at cfg update (logging_block np_exp cfg W update ncalls).
Proof.
  unfold logging_block.
  apply breaks_at_bind; [apply steps_get|intros s0].
  apply breaks_at_bind; [steps_auto|intros _].
  apply breaks_at_bind.
  { apply steps_best_train_block. reflexivity. }
  intros _.
  apply breaks_at_match.
  - apply breaks_at_validation_block.
  - steps_auto.
    + apply steps_reward_shaping_block. reflexivity.
    + apply steps_self_play_block. reflexivity.
  - apply returns_bind. intros _. apply returns_ret. reflexivity.
Qed.

Lemma breaks_at_logging (update : Z) (ncalls : nat) :
  breaks_at cfg update (logging np_exp cfg W update ncalls).
Proof.
  unfold logging.
  apply breaks_at_bind; [apply steps_log_due|intros due].
  destruct due; [apply breaks_at_logging_block|apply breaks_at_ret_continue].
Qed.

Lemma breaks_at_update_rest (update : Z) :
  breaks_at cfg update (update_rest np_exp cfg W update).
Proof.
  unfold update_rest.
  apply breaks_at_bind; [steps_auto|intros _].
  apply breaks_at_bind; [steps_auto; reflexivity|intros _].
  apply breaks_at_bind; [steps_auto; reflexivity|intros _].
  apply breaks_at_bind.
  { apply steps_early_stopping_block. reflexivity. }
  intros _.
  apply breaks_at_bind; [steps_auto|intros _].
  apply breaks_at_bind; [apply steps_optimise; reflexivity|intros ncalls].
  apply breaks_at_match.
  - apply breaks_at_logging.
  - steps_auto.
    + apply steps_periodic_save. reflexivity.
    + apply steps_visualize. reflexivity.
  - apply returns_bind. intros _. apply returns_bind. intros _.
    apply returns_ret. reflexivity.
Qed.

End Breaks.

(** ** Whole iterations and the whole loop *)

Section Run.

Variable S : Type.
Variable np_exp : num -> num.
Variable cfg : config.
Variable W : world S.

Lemma update_event_no_reload (update : Z) (e : event) :
  update_event cfg W update e -> no_reload e.
Proof. destruct e; simpl; auto. Qed.

Lemma update_event_not_update (update : Z) (e : event) :
  update_event cfg W update e -> is_update e = false.
Proof. destruct e; simpl; auto; contradiction. Qed.

Lemma update_event_run_event (update : Z) (e : event) :
  update_event cfg W update e -> run_event cfg W e.
Proof. destruct e; simpl; auto; intros H; exists update; exact H. Qed.

(** One iteration: it prints its banner, then emits events of
    [update_event]; the model moves by its [model.train] calls; and it
    returns [Break] exactly when it ends on its break event, with the
    stagnation counter at its threshold. *)
Lemma update_body_spec (update : Z) (s : state) :
  exists evs,
    trace (snd (update_body np_exp cfg W update s))
    = trace s ++ EvUpdate update :: evs /\
    Forall (update_event cfg W update) evs /\
    model (snd (update_body np_exp cfg W update s))
    = (model s + count is_train evs)%nat /\
    match fst (update_body np_exp cfg W update s) with
    | Ok Break =>
        (exists pre, evs = pre ++ [EvBreak update] /\ Forall not_break pre) /\
        STOPPING_STAGNANT_UPDATES cfg
        <= count_val_stagnation (snd (update_body np_exp cfg W update s))
    | _ => Forall not_break evs
    end.
Proof.
  unfold update_body. cbv [bind emit modify].
  set (s1 := set_trace (trace s ++ [EvUpdate update]) s).
  destruct (steps_update_rest np_exp cfg W update s1) as [evs [Ht [Hf Hm]]].
  pose proof (breaks_at_update_rest np_exp cfg W update s1) as Hb.
  destruct (update_rest np_exp cfg W update s1) as [r s2].
  cbn [fst snd] in *. exists evs.
  assert (Ht1 : trace s1 = trace s ++ [EvUpdate update]) by reflexivity.
  split; [rewrite Ht, Ht1, <- app_assoc; reflexivity|].
  split; [exact Hf|].
  split.
  { rewrite Hm; [reflexivity|].
    eapply Forall_impl; [|exact Hf]. apply update_event_no_reload. }
  destruct r as [[|]|e].
  - destruct Hb as [evs' [Ht' Hf']].
    rewrite Ht in Ht'. apply app_inv_head in Ht'. subst evs'. exact Hf'.
  - destruct Hb as [pre [Ht' [Hf' Hc]]].
    rewrite Ht in Ht'. apply app_inv_head in Ht'. subst evs.
    split; [exists pre; split; [reflexivity|exact Hf']|exact Hc].
  - destruct Hb as [evs' [Ht' Hf']].
    rewrite Ht in Ht'. apply app_inv_head in Ht'. subst evs'. exact Hf'.
Qed.

Lemma count_cons (f : event -> bool) (e : event) (l : list event) :
  count f (e :: l) = ((if f e then 1 else 0) + count f l)%nat.
Proof. unfold count. simpl. destruct (f e); reflexivity. Qed.

Lemma count_none (f : event -> bool) (l : list event) :
  Forall (fun e => f e = false) l -> count f l = O.
Proof.
  induction 1 as [|e l He _ IH]; [reflexivity|].
  rewrite count_cons, He, IH. reflexivity.
Qed.

(** The loop over a list of update numbers.  Either no iteration broke,
    and then a normal exit means every iteration ran; or the loop ended
    on the break of one of its iterations. *)
Lemma run_updates_spec (updates : list Z) (s : state) :
  exists evs,
    trace (snd (run_updates np_exp cfg W updates s)) = trace s ++ evs /\
    Forall (run_event cfg W) evs /\
    model (snd (run_updates np_exp cfg W updates s))
    = (model s + count is_train evs)%nat /\
    ((Forall not_break evs /\
      (count is_update evs <= List.length updates)%nat /\
      (fst (run_updates np_exp cfg W updates s) = Ok tt ->
       count is_update evs = List.length updates))
     \/
     (exists update pre,
        In update updates /\
        evs = pre ++ [EvBreak update] /\ Forall not_break pre /\
        fst (run_updates np_exp cfg W updates s) = Ok tt /\
        STOPPING_STAGNANT_UPDATES cfg
        <= count_val_stagnation (snd (run_updates np_exp cfg W updates s)))).
Proof.
  revert s. induction updates as [|update rest IH]; intros s.
  - exists []. cbn. rewrite app_nil_r.
    split; [reflexivity|]. split; [constructor|]. split; [lia|].
    left. split; [constructor|]. split; [lia|reflexivity].
  - cbn [run_updates]. unfold bind.
    destruct (update_body_spec update s) as [evs [Ht [Hf [Hm Hb]]]].
    destruct (update_body np_exp cfg W update s) as [r s1].
    cbn [fst snd] in *.
    assert (Hrun : Forall (run_event cfg W) (EvUpdate update :: evs)).
    { constructor; [exact I|].
      eapply Forall_impl; [|exact Hf]. apply update_event_run_event. }
    assert (Hup : count is_update (EvUpdate update :: evs) = 1%nat).
    { rewrite count_cons, count_none; [reflexivity|].
      eapply Forall_impl; [|exact Hf]. apply update_event_not_update. }
    assert (Htr : count is_train (EvUpdate update :: evs) = count is_train evs).
    { rewrite count_cons. reflexivity. }
    destruct r as [[|]|e].
    + (* the iteration fell through: the rest of the loop runs *)
      destruct (IH s1) as [evs' [Ht' [Hf' [Hm' Hcase]]]].
      destruct (run_updates np_exp cfg W rest s1) as [r2 s2].
      cbn [fst snd] in *.
      exists ((EvUpdate update :: evs) ++ evs').
      split; [rewrite Ht', Ht, <- app_assoc; reflexivity|].
      split; [apply Forall_app; split; assumption|].
      split; [rewrite Hm', Hm, count_app, Htr; lia|].
      destruct Hcase as [[Hnb [Hle Hok]]|[u [pre [Hin [He [Hnb [Hok Hc]]]]]]].
      * left. rewrite count_app, Hup. cbn [List.length].
        split; [|split; [lia|intros H; rewrite (Hok H); reflexivity]].
        apply Forall_app. split; [|exact Hnb].
        constructor; [reflexivity|exact Hb].
      * right. exists u, ((EvUpdate update :: evs) ++ pre).
        split; [now right|].
        split; [rewrite He, app_assoc; reflexivity|].
        split; [|split; assumption].
        apply Forall_app. split; [|exact Hnb].
        constructor; [reflexivity|exact Hb].
    + (* the iteration broke: the loop is over *)
      destruct Hb as [[pre [He Hnb]] Hc]. cbn [ret fst snd].
      exists (EvUpdate update :: evs).
      split; [exact Ht|]. split; [exact Hrun|]. split; [rewrite Htr; exact Hm|].
      right. exists update, (EvUpdate update :: pre).
      split; [now left|].
      split; [rewrite He; reflexivity|].
      split; [constructor; [reflexivity|exact Hnb]|].
      split; [reflexivity|exact Hc].
    + (* the iteration raised *)
      exists (EvUpdate update :: evs). cbn [fst snd].
      split; [exact Ht|]. split; [exact Hrun|]. split; [rewrite Htr; exact Hm|].
      left. split; [constructor; [reflexivity|exact Hb]|].
      split; [rewrite Hup; cbn; lia|discriminate].
Qed.

End Run.

(** ** [learn] as a whole *)

Section Learn.

Variable S : Type.
Variable np_exp : num -> num.
Variable cfg : config.
Variable W : world S.

(** Events of the set-up: none of them belongs to an iteration. *)
Lemma steps_setup :
  steps (fun e => run_event cfg W e /\ is_update e = false
                  /\ is_break e = false /\ is_train e = false
                  /\ (forall u sp, e <> EvValidation u sp))
        (setup cfg).
Proof.
  unfold setup. steps_auto; repeat split; try exact I; discriminate.
Qed.

Lemma returns_setup :
  returns (setup cfg)
          (fun n => nbatch cfg <> 0 /\ n = total_timesteps cfg / nbatch cfg).
Proof.
  unfold setup. repeat (apply returns_bind; intros ?).
  apply returns_lift. unfold py_floordiv. intros n Hn.
  destruct (Z.eqb_spec (nbatch cfg) 0); [discriminate|].
  injection Hn as <-. split; [assumption|reflexivity].
Qed.


(** The reload after the loop, case by case. *)
Lemma finish_spec (n : Z) (s : state) :
  finish cfg n s =
  if (0 <? n) && early_stopping cfg then
    let s' := set_trace (trace s ++ [EvLoad TempBest]) s in
    match read_ckpt (files s) TempBest with
    | Some w => (Ok w, set_model w s')
    | None => (Raise FileNotFoundError, s')
    end
  else (Ok (model s), s).
Proof.
  unfold finish. destruct ((0 <? n) && early_stopping cfg); [|reflexivity].
  cbv [when bind load emit modify get ret]. cbn.
  destruct (read_ckpt (files s) TempBest); reflexivity.
Qed.

Lemma learn_unfold (s0 : state) :
  learn np_exp cfg W s0 =
  match setup cfg s0 with
  | (Ok n, s1) =>
      match run_updates np_exp cfg W (update_range n) s1 with
      | (Ok _, s2) => finish cfg n s2
      | (Raise e, s2) => (Raise e, s2)
      end
  | (Raise e, s1) => (Raise e, s1)
  end.
Proof. reflexivity. Qed.

Lemma steps_run_updates (updates : list Z) :
  steps (run_event cfg W) (run_updates np_exp cfg W updates).
Proof.
  intros s. destruct (run_updates_spec np_exp cfg W updates s)
    as [evs [Ht [Hf [Hm _]]]].
  exists evs. repeat split; auto.
Qed.

Lemma steps_learn : steps (run_event cfg W) (learn np_exp cfg W).
Proof.
  unfold learn. apply steps_bind.
  { eapply steps_weaken; [|apply steps_setup]. intros e H. apply H. }
  intros n. apply steps_bind; [apply steps_run_updates|intros _].
  unfold finish. steps_auto. exact I.
Qed.

Lemma length_update_range (n : Z) : List.length (update_range n) = Z.to_nat n.
Proof. unfold update_range. rewrite length_map, length_seq. reflexivity. Qed.

Lemma In_update_range (n u : Z) : In u (update_range n) -> 1 <= u <= n.
Proof.
  unfold update_range. intros H. apply in_map_iff in H.
  destruct H as [k [<- Hk]]. apply in_seq in Hk. lia.
Qed.

(** The trace of a run that got past the set-up: the events of the
    set-up, those of the loop, those of the reload. *)
Lemma learn_trace (r : result weights) (s : state) :
  run_learn np_exp cfg W = (r, s) ->
  (exists e, r = Raise e /\
     Forall (fun ev => is_update ev = false /\ is_break ev = false) (trace s))
  \/
  exists n s1 s2 evs0 evsL,
    setup cfg (init_state W) = (Ok n, s1) /\
    n = total_timesteps cfg / nbatch cfg /\
    trace s1 = evs0 /\
    Forall (fun ev => is_update ev = false /\ is_break ev = false
                      /\ is_train ev = false) evs0 /\
    s2 = snd (run_updates np_exp cfg W (update_range n) s1) /\
    trace s2 = evs0 ++ evsL /\
    model s2 = (model s1 + count is_train evsL)%nat /\
    ((Forall not_break evsL /\
      (fst (run_updates np_exp cfg W (update_range n) s1) = Ok tt ->
       count is_update evsL = Z.to_nat n) /\
      (r, s) = match fst (run_updates np_exp cfg W (update_range n) s1) with
               | Ok _ => finish cfg n s2
               | Raise e => (Raise e, s2)
               end)
     \/
     (exists update pre,
        1 <= update <= n /\
        evsL = pre ++ [EvBreak update] /\ Forall not_break pre /\
        STOPPING_STAGNANT_UPDATES cfg <= count_val_stagnation s2 /\
        (r, s) = finish cfg n s2)).
Proof.
  unfold run_learn. rewrite learn_unfold. intros Hrun.
  destruct (steps_setup (init_state W)) as [evs0 [Ht0 [Hf0 _]]].
  pose proof (@returns_setup (init_state W)) as Hn.
  destruct (setup cfg (init_state W)) as [[n|e] s1]; cbn [snd] in *.
  - right. specialize (Hn n s1 eq_refl). destruct Hn as [_ Hn].
    destruct (run_updates_spec np_exp cfg W (update_range n) s1)
      as [evsL [HtL [HfL [HmL Hcase]]]].
    exists n, s1, (snd (run_updates np_exp cfg W (update_range n) s1)),
      evs0, evsL.
    split; [reflexivity|]. split; [exact Hn|].
    split; [rewrite Ht0; reflexivity|].
    split; [eapply Forall_impl; [|exact Hf0]; cbv beta; tauto|].
    split; [reflexivity|].
    split; [rewrite HtL, Ht0; reflexivity|].
    split; [exact HmL|].
    destruct (run_updates np_exp cfg W (update_range n) s1) as [r2 s2].
    cbn [fst snd] in *.
    destruct Hcase as [[Hnb [_ Hok]]|[u [pre [Hin [He [Hnb [Hok Hc]]]]]]].
    + left. split; [exact Hnb|]. rewrite length_update_range in Hok.
      split; [exact Hok|]. destruct r2; symmetry; exact Hrun.
    + right. exists u, pre. split; [apply In_update_range; exact Hin|].
      split; [exact He|]. split; [exact Hnb|]. split; [exact Hc|].
      rewrite Hok in Hrun. symmetry. exact Hrun.
  - left. injection Hrun as <- <-. exists e. split; [reflexivity|].
    rewrite Ht0. cbn [init_state trace app].
    eapply Forall_impl; [|exact Hf0]. cbv beta. tauto.
Qed.

End Learn.

(** ** C6: when the validation games are played *)




(** ** C7: how many iterations run *)

Lemma finish_frame (cfg : config) (n : Z) (s : state) :
  trace (snd (finish cfg n s))
  = trace s ++ (if (0 <? n) && early_stopping cfg
                then [EvLoad TempBest] else []) /\
  count_val_stagnation (snd (finish cfg n s)) = count_val_stagnation s /\
  files (snd (finish cfg n s)) = files s.
Proof.
  rewrite finish_spec.
  destruct ((0 <? n) && early_stopping cfg).
  - cbv zeta. destruct (read_ckpt (files s) TempBest); cbn; auto.
  - cbn. rewrite app_nil_r. auto.
Qed.

Lemma Forall_is_false_count (f : event -> bool) (P : event -> Prop)
  (l : list event) :
  (forall e, P e -> f e = false) -> Forall P l -> count f l = O.
Proof.
  intros H Hf. apply count_none. eapply Forall_impl; [|exact Hf]. exact H.
Qed.

(** C7: a run that returns normally without any [break] has printed the
    banner of exactly [total_timesteps // (nenvs * nsteps)] iterations
    (none when that quotient is negative); with [nenvs = 2], [nsteps = 4]
    and [total_timesteps = 8], exactly one. *)
Theorem update_count (S : Type) (np_exp : num -> num) (cfg : config)
  (W : world S) (w : weights) (s : state) :
  run_learn np_exp cfg W = (Ok w, s) ->
  Forall not_break (trace s) ->
  count is_update (trace s)
  = Z.to_nat (total_timesteps cfg / Z.of_nat (num_envs cfg * nsteps cfg)) /\
  (num_envs cfg = 2%nat -> nsteps cfg = 4%nat -> total_timesteps cfg = 8 ->
   count is_update (trace s) = 1%nat).
Proof.
  intros Hrun Hnb.
  assert (Hcount : count is_update (trace s)
                   = Z.to_nat (total_timesteps cfg
                               / Z.of_nat (num_envs cfg * nsteps cfg))).
  { destruct (@learn_trace S np_exp cfg W _ _ Hrun)
      as [[e [He _]]|[n [s1 [s2 [evs0 [evsL
           [Hs [Hn [Ht0 [Hf0 [Hs2 [Ht2 [Hm Hcase]]]]]]]]]]]]];
      [discriminate|].
    destruct (finish_frame cfg n s2) as [Htf _].
    destruct Hcase as [[_ [Hok Hfin]]|[u [pre [_ [He [_ [_ Hfin]]]]]]].
    - destruct (fst (run_updates np_exp cfg W (update_range n) s1))
        as [[]|e]; [|discriminate].
      assert (Hs' : s = snd (finish cfg n s2)) by (rewrite <- Hfin; reflexivity).
      rewrite Hs', Htf, Ht2, !count_app, (Hok eq_refl).
      rewrite (@Forall_is_false_count is_update _ evs0
                 (fun e H => proj1 H) Hf0).
      replace (count is_update _) with O
        by (destruct ((0 <? n) && early_stopping cfg); reflexivity).
      rewrite Hn. unfold nbatch, nenvs. lia.
    - exfalso.
      assert (Hs' : s = snd (finish cfg n s2)) by (rewrite <- Hfin; reflexivity).
      rewrite Hs', Htf, Ht2, He in Hnb.
      rewrite !Forall_app in Hnb.
      destruct Hnb as [[_ [_ Hb]] _]. inversion Hb as [|? ? Hx _].
      discriminate Hx. }
  split; [exact Hcount|].
  intros He Hs' Ht. rewrite Hcount, He, Hs', Ht. reflexivity.
Qed.

Lemma update_count_witness :
  run_learn coarse_exp scenario_cfg (scenario_world stagnant_val)
  = (Ok 2%nat,
     snd (run_learn coarse_exp scenario_cfg (scenario_world stagnant_val))) /\
  Forall not_break
    (trace (snd (run_learn coarse_exp scenario_cfg
                   (scenario_world stagnant_val)))) /\
  count is_update
    (trace (snd (run_learn coarse_exp scenario_cfg
                   (scenario_world stagnant_val))))
  = 1%nat.
Proof.
  assert (Hrun : run_learn coarse_exp scenario_cfg (scenario_world stagnant_val)
                 = (Ok 2%nat,
                    snd (run_learn coarse_exp scenario_cfg
                           (scenario_world stagnant_val))))
    by (vm_compute; reflexivity).
  assert (Hnb : Forall not_break
                  (trace (snd (run_learn coarse_exp scenario_cfg
                                 (scenario_world stagnant_val)))))
    by (vm_compute; repeat constructor).
  split; [exact Hrun|]. split; [exact Hnb|].
  apply (proj2 (@update_count unit coarse_exp scenario_cfg
                  (scenario_world stagnant_val) 2%nat _ Hrun Hnb));
    reflexivity.
Defined.

(** ** C10: an update whose rollout completes no episode *)

Lemma gtb_nan_l (b : num) : Num.gtb NaN b = false.
Proof. reflexivity. Qed.

(** C10: when the rollout of an update holds no episode, both per-update
    means are [nan] and so is their quotient, computed without raising;
    the test [rew_per_step > best_rew_per_step] is false whatever the best
    value; the early-stopping block returns normally and leaves every
    variable and file as it was; and the whole iteration writes no
    [.temp_best_model] checkpoint. *)
Theorem no_episode_update (S : Type) (np_exp : num -> num) (cfg : config)
  (W : world S) (u : Z) (s : state) :
  ro_epinfos (runner_run W u) = [] ->
  let epinfos := ro_epinfos (runner_run W u) in
  let eprewmean := safemean (map ep_r epinfos) in
  let eplenmean := safemean (map ep_length epinfos) in
  eprewmean = NaN /\ eplenmean = NaN /\
  (eprewmean / eplenmean)%num = NaN /\
  (forall best, ((eprewmean / eplenmean) >? best)%num = false) /\
  early_stopping_block cfg epinfos s = (Ok tt, s) /\
  exists evs,
    trace (snd (update_body np_exp cfg W u s)) = trace s ++ EvUpdate u :: evs /\
    Forall (fun e => forall w, e <> EvSave TempBest w) evs.
Proof.
  intros Hno. cbv zeta. rewrite Hno. cbn [map].
  change (safemean []) with NaN.
  split; [reflexivity|]. split; [reflexivity|]. split; [reflexivity|].
  split; [intros best; reflexivity|].
  split; [reflexivity|].
  destruct (update_body_spec np_exp cfg W u s) as [evs [Ht [Hf _]]].
  exists evs. split; [exact Ht|].
  eapply Forall_impl; [|exact Hf].
  intros e He w ->. destruct He as [_ Hne]. apply Hne. exact Hno.
Qed.

Lemma no_episode_update_witness :
  ro_epinfos (runner_run quiet_world 1) = [] /\
  exists evs,
    trace (snd (update_body coarse_exp scenario_cfg quiet_world 1
                  (init_state quiet_world)))
    = trace (init_state quiet_world) ++ EvUpdate 1 :: evs /\
    Forall (fun e => forall w, e <> EvSave TempBest w) evs.
Proof.
  split; [reflexivity|].
  apply (@no_episode_update unit coarse_exp scenario_cfg quiet_world 1
           (init_state quiet_world) eq_refl).
Defined.

(** ** C8: a batch that cannot be split evenly *)

Lemma update_range_first (n : Z) :
  1 <= n -> exists rest, update_range n = 1 :: rest.
Proof.
  intros Hn. unfold update_range.
  destruct (Z.to_nat n) as [|k] eqn:E; [lia|].
  exists (map Z.of_nat (seq 2 k)). reflexivity.
Qed.

(** C8, as amended: when [nbatch % nminibatches != 0] and at least one
    iteration is due, [learn] raises, and up to that point the run has
    collected no rollout, made no [model.train] call and written no file:
    it has only built the policy and the model, loaded [load_path] if
    given, constructed the runner (and the evaluation runner) around the
    environment, and printed the banner of the first iteration, whose
    assertion fails.  With [nminibatches = 0] the division at line 112
    raises first; a missing [load_path] file raises at the load. *)
Theorem indivisible_batch_aborts (S : Type) (np_exp : num -> num)
  (cfg : config) (W : world S) :
  nbatch cfg mod nminibatches cfg <> 0 -> 1 <= nupdates cfg ->
  let r := fst (run_learn np_exp cfg W) in
  let s := snd (run_learn np_exp cfg W) in
  Forall before_rollout (trace s) /\
  files s = disk0 W /\
  ((r = Raise ZeroDivisionError /\ nminibatches cfg = 0 /\
    trace s = [EvBuildPolicy])
   \/
   (r = Raise FileNotFoundError /\ has_load_path cfg = true /\
    read_ckpt (disk0 W) LoadPath = None /\
    trace s = [EvBuildPolicy; EvModelInit; EvLoad LoadPath])
   \/
   (r = Raise AssertionError /\
    trace s
    = [EvBuildPolicy; EvModelInit]
      ++ (if has_load_path cfg then [EvLoad LoadPath] else [])
      ++ [EvRunnerInit]
      ++ (if has_eval_env cfg then [EvEvalRunnerInit] else [])
      ++ [EvUpdate 1])).
Proof.
  intros Hdiv Hn. unfold nupdates in Hn.
  assert (Hb : nbatch cfg <> 0).
  { intros H0. rewrite H0 in Hdiv. apply Hdiv. apply Zmod_0_l. }
  destruct (update_range_first Hn) as [rest Hrest].
  assert (Hassert : (nbatch cfg mod nminibatches cfg =? 0) = false)
    by (apply Z.eqb_neq; exact Hdiv).
  assert (Hfirst : forall s0,
             run_updates np_exp cfg W (update_range (total_timesteps cfg
                                                     / nbatch cfg)) s0
             = (Raise AssertionError,
                set_trace (trace s0 ++ [EvUpdate 1]) s0)).
  { intros s0. rewrite Hrest. cbn [run_updates].
    unfold update_body, update_rest.
    cbv [bind emit modify assert raise ret]. rewrite Hassert. reflexivity. }
  cbv zeta. unfold run_learn. rewrite learn_unfold.
  unfold setup, py_floordiv.
  destruct (Z.eqb_spec (nminibatches cfg) 0) as [Hm|Hm].
  { cbn. split; [repeat constructor|]. split; [reflexivity|].
    left. auto. }
  destruct (Z.eqb_spec (nbatch cfg) 0) as [|_]; [contradiction|].
  destruct (has_load_path cfg) eqn:Hl; destruct (has_eval_env cfg) eqn:He;
    cbv [bind emit modify lift model_init when ret load get raise];
    cbn [files trace model set_trace set_model init_state fst snd app].
  all: try destruct (read_ckpt (disk0 W) LoadPath) as [w0|] eqn:Hr.
  all: cbv beta iota; try rewrite Hfirst; cbn.
  all: (split; [repeat constructor|]); (split; [reflexivity|]).
  all: try (right; right; split; reflexivity).
  all: right; left; auto.
Qed.

Lemma indivisible_batch_aborts_witness :
  nbatch indivisible_cfg mod nminibatches indivisible_cfg <> 0 /\
  1 <= nupdates indivisible_cfg /\
  Forall before_rollout
    (trace (snd (run_learn coarse_exp indivisible_cfg
                   (scenario_world stagnant_val)))).
Proof.
  split; [discriminate|]. split; [discriminate|].
  apply (@indivisible_batch_aborts unit coarse_exp indivisible_cfg
           (scenario_world stagnant_val));
    discriminate.
Defined.

(** C8 as stated fails: eight samples in three minibatches abort on the
    assertion of the first iteration, and by then [Runner(env=env, ..)]
    has been constructed around the environment: the trace goes beyond the
    construction of the model. *)
Lemma runner_built_before_abort :
  fst (run_learn coarse_exp indivisible_cfg (scenario_world stagnant_val))
  = Raise AssertionError /\
  trace (snd (run_learn coarse_exp indivisible_cfg
                (scenario_world stagnant_val)))
  = [EvBuildPolicy; EvModelInit; EvRunnerInit; EvUpdate 1] /\
  ~ Forall model_construction
      (trace (snd (run_learn coarse_exp indivisible_cfg
                     (scenario_world stagnant_val)))).
Proof.
  split; [reflexivity|]. split; [reflexivity|].
  intros H. apply Forall_forall with (x := EvRunnerInit) in H.
  - destruct H; discriminate.
  - right. right. left. reflexivity.
Qed.

(** ** C2: stopping on stagnation *)






(** ** C5: the tracked best values *)

Lemma gtb_le (a b : num) :
  Num.gtb a b = true -> Num.le b a /\ is_nan a = false.
Proof.
  unfold Num.gtb, Num.le, Num.leb.
  destruct a as [| | |p], b as [| | |q]; cbn; try discriminate; auto.
  rewrite <- (Qcompare_antisym p q).
  destruct (p ?= q)%Q; cbn; try discriminate; auto.
Qed.

Lemma le_refl (a : num) : is_nan a = false -> Num.le a a.
Proof.
  unfold Num.le, Num.leb. destruct a as [| | |p]; cbn;
    try discriminate; auto.
  intros _. rewrite (proj1 (Qeq_alt p p) (Qeq_refl p)). reflexivity.
Qed.

Lemma le_not_nan_l (a b : num) : Num.le a b -> is_nan b = false.
Proof.
  unfold Num.le, Num.leb. destruct a, b; cbn; try discriminate; auto.
Qed.

(** [best_val_rew] never decreases (line 304 guards line 310). *)
Lemma best_val_rew_monotone (cfg : config) (u : Z) (val_rew : num)
  (s : state) :
  is_nan (best_val_rew s) = false ->
  Num.le (best_val_rew s)
         (best_val_rew (snd (model_selection cfg u val_rew s))) /\
  is_nan (best_val_rew (snd (model_selection cfg u val_rew s))) = false.
Proof.
  intros Hn. unfold model_selection.
  cbv [bind get when save modify emit ret].
  destruct (val_rew >? best_val_rew s)%num eqn:Hg; cbn;
    repeat match goal with
           | |- context [if ?b then _ else _] => destruct b; cbn
           end;
    try (apply gtb_le; exact Hg);
    (split; [apply le_refl; exact Hn|exact Hn]).
Qed.

(** [best_train_rew] never decreases (line 273 guards line 284). *)
Lemma best_train_rew_monotone (cfg : config) (ep_sparse_rew_mean : num)
  (s : state) :
  is_nan (best_train_rew s) = false ->
  Num.le (best_train_rew s)
         (best_train_rew (snd (best_train_block cfg ep_sparse_rew_mean s))) /\
  is_nan (best_train_rew (snd (best_train_block cfg ep_sparse_rew_mean s)))
  = false.
Proof.
  intros Hn. unfold best_train_block.
  cbv [bind get when save modify emit ret].
  destruct (ppo_run cfg && str_in "best_train" (PPO_TO_SAVE cfg)); cbn;
    [|split; [apply le_refl; exact Hn|exact Hn]].
  destruct (ep_sparse_rew_mean >? best_train_rew s)%num eqn:Hg; cbn;
    [|split; [apply le_refl; exact Hn|exact Hn]].
  match goal with
  | |- context [if ?b then _ else _] => destruct b; cbn
  end; [split; [apply le_refl; exact Hn|exact Hn]|].
  unfold py_max.
  destruct (best_train_rew s >? ep_sparse_rew_mean)%num;
    [split; [apply le_refl; exact Hn|exact Hn]|].
  apply gtb_le. exact Hg.
Qed.

(** [signif_best_val_rew] does not decrease as long as it is not
    negative: the test [val_rew > 1.1 * signif_best_val_rew] of line 313
    then implies [val_rew > signif_best_val_rew]. *)
Lemma signif_best_val_rew_monotone_nonneg (cfg : config) (u : Z)
  (val_rew : num) (s : state) :
  Num.le zero (signif_best_val_rew s) ->
  Num.le (signif_best_val_rew s)
         (signif_best_val_rew (snd (model_selection cfg u val_rew s))).
Proof.
  intros H0.
  assert (Hn : is_nan (signif_best_val_rew s) = false)
    by (eapply le_not_nan_l; exact H0).
  unfold model_selection.
  cbv [bind get when save modify emit ret].
  assert (Hup : (val_rew >? signif_factor * signif_best_val_rew s)%num = true ->
                Num.le (signif_best_val_rew s) val_rew).
  { unfold signif_factor. intros Hg.
    destruct (signif_best_val_rew s) as [| | |q]; try discriminate.
    - destruct val_rew; discriminate.
    - apply leb_Fin in H0. cbn [Num.mul] in Hg.
      destruct val_rew as [| | |v]; try discriminate; [reflexivity|].
      apply gtb_Fin in Hg. rewrite Qred_correct in Hg.
      apply leb_Fin. unfold inject_Z in H0. lra. }
  destruct (val_rew >? best_val_rew s)%num;
    destruct (val_rew >? signif_factor * signif_best_val_rew s)%num; cbn;
    try (apply Hup; reflexivity);
    match goal with
    | |- context [if ?b then _ else _] => destruct b; cbn
    end; apply le_refl; exact Hn.
Qed.

(** C5 fails on the code for negative rewards.  With validation rewards
    -10 at update 1 and -10.5 at update 2, the second reward passes the
    test of line 313, [-10.5 > 1.1 * -10 = -11], and
    [signif_best_val_rew] drops from -10 to -10.5, with the stagnation
    counter reset to zero; [best_val_rew] stays at -10. *)
Theorem signif_best_val_rew_decreases :
  let W := scenario_world negative_val in
  let s1 := snd (update_body coarse_exp stagnation_cfg W 1 (init_state W)) in
  let s2 := snd (update_body coarse_exp stagnation_cfg W 2 s1) in
  signif_best_val_rew s1 = of_Z (-10) /\
  signif_best_val_rew s2 = Fin (-21 # 2) /\
  Num.ltb (signif_best_val_rew s2) (signif_best_val_rew s1) = true /\
  ~ Num.le (signif_best_val_rew s1) (signif_best_val_rew s2) /\
  count_val_stagnation s2 = 0 /\
  best_val_rew s2 = of_Z (-10).
Proof.
  vm_compute. repeat split; try reflexivity. discriminate.
Qed.

(* ===================================================================== *)
(** * Further properties of the code *)
(* ===================================================================== *)

(** ** The schedules, value by value *)

Lemma py_max_zero_value (v : Q) :
  exists w,
    py_max (Fin v) zero = Fin w /\
    ((0 <= v)%Q -> (w == v)%Q) /\ ((v <= 0)%Q -> (w == 0)%Q).
Proof.
  unfold py_max, zero, of_Z.
  destruct (Num.gtb (Fin (inject_Z 0)) (Fin v)) eqn:E.
  - apply gtb_Fin in E. exists (inject_Z 0). split; [reflexivity|].
    unfold inject_Z in *. split; intros; lra.
  - exists v. split; [reflexivity|]. split; [reflexivity|].
    intros Hv. destruct (Qlt_le_dec v 0) as [Hlt|Hle]; [|lra].
    apply gtb_Fin in Hlt. change 0%Q with (inject_Z 0) in Hlt. congruence.
Qed.

Lemma clipped_ramp_value (t h x : Q) :
  (t < h)%Q ->
  exists v,
    rbind (Curriculum.ramp (Fin t) (Fin h) (Fin x))
          (fun v => Ok (py_max v zero)) = Ok (Fin v) /\
    ((x <= h)%Q -> (v == 1 - (x - t) / (h - t))%Q) /\
    ((h <= x)%Q -> (v == 0)%Q).
Proof.
  intros Hth.
  destruct (@ramp_Fin t h x) as [r [Hr Hq]]; [lra|].
  rewrite Hr. cbn [rbind].
  destruct (py_max_zero_value r) as [w [Hw [Hpos Hneg]]].
  exists w. split; [congruence|].
  assert (Hd : ((x - t) / (h - t) * (h - t) == x - t)%Q) by (field; lra).
  set (d := ((x - t) / (h - t))%Q) in *.
  split; intros Hx.
  - rewrite <- Hq. apply Hpos. rewrite Hq.
    assert (d <= 1)%Q; [|lra].
    apply Qle_shift_div_r; lra.
  - apply Hneg. rewrite Hq.
    assert (1 <= d)%Q; [|lra].
    apply Qle_shift_div_l; lra.
Qed.

(** The reward-shaping schedule is the clipped ramp from threshold 0. *)
Lemma reward_shaping_clipped (h x : Q) :
  (0 < h)%Q ->
  exists v,
    Curriculum.reward_shaping_fn (Fin h) (Fin x) = Ok (Fin v) /\
    ((x <= h)%Q -> (v == 1 - (x - 0) / (h - 0))%Q) /\
    ((h <= x)%Q -> (v == 0)%Q).
Proof.
  intros Hh. unfold Curriculum.reward_shaping_fn, Curriculum.annealing_fn.
  change (Num.neb zero zero) with false. cbn [rbind].
  exact (@clipped_ramp_value 0 h x Hh).
Qed.

(** X1: the reward-shaping coefficient for a positive horizon is the line
    from 1 at timestep 0 to 0 at the horizon, and 0 from the horizon on;
    it never raises. *)
Theorem reward_shaping_piecewise (h x : Q) :
  (0 < h)%Q ->
  exists v,
    Curriculum.reward_shaping_fn (Fin h) (Fin x) = Ok (Fin v) /\
    ((x <= h)%Q -> (v == 1 - x / h)%Q) /\
    ((h <= x)%Q -> (v == 0)%Q).
Proof.
  intros Hh.
  destruct (@reward_shaping_clipped h x Hh) as [v [Hv [Hin Hout]]].
  exists v. split; [exact Hv|]. split; [|exact Hout].
  intros Hx. rewrite (Hin Hx). field. lra.
Qed.

Lemma reward_shaping_piecewise_witness :
  (0 < 100)%Q /\
  exists v,
    Curriculum.reward_shaping_fn (Fin 100) (Fin 40) = Ok (Fin v) /\
    ((40 <= 100)%Q -> (v == 1 - 40 / 100)%Q) /\
    ((100 <= 40)%Q -> (v == 0)%Q).
Proof.
  split; [reflexivity|].
  apply (@reward_shaping_piecewise 100 40). reflexivity.
Defined.

(** X2: for a positive horizon the reward-shaping coefficient never grows
    with the timestep. *)
Theorem reward_shaping_decreasing (h x y : Q) :
  (0 < h)%Q -> (x <= y)%Q ->
  exists v w,
    Curriculum.reward_shaping_fn (Fin h) (Fin x) = Ok (Fin v) /\
    Curriculum.reward_shaping_fn (Fin h) (Fin y) = Ok (Fin w) /\
    (w <= v)%Q.
Proof.
  intros Hh Hxy.
  destruct (@reward_shaping_clipped h x Hh) as [v [Hv [Hvi Hvo]]].
  destruct (@reward_shaping_clipped h y Hh) as [w [Hw [Hwi Hwo]]].
  exists v, w. split; [exact Hv|]. split; [exact Hw|].
  assert (Ex : ((x - 0) / (h - 0) == x / h)%Q) by (field; lra).
  assert (Ey : ((y - 0) / (h - 0) == y / h)%Q) by (field; lra).
  rewrite Ex in Hvi. rewrite Ey in Hwi.
  assert (Hdx : (x / h * h == x)%Q) by (field; lra).
  assert (Hdy : (y / h * h == y)%Q) by (field; lra).
  destruct (Qlt_le_dec y h) as [Hy|Hy].
  - rewrite Hwi, Hvi by lra.
    assert (x / h <= y / h)%Q; [|lra].
    apply Qle_shift_div_l; [lra|]. rewrite Hdx. exact Hxy.
  - rewrite (Hwo Hy).
    destruct (Qlt_le_dec x h) as [Hx|Hx].
    + rewrite Hvi by lra.
      assert (x / h <= 1)%Q; [|lra].
      apply Qle_shift_div_r; lra.
    + rewrite (Hvo Hx). lra.
Qed.

Lemma reward_shaping_decreasing_witness :
  (0 < 100)%Q /\ (40 <= 70)%Q /\
  exists v w,
    Curriculum.reward_shaping_fn (Fin 100) (Fin 40) = Ok (Fin v) /\
    Curriculum.reward_shaping_fn (Fin 100) (Fin 70) = Ok (Fin w) /\
    (w <= v)%Q.
Proof.
  split; [reflexivity|]. split; [discriminate|].
  apply (@reward_shaping_decreasing 100 40 70); [reflexivity|discriminate].
Defined.





(** X4: when threshold and horizon of the self-play schedule coincide,
    the ramp divides by zero: with both at zero every timestep raises
    [ZeroDivisionError]; with both at [t <> 0] the early return gives 1
    while [t - x > 1], and every later timestep raises. *)
Theorem self_play_equal_bounds (t x : Q) :
  Curriculum.self_play_fn (Fin t) (Fin t) (Fin x)
  = if negb (Qeq_bool t 0) && Qle_bool (t - x) 1 || Qeq_bool t 0
    then Raise ZeroDivisionError else Ok one.
Proof.
  unfold Curriculum.self_play_fn.
  assert (Hramp : Curriculum.ramp (Fin t) (Fin t) (Fin x)
                  = Raise ZeroDivisionError).
  { unfold Curriculum.ramp, py_div.
    assert (E : Num.eqb (Fin t - Fin t)%num zero = true).
    { cbn [Num.sub Num.neg Num.add]. apply eqb_Fin.
      rewrite !Qred_correct. unfold inject_Z. ring. }
    rewrite E. reflexivity. }
  destruct (Qeq_bool t 0) eqn:Ht.
  - apply Qeq_bool_eq in Ht.
    assert (Hz : Num.neb (Fin t) zero = false).
    { assert (E : Num.eqb (Fin t) zero = true) by (apply eqb_Fin; exact Ht).
      unfold Num.neb. rewrite E. reflexivity. }
    rewrite Hz. cbn [rbind negb andb orb]. rewrite Hramp. reflexivity.
  - assert (Hne : ~ (t == 0)%Q).
    { intros E. rewrite (Qeq_eq_bool _ _ E) in Ht. discriminate. }
    assert (Hz : Num.neb (Fin t) zero = true).
    { unfold Num.neb. destruct (Num.eqb (Fin t) zero) eqn:E; [|reflexivity].
      apply eqb_Fin in E. contradiction. }
    rewrite Hz, py_div_Fin by exact Hne.
    cbn [rbind negb andb orb Num.sub Num.mul Num.neg Num.add].
    destruct (Qle_bool (t - x) 1) eqn:Hle.
    + apply Qle_bool_iff in Hle.
      match goal with |- context [Num.gtb ?a ?b] => destruct (Num.gtb a b) eqn:C end.
      * exfalso. apply gtb_Fin in C. rewrite !Qred_correct in C.
        assert (Hq : (t / t == 1)%Q) by (field; exact Hne).
        rewrite Hq in C. unfold inject_Z in C. lra.
      * cbn [rbind]. rewrite Hramp. reflexivity.
    + assert (Hgt : (1 < t - x)%Q).
      { destruct (Qlt_le_dec 1 (t - x)) as [H|H]; [exact H|].
        apply Qle_bool_iff in H. congruence. }
      assert (C : Num.gtb
                 (Fin (Qred (t + Qred (- Qred (Qred (t / t) * x))))) one
                 = true).
      { apply gtb_Fin. rewrite !Qred_correct.
        assert (Hq : (t / t == 1)%Q) by (field; exact Hne).
        rewrite Hq. unfold inject_Z. lra. }
      rewrite C. reflexivity.
Qed.

(** ** The learning-rate schedule *)







(** ** The samples of a recurrent epoch *)

Lemma flat_map_window_seq (c s n : nat) :
  flat_map (window c) (seq s n) = seq (s * c) (n * c).
Proof.
  revert s; induction n as [|n IH]; intros s; [reflexivity|].
  cbn [seq flat_map]. rewrite IH. unfold window.
  replace (Datatypes.S n * c)%nat with (c + n * c)%nat by reflexivity.
  rewrite seq_app. f_equal. f_equal. simpl. lia.
Qed.

Lemma flat_map_concat_map {A B : Type} (f : A -> list B) (ls : list (list A)) :
  flat_map f (List.concat ls) = List.concat (map (flat_map f) ls).
Proof.
  induction ls as [|l ls IH]; [reflexivity|].
  cbn [List.concat map]. rewrite flat_map_app, IH. reflexivity.
Qed.

Lemma length_flat_map_window (c : nat) (l : list nat) :
  List.length (flat_map (window c) l) = (List.length l * c)%nat.
Proof.
  induction l as [|e l IH]; [reflexivity|].
  cbn [flat_map List.length]. rewrite length_app, IH.
  unfold window. rewrite length_seq. reflexivity.
Qed.

Lemma whole_sequences_flat {S : Type} (nsteps : nat) (states : list S)
  (mbs : list (Minibatch.rec_minibatch S)) :
  Forall (whole_sequences nsteps states) mbs ->
  map (@Minibatch.mbflatinds S) mbs
  = map (flat_map (window nsteps)) (map (@Minibatch.mbenvinds S) mbs).
Proof.
  induction 1 as [|mb mbs [Hw _] _ IH]; [reflexivity|].
  cbn [map]. rewrite Hw, IH. reflexivity.
Qed.

(** X7: in the recurrent branch, under the conditions of its assertion
    ([nenvs > 0] environments, [nminibatches > 0] dividing [nenvs], one
    state row per environment), the flat sample indices handed to
    [model.train] within one epoch are an exact partition of
    [[0, nenvs * nsteps)] into [nminibatches] arrays of
    [(nenvs // nminibatches) * nsteps] indices: every sample of the batch
    is trained on exactly once per epoch. *)
Theorem recurrent_flat_partition {S : Type} (noptepochs : Z)
  (nenvs nsteps : nat) (nminibatches : Z) (states : list S)
  (g : Minibatch.bitgen) :
  (0 < nenvs)%nat -> 0 < nminibatches ->
  Z.of_nat nenvs mod nminibatches = 0 ->
  List.length states = nenvs ->
  Forall (fun mbs =>
            exact_partition (nenvs * nsteps) (Z.to_nat nminibatches)
              (Z.to_nat (Z.of_nat nenvs / nminibatches) * nsteps)
              (map (@Minibatch.mbflatinds S) mbs))
         (Minibatch.epochs
            (Minibatch.recurrent noptepochs nenvs nsteps nminibatches
               states g)).
Proof.
  intros Hn Hm Hdiv Hst.
  assert (Heq : Z.of_nat nenvs = nminibatches * (Z.of_nat nenvs / nminibatches)).
  { apply Z.div_exact; lia. }
  unfold Minibatch.recurrent.
  destruct (Z.eqb_spec nminibatches 0); [lia|].
  rewrite Hdiv. cbn [Z.eqb negb].
  destruct (@recurrent_epochs_exact S (Z.to_nat noptepochs) nenvs nsteps
              nminibatches (Z.of_nat nenvs / nminibatches) states g
              (Minibatch.arange nenvs))
    as [_ [_ Hall]]; try assumption; try nia; [reflexivity|].
  eapply Forall_impl; [|exact Hall].
  intros mbs [[Hp [_ [_ [Hk Hb]]]] Hw]. cbv beta.
  rewrite (whole_sequences_flat Hw).
  apply exact_partition_intro.
  - rewrite <- flat_map_concat_map.
    change (seq 0 (nenvs * nsteps)) with (seq (0 * nsteps) (nenvs * nsteps)).
    rewrite <- flat_map_window_seq.
    apply Permutation_flat_map. exact Hp.
  - rewrite length_map. exact Hk.
  - apply Forall_map. eapply Forall_impl; [|exact Hb].
    intros l Hl. cbv beta. rewrite length_flat_map_window, Hl. reflexivity.
Qed.

Lemma recurrent_flat_partition_witness :
  (0 < 4)%nat /\ 0 < 2 /\ Z.of_nat 4 mod 2 = 0 /\
  List.length [10; 11; 12; 13]%nat = 4%nat /\
  Forall (fun mbs =>
            exact_partition (4 * 3) (Z.to_nat 2)
              (Z.to_nat (Z.of_nat 4 / 2) * 3)
              (map (@Minibatch.mbflatinds nat) mbs))
         (Minibatch.epochs
            (Minibatch.recurrent 2 4 3 2 [10; 11; 12; 13]%nat
               [3; 1; 4; 1; 5; 9]%nat)).
Proof.
  split; [lia|]. split; [lia|]. split; [reflexivity|]. split; [reflexivity|].
  apply (@recurrent_flat_partition nat 2 4 3 2 [10; 11; 12; 13]%nat
           [3; 1; 4; 1; 5; 9]%nat); [lia | lia | reflexivity | reflexivity].
Defined.

(** ** What a run writes, and when *)

Section Accounted.

Variable S : Type.
Variable np_exp : num -> num.
Variable cfg : config.
Variable W : world S.

Section Blocks.

Variable E : event -> Prop.
Variable update : Z.

Lemma steps_bind_lift {A B : Type} (r : result A) (k : A -> M B) :
  (forall a, r = Ok a -> steps E (k a)) -> steps E (bind (lift r) k).
Proof.
  intros Hk. eapply steps_bind_returns with (P := fun a => r = Ok a).
  - apply steps_lift.
  - apply returns_lift. auto.
  - exact Hk.
Qed.

Lemma py_mod_ok (a b m : Z) : py_mod a b = Ok m -> b <> 0 /\ m = a mod b.
Proof.
  unfold py_mod. destruct (Z.eqb_spec b 0); [discriminate|].
  intros H. injection H as <-. split; [assumption|reflexivity].
Qed.

Lemma steps_best_train_block_due (ep_sparse_rew_mean : num) :
  (ppo_run cfg = true -> str_in "best_train" (PPO_TO_SAVE cfg) = true ->
   forall w, E (EvSave BestTrain w)) ->
  steps E (best_train_block cfg ep_sparse_rew_mean).
Proof.
  intros He. unfold best_train_block. steps_auto.
  match goal with H : _ && _ = true |- _ => apply andb_prop in H; destruct H end.
  apply He; assumption.
Qed.

Lemma steps_validation_block_due :
  (ppo_run cfg = true ->
   str_in "best_validation" (PPO_TO_SAVE cfg) = true ->
   VAL_FREQ cfg <> 0 -> update mod VAL_FREQ cfg = 0 ->
   (forall sp, E (EvValidation update sp)) /\
   (forall w, E (EvSave BestVal w)) /\ E (EvBreak update)) ->
  steps E (validation_block cfg W update).
Proof.
  intros Hv s. unfold validation_block, validation_due.
  destruct (ppo_run cfg) eqn:Hppo; cbn [andb];
    [|cbv [bind ret snd]; apply follows_refl].
  destruct (str_in "best_validation" (PPO_TO_SAVE cfg)) eqn:Hin;
    [|cbv [bind ret snd]; apply follows_refl].
  unfold py_mod. cbv [bind lift get ret emit modify].
  destruct (Z.eqb_spec (VAL_FREQ cfg) 0) as [Hz|Hz]; [apply follows_refl|].
  destruct (Z.eqb_spec (update mod VAL_FREQ cfg) 0) as [Hm|Hm]; cbn [andb];
    [|apply follows_refl].
  destruct (Hv eq_refl eq_refl Hz Hm) as [Hval [Hsave Hbreak]].
  destruct (sp_horizon_nonzero (SELF_PLAY_HORIZON cfg)) eqn:Hh; cbn [andb];
    [|apply follows_refl].
  destruct (self_play_randomization s =? zero)%num eqn:Hsp;
    [|apply follows_refl].
  eapply follows_trans; [|apply steps_model_selection; assumption].
  apply follows_emit; [apply Hval|reflexivity].
Qed.

Lemma steps_reward_shaping_block_due :
  (Num.neb (REW_SHAPING_HORIZON cfg) zero = true ->
   forall v,
     Curriculum.reward_shaping_fn (REW_SHAPING_HORIZON cfg)
       (of_Z (update * nbatch cfg)) = Ok v ->
     E (EvRewardShaping v)) ->
  steps E (reward_shaping_block cfg update).
Proof.
  intros He. unfold reward_shaping_block.
  apply steps_when. intros Hn. apply steps_bind_lift. intros v Hv.
  apply steps_emit; [|reflexivity]. apply He; assumption.
Qed.

Lemma steps_self_play_block_due (ep_sparse_rew_mean : num) :
  (String.eqb (OTHER_AGENT_TYPE cfg) "sp" = false ->
   forall v, E (EvSelfPlay v)) ->
  steps E (self_play_block np_exp cfg update ep_sparse_rew_mean).
Proof.
  intros He. unfold self_play_block. apply steps_when. intros Hn.
  apply negb_true_iff in Hn.
  steps_auto; apply steps_set_self_play; apply He; exact Hn.
Qed.

Lemma steps_logging_due (ncalls : nat) :
  (ppo_run cfg = true -> str_in "best_train" (PPO_TO_SAVE cfg) = true ->
   log_interval_hit cfg update -> forall w, E (EvSave BestTrain w)) ->
  (ppo_run cfg = true ->
   str_in "best_validation" (PPO_TO_SAVE cfg) = true ->
   log_interval_hit cfg update ->
   VAL_FREQ cfg <> 0 -> update mod VAL_FREQ cfg = 0 ->
   (forall sp, E (EvValidation update sp)) /\
   (forall w, E (EvSave BestVal w)) /\ E (EvBreak update)) ->
  (ppo_run cfg = true -> log_interval_hit cfg update ->
   Num.neb (REW_SHAPING_HORIZON cfg) zero = true ->
   forall v,
     Curriculum.reward_shaping_fn (REW_SHAPING_HORIZON cfg)
       (of_Z (update * nbatch cfg)) = Ok v ->
     E (EvRewardShaping v)) ->
  (ppo_run cfg = true -> log_interval_hit cfg update ->
   String.eqb (OTHER_AGENT_TYPE cfg) "sp" = false ->
   forall v, E (EvSelfPlay v)) ->
  steps E (logging np_exp cfg W update ncalls).
Proof.
  intros Ht Hv Hr Hp. unfold logging.
  eapply steps_bind_returns;
    [apply steps_log_due|apply returns_log_due|].
  intros due Hdue. destruct due; [|apply steps_ret].
  specialize (Hdue eq_refl).
  unfold logging_block. steps_auto.
  - apply steps_best_train_block_due. auto.
  - apply steps_validation_block_due. auto.
  - apply steps_reward_shaping_block_due. auto.
  - apply steps_self_play_block_due. auto.
Qed.

Lemma steps_periodic_save_due :
  (periodic_save_due cfg update -> forall w, E (EvSave (Periodic update) w)) ->
  steps E (periodic_save cfg update).
Proof.
  intros He. unfold periodic_save. apply steps_when. intros Hg.
  apply andb_prop in Hg. destruct Hg as [Hg Hc].
  apply andb_prop in Hg. destruct Hg as [Hi Hm].
  apply steps_save. apply He. split; [|split].
  - apply negb_true_iff in Hi. apply Z.eqb_neq in Hi. exact Hi.
  - apply orb_prop in Hm. destruct Hm as [Hm|Hm]; apply Z.eqb_eq in Hm; auto.
  - exact Hc.
Qed.

Lemma steps_visualize_due :
  (ppo_run cfg = true -> VIZ_FREQUENCY cfg <> 0 ->
   update mod VIZ_FREQUENCY cfg = 0 -> E (EvVisualize update)) ->
  steps E (visualize cfg update).
Proof.
  intros He. unfold visualize. apply steps_when. intros Hp.
  apply steps_bind_lift. intros m Hm. apply py_mod_ok in Hm.
  destruct Hm as [Hz ->]. apply steps_when. intros H0.
  apply Z.eqb_eq in H0. apply steps_emit; [|reflexivity]. auto.
Qed.

End Blocks.

(** An iteration emits only events that its configuration and its place
    on the schedules account for. *)
Lemma steps_update_body_accounted (update : Z) :
  steps (accounted_event cfg update) (update_body np_exp cfg W update).
Proof.
  unfold update_body, update_rest. steps_auto; try exact I.
  - apply steps_early_stopping_block. intros He _ w. exact He.
  - apply steps_optimise. intros inds. exact I.
  - apply steps_logging_due; cbn; auto.
    intros Hp Hs Hl Hz Hm. split; [intros; exact I|].
    split; [intros _; tauto|exact I].
  - apply steps_periodic_save_due. intros Hd w. split; [reflexivity|exact Hd].
  - apply steps_visualize_due. intros. cbn. auto.
Qed.

Lemma steps_run_updates_accounted (updates : list Z) :
  (forall u, In u updates -> 1 <= u <= nupdates cfg) ->
  steps (accounted cfg) (run_updates np_exp cfg W updates).
Proof.
  induction updates as [|u rest IH]; intros Hin; cbn [run_updates].
  - apply steps_ret.
  - apply steps_bind.
    + eapply steps_weaken; [|apply steps_update_body_accounted].
      intros e He. right. exists u. split; [apply Hin; now left|exact He].
    + intros [|]; [|apply steps_ret].
      apply IH. intros v Hv. apply Hin. now right.
Qed.

Lemma steps_learn_accounted : steps (accounted cfg) (learn np_exp cfg W).
Proof.
  unfold learn.
  eapply steps_bind_returns with
    (P := fun n => nbatch cfg <> 0 /\ n = total_timesteps cfg / nbatch cfg).
  - unfold setup. steps_auto; left; exact I.
  - apply returns_setup.
  - intros n [_ ->]. apply steps_bind.
    + apply steps_run_updates_accounted. intros u. apply In_update_range.
    + intros _. unfold finish. steps_auto. left. exact I.
Qed.

Lemma learn_accounted :
  Forall (accounted cfg) (trace (snd (run_learn np_exp cfg W))).
Proof.
  unfold run_learn.
  destruct (steps_learn_accounted (init_state W)) as [evs [Ht [Hf _]]].
  rewrite Ht. exact Hf.
Qed.

End Accounted.

(** X8: whatever the outcome of a run, every best-model checkpoint it
    writes and every change it makes to the curriculum of the environment
    is one the configuration asks for: [.temp_best_model] is written only
    with [early_stopping]; [best_train] and [best_val] only in a ["ppo"]
    or ["joint_ppo"] run whose ["PPO_TO_SAVE"] names them; the
    reward-shaping parameter is pushed only in such a run with a non-zero
    ["REW_SHAPING_HORIZON"], and [env.self_play_randomization] assigned
    only in such a run whose ["OTHER_AGENT_TYPE"] is not ["sp"]; and
    [load_path] is never written. *)
Theorem side_effects_configured (S : Type) (np_exp : num -> num)
  (cfg : config) (W : world S) :
  Forall (configured cfg) (trace (snd (run_learn np_exp cfg W))).
Proof.
  eapply Forall_impl; [|apply learn_accounted].
  intros e [Hb|[u [_ Hu]]];
    destruct e as [| | | | | | | | |c w| |v|v| |];
    try exact I; try destruct Hb.
  - destruct c; cbn in Hu |- *; tauto.
  - unfold accounted_event in Hu. unfold configured. tauto.
  - unfold accounted_event in Hu. unfold configured. tauto.
Qed.

(** X9: whatever the outcome of a run, a periodic checkpoint numbered [u]
    and a rendered rollout of update [u] only occur for an iteration
    [1 <= u <= nupdates] on their schedule: the checkpoint with a
    non-zero [save_interval], a log directory, and [u = 1] or [u] a
    multiple of [save_interval]; the rendering in a ["ppo"] or
    ["joint_ppo"] run with [u] a multiple of ["VIZ_FREQUENCY"]. *)
Theorem periodic_on_schedule (S : Type) (np_exp : num -> num) (cfg : config)
  (W : world S) :
  Forall (on_schedule cfg) (trace (snd (run_learn np_exp cfg W))).
Proof.
  eapply Forall_impl; [|apply learn_accounted].
  intros e [Hb|[u [Hr Hu]]]; destruct e as [| | | | | | | | |c w| | | |v|];
    try exact I; try destruct Hb.
  - destruct c; try exact I. cbn in Hu |- *. destruct Hu as [-> Hd].
    split; assumption.
  - cbn in Hu |- *. destruct Hu as [-> Hd]. split; assumption.
Qed.

(** X10: with a positive finite ["REW_SHAPING_HORIZON"], whatever the
    outcome of a run, every value it hands to
    [env.update_reward_shaping_param] lies in [[0, 1]] and is the value of
    the reward-shaping schedule at [update * nbatch] timesteps, for a
    logged iteration [1 <= update <= nupdates]. *)
Theorem shaping_pushed_unit (S : Type) (np_exp : num -> num) (cfg : config)
  (W : world S) (h : Q) :
  REW_SHAPING_HORIZON cfg = Fin h -> (0 < h)%Q ->
  Forall (shaping_in_unit cfg) (trace (snd (run_learn np_exp cfg W))).
Proof.
  intros HH Hh.
  eapply Forall_impl; [|apply learn_accounted].
  intros e [Hb|[u [Hr Hu]]]; destruct e as [| | | | | | | | | | |v| | |];
    try exact I; try destruct Hb.
  unfold accounted_event in Hu. unfold shaping_in_unit.
  destruct Hu as [_ [Hl [_ Hv]]].
  split; [|exists u; split; [exact Hr|split; [exact Hl|exact Hv]]].
  rewrite HH in Hv. unfold of_Z in Hv.
  destruct (@reward_shaping_unit h (inject_Z (u * nbatch cfg)) Hh)
    as [v' [Hv' Hu']].
  - change 0%Q with (inject_Z 0). rewrite <- Zle_Qle.
    unfold nbatch. nia.
  - rewrite Hv in Hv'. injection Hv' as ->. exact Hu'.
Qed.

Lemma shaping_pushed_unit_witness :
  REW_SHAPING_HORIZON shaping_cfg = Fin 16 /\ (0 < 16)%Q /\
  Forall (shaping_in_unit shaping_cfg)
    (trace (snd (run_learn coarse_exp shaping_cfg (scenario_world stagnant_val)))).
Proof.
  split; [reflexivity|]. split; [reflexivity|].
  apply (@shaping_pushed_unit unit coarse_exp shaping_cfg
           (scenario_world stagnant_val) 16); reflexivity.
Defined.

(** ** Invariants of a run *)

Section KeepRules.

Variable I : state -> Prop.

Lemma keeps_ret {A : Type} (a : A) : keeps I (ret a).
Proof. intros s H. exact H. Qed.

Lemma keeps_raise {A : Type} (e : exn) : keeps I (@raise A e).
Proof. intros s H. exact H. Qed.

Lemma keeps_get : keeps I get.
Proof. intros s H. exact H. Qed.

Lemma keeps_lift {A : Type} (r : result A) : keeps I (lift r).
Proof. intros s H. exact H. Qed.

Lemma keeps_bind {A B : Type} (c : M A) (k : A -> M B) :
  keeps I c -> (forall a, keeps I (k a)) -> keeps I (bind c k).
Proof.
  intros Hc Hk s H. unfold bind. specialize (Hc s H).
  destruct (c s) as [[a|e] s1]; cbn [snd] in *; [apply Hk|]; exact Hc.
Qed.

Lemma keeps_modify (f : state -> state) :
  (forall s, I s -> I (f s)) -> keeps I (modify f).
Proof. intros H s Hs. apply H. exact Hs. Qed.

Lemma keeps_emit (e : event) :
  (forall s, I s -> I (set_trace (trace s ++ [e]) s)) -> keeps I (emit e).
Proof. intros H s Hs. apply H. exact Hs. Qed.

Lemma keeps_when (b : bool) (c : M unit) :
  (b = true -> keeps I c) -> keeps I (when b c).
Proof. intros H. unfold when. destruct b; [auto|apply keeps_ret]. Qed.

Lemma keeps_assert (b : bool) : keeps I (assert b).
Proof. unfold assert. destruct b; [apply keeps_ret|apply keeps_raise]. Qed.

Lemma keeps_train_all (update : Z) (mbs : list (list nat)) :
  (forall inds, keeps I (train update inds)) ->
  keeps I (train_all update mbs).
Proof.
  intros H. induction mbs as [|inds rest IH]; cbn [train_all].
  - apply keeps_ret.
  - apply keeps_bind; [apply H|intros _; exact IH].
Qed.

Lemma keeps_run_updates (S : Type) (np_exp : num -> num) (cfg : config)
  (W : world S) (updates : list Z) :
  (forall u, keeps I (update_body np_exp cfg W u)) ->
  keeps I (run_updates np_exp cfg W updates).
Proof.
  intros H. induction updates as [|u rest IH]; cbn [run_updates].
  - apply keeps_ret.
  - apply keeps_bind; [apply H|intros [|]; [exact IH|apply keeps_ret]].
Qed.

End KeepRules.

(** One step of a proof that a block keeps an invariant: split a
    sequence, reduce a primitive to its effect on the state, or branch on
    the scrutinee. *)
Ltac keeps_step :=
  lazymatch goal with
  | |- keeps _ (bind _ _) => apply keeps_bind; [|intros ?]
  | |- keeps _ (ret _) => apply keeps_ret
  | |- keeps _ (raise _) => apply keeps_raise
  | |- keeps _ get => apply keeps_get
  | |- keeps _ (lift _) => apply keeps_lift
  | |- keeps _ (assert _) => apply keeps_assert
  | |- keeps _ (modify _) => apply keeps_modify
  | |- keeps _ (emit _) => apply keeps_emit
  | |- keeps _ (when _ _) => apply keeps_when; intros ?
  | |- keeps _ (train_all _ _) => apply keeps_train_all; intros ?
  | |- keeps _ (train _ _) => unfold train
  | |- keeps _ (load _) => unfold load
  | |- keeps _ model_init => unfold model_init
  | |- keeps _ (set_self_play _) => unfold set_self_play
  | |- keeps _ (if ?b then _ else _) => destruct b eqn:?
  | |- keeps _ (match ?x with _ => _ end) => destruct x eqn:?
  end.

Section HoareRules.

Lemma hoare_bind {A B : Type} (P : state -> Prop) (Q : A -> state -> Prop)
  (R : B -> state -> Prop) (c : M A) (k : A -> M B) :
  hoare P c Q -> (forall a, hoare (Q a) (k a) R) -> hoare P (bind c k) R.
Proof.
  intros Hc Hk s b s' HP E. unfold bind in E.
  destruct (c s) as [[a|e] s1] eqn:Ec; [|discriminate].
  eapply Hk; [|exact E]. eapply Hc; [exact HP|exact Ec].
Qed.

Lemma hoare_keeps {A : Type} (I : state -> Prop) (c : M A) :
  keeps I c -> hoare I c (fun _ => I).
Proof.
  intros H s a s' HI E. specialize (H s HI). rewrite E in H. exact H.
Qed.

Lemma hoare_conseq {A : Type} (P P' : state -> Prop)
  (Q Q' : A -> state -> Prop) (c : M A) :
  (forall s, P' s -> P s) -> (forall a s, Q a s -> Q' a s) ->
  hoare P c Q -> hoare P' c Q'.
Proof.
  intros HP HQ H s a s' HP' E. apply HQ. eapply H; [apply HP; exact HP'|exact E].
Qed.

End HoareRules.

(** ** What [early_stopping] hands back *)

Lemma last_save_snoc (c : ckpt) (tr : list event) (e : event) :
  last_save c (tr ++ [e]) =
  match e with
  | EvSave c' w => if ckpt_eqb c c' then Some w else last_save c tr
  | _ => last_save c tr
  end.
Proof. unfold last_save. rewrite fold_left_app. reflexivity. Qed.

Section Reload.

Variable S : Type.
Variable np_exp : num -> num.
Variable cfg : config.
Variable W : world S.

Lemma disk_agrees_emit (c : ckpt) (e : event) (s : state) :
  (forall c' w, e <> EvSave c' w) ->
  disk_agrees W c s -> disk_agrees W c (set_trace (trace s ++ [e]) s).
Proof.
  intros He H. unfold disk_agrees, ckpt_after in *. cbn [files trace set_trace].
  rewrite last_save_snoc. destruct e; try exact H.
  exfalso. eapply He. reflexivity.
Qed.

Lemma keeps_save_disk_agrees (c c' : ckpt) : keeps (disk_agrees W c) (save c').
Proof.
  intros s H. unfold save. cbv [bind get modify emit snd].
  unfold disk_agrees, ckpt_after in *.
  cbn [files trace set_trace set_files model read_ckpt].
  rewrite last_save_snoc.
  destruct (ckpt_eqb c c'); [reflexivity|exact H].
Qed.

Ltac disk_leaf :=
  lazymatch goal with
  | |- keeps _ (save _) => apply keeps_save_disk_agrees
  | |- forall s, disk_agrees _ _ s -> disk_agrees _ _ (set_trace _ s) =>
      intros ? ?; apply disk_agrees_emit; [intros ? ?; discriminate|assumption]
  | |- forall s, disk_agrees _ _ s -> disk_agrees _ _ _ =>
      intros ? ?; assumption
  end.

Lemma keeps_update_body_disk_agrees (c : ckpt) (update : Z) :
  keeps (disk_agrees W c) (update_body np_exp cfg W update).
Proof.
  unfold update_body, update_rest, early_stopping_block, optimise, logging,
    logging_block, log_due, best_train_block, validation_block,
    validation_due, model_selection, reward_shaping_block, self_play_block,
    periodic_save, visualize.
  repeat (keeps_step || disk_leaf).
Qed.

Lemma keeps_setup_disk_agrees (c : ckpt) :
  keeps (disk_agrees W c) (setup cfg).
Proof. unfold setup. repeat (keeps_step || disk_leaf). Qed.

End Reload.

(** With [early_stopping] and at least one update, a normal return hands
    back what [.temp_best_model] holds after the events of the run. *)
Lemma learn_reload (S : Type) (np_exp : num -> num) (cfg : config)
  (W : world S) (w : weights) (s : state) :
  early_stopping cfg = true -> 0 < nupdates cfg ->
  run_learn np_exp cfg W = (Ok w, s) ->
  model s = w /\ ckpt_after (disk0 W) TempBest (trace s) = Some w.
Proof.
  intros He Hn. unfold run_learn. rewrite learn_unfold.
  pose proof (@keeps_setup_disk_agrees S cfg W TempBest (init_state W) eq_refl)
    as H1.
  pose proof (@returns_setup cfg (init_state W)) as Hr.
  destruct (setup cfg (init_state W)) as [[n|e] s1]; [|discriminate].
  destruct (Hr n s1 eq_refl) as [_ ->]. cbn [snd] in H1.
  pose proof (@keeps_run_updates (disk_agrees W TempBest) S np_exp cfg W
                (update_range (total_timesteps cfg / nbatch cfg))
                (@keeps_update_body_disk_agrees S np_exp cfg W TempBest) s1 H1)
    as H2.
  destruct (run_updates np_exp cfg W
              (update_range (total_timesteps cfg / nbatch cfg)) s1)
    as [[[]|e] s2]; [|discriminate].
  cbn [snd] in H2. rewrite finish_spec.
  fold (nupdates cfg). rewrite (proj2 (Z.ltb_lt 0 (nupdates cfg)) Hn), He.
  cbn [andb]. unfold disk_agrees in H2.
  destruct (read_ckpt (files s2) TempBest) as [w0|] eqn:Hf; [|discriminate].
  intros E. injection E as <- <-. split; [reflexivity|].
  cbn [trace set_model set_trace]. unfold ckpt_after in *.
  rewrite last_save_snoc. symmetry. exact H2.
Qed.

(** X11: with [early_stopping] and at least one update, what [learn]
    returns normally is what [.temp_best_model] holds when the loop is
    over: the parameters of the last write to it in this run or, if the
    run never wrote it, the parameters of a file that was there before
    the run. *)
Theorem early_stopping_returns_temp_best (S : Type) (np_exp : num -> num)
  (cfg : config) (W : world S) (w : weights) (s : state) :
  early_stopping cfg = true -> 0 < nupdates cfg ->
  run_learn np_exp cfg W = (Ok w, s) ->
  model s = w /\
  match last_save TempBest (trace s) with
  | Some w' => w = w'
  | None => read_ckpt (disk0 W) TempBest = Some w
  end.
Proof.
  intros He Hn Hrun.
  destruct (learn_reload np_exp cfg W He Hn Hrun) as [Hm Hc].
  split; [exact Hm|]. unfold ckpt_after in Hc.
  destruct (last_save TempBest (trace s)) as [w'|].
  - injection Hc as ->. reflexivity.
  - exact Hc.
Qed.

Lemma early_stopping_returns_temp_best_witness :
  early_stopping early_stopping_cfg = true /\
  0 < nupdates early_stopping_cfg /\
  run_learn coarse_exp early_stopping_cfg (scenario_world stagnant_val)
  = (Ok O, snd (run_learn coarse_exp early_stopping_cfg
                  (scenario_world stagnant_val))) /\
  model (snd (run_learn coarse_exp early_stopping_cfg
                (scenario_world stagnant_val))) = O /\
  match last_save TempBest
          (trace (snd (run_learn coarse_exp early_stopping_cfg
                         (scenario_world stagnant_val)))) with
  | Some w' => O = w'
  | None => read_ckpt (disk0 (scenario_world stagnant_val)) TempBest = Some O
  end.
Proof.
  split; [reflexivity|]. split; [reflexivity|]. split; [vm_compute; reflexivity|].
  apply (@early_stopping_returns_temp_best unit coarse_exp early_stopping_cfg
           (scenario_world stagnant_val)); [reflexivity|reflexivity|].
  vm_compute. reflexivity.
Defined.

(** ** Runs that cannot get past their first iteration *)

Lemma hoare_trivial {A : Type} (P : state -> Prop) (c : M A) :
  hoare P c (fun _ _ => True).
Proof. intros s a s' _ _. exact I. Qed.

Lemma hoare_stuck {A B : Type} (P : state -> Prop) (R : B -> state -> Prop)
  (c : M A) (k : A -> M B) :
  hoare P c (fun _ _ => False) -> hoare P (bind c k) R.
Proof.
  intros H. eapply hoare_bind; [exact H|]. intros a s b s' [].
Qed.

(** When the first iteration can only raise or break, the run starts no
    second one, and it returns normally only if no iteration is due or
    the first one breaks. *)
Lemma first_update_is_last (S : Type) (np_exp : num -> num) (cfg : config)
  (W : world S) (I : state -> Prop) :
  I (init_state W) -> keeps I (setup cfg) ->
  hoare I (update_body np_exp cfg W 1) (fun c _ => c = Break) ->
  (count is_update (trace (snd (run_learn np_exp cfg W))) <= 1)%nat /\
  ((exists w, fst (run_learn np_exp cfg W) = Ok w) ->
   nupdates cfg <= 0 \/ In (EvBreak 1) (trace (snd (run_learn np_exp cfg W)))).
Proof.
  intros H0 Hsetup Hfirst. unfold run_learn. rewrite learn_unfold.
  pose proof (Hsetup (init_state W) H0) as Hu.
  destruct (@steps_setup S cfg W (init_state W)) as [evs0 [Ht0 [Hf0 _]]].
  pose proof (@returns_setup cfg (init_state W)) as Hr.
  assert (Hc0 : count is_update evs0 = O).
  { eapply Forall_is_false_count; [|exact Hf0]. cbv beta. tauto. }
  destruct (setup cfg (init_state W)) as [[n|e] s1]; cbn [fst snd] in *.
  2:{ rewrite Ht0. cbn [init_state trace app]. rewrite Hc0.
      split; [lia|]. intros [w Hw]. discriminate. }
  destruct (Hr n s1 eq_refl) as [_ ->]. fold (nupdates cfg).
  cbn [init_state trace app] in Ht0.
  destruct (Z_lt_le_dec (nupdates cfg) 1) as [Hn|Hn].
  - (* no iteration is due *)
    unfold update_range.
    replace (Z.to_nat (nupdates cfg)) with O by lia.
    cbn [seq map run_updates ret].
    destruct (@finish_frame cfg (nupdates cfg) s1) as [Htf _].
    rewrite Htf, Ht0, count_app, Hc0.
    split; [|intros _; left; lia].
    destruct ((0 <? nupdates cfg) && early_stopping cfg); cbn; lia.
  - destruct (update_range_first Hn) as [rest ->].
    cbn [run_updates]. unfold bind.
    destruct (@update_body_spec S np_exp cfg W 1 s1)
      as [evs [Ht [Hf [_ Hb]]]].
    pose proof (Hfirst s1) as Hh.
    assert (Hc : count is_update evs = O).
    { eapply Forall_is_false_count; [|exact Hf].
      apply update_event_not_update. }
    destruct (update_body np_exp cfg W 1 s1) as [[c|e] s2];
      cbn [fst snd] in *.
    + specialize (Hh c s2 Hu eq_refl). subst c. cbn [ret].
      destruct Hb as [[pre [Hpre _]] _].
      destruct (@finish_frame cfg (nupdates cfg) s2) as [Htf _].
      rewrite Htf, Ht, Ht0, !count_app, count_cons, Hc, Hc0.
      split.
      * destruct ((0 <? nupdates cfg) && early_stopping cfg); cbn; lia.
      * intros _. right. apply in_or_app. left. apply in_or_app. right.
        right. rewrite Hpre. apply in_or_app. right. now left.
    + rewrite Ht, Ht0, count_app, count_cons, Hc, Hc0.
      split; [cbn; lia|]. intros [w Hw]. discriminate.
Qed.

(** ** The unassigned [sp_horizon] *)

Section Unbound.

Variable S : Type.
Variable np_exp : num -> num.
Variable cfg : config.
Variable W : world S.

Hypothesis ppo : ppo_run cfg = true.
Hypothesis no_best_train : str_in "best_train" (PPO_TO_SAVE cfg) = false.
Hypothesis not_sp : String.eqb (OTHER_AGENT_TYPE cfg) "sp" = false.

Ltac unset_leaf :=
  lazymatch goal with
  | |- keeps _ (save _) => unfold save
  | |- forall s, sp_horizon_unset s -> _ => intros ? ?; assumption
  end.

Ltac unset_auto := repeat (keeps_step || unset_leaf).

Ltac keep_first :=
  eapply hoare_bind; [apply hoare_keeps; unset_auto|intros ?]; cbv beta.

(** Without ["best_train"] in ["PPO_TO_SAVE"], line 272 is not reached. *)
Lemma keeps_best_train_block_unset (ep_sparse_rew_mean : num) :
  keeps sp_horizon_unset (best_train_block cfg ep_sparse_rew_mean).
Proof.
  unfold best_train_block. rewrite no_best_train, andb_false_r.
  apply keeps_ret.
Qed.

Lemma keeps_validation_block_unset (update : Z) :
  keeps sp_horizon_unset (validation_block cfg W update).
Proof.
  unfold validation_block, validation_due, model_selection. unset_auto.
Qed.

Lemma keeps_optimise_unset (update : Z) (states : option (list S)) :
  keeps sp_horizon_unset (optimise cfg update states).
Proof. unfold optimise. unset_auto. Qed.

(** Line 373 reads [sp_horizon]. *)
Lemma self_play_block_unset (update : Z) (ep_sparse_rew_mean : num) :
  hoare sp_horizon_unset
        (self_play_block np_exp cfg update ep_sparse_rew_mean)
        (fun _ _ => False).
Proof.
  intros s a s' Hs. unfold self_play_block. rewrite not_sp.
  cbv [negb when bind get]. rewrite Hs. discriminate.
Qed.

Lemma logging_block_unset (update : Z) (ncalls : nat) :
  hoare sp_horizon_unset (logging_block np_exp cfg W update ncalls)
        (fun c _ => c = Break).
Proof.
  unfold logging_block. keep_first. keep_first.
  eapply hoare_bind;
    [apply hoare_keeps; apply keeps_best_train_block_unset|intros ?]; cbv beta.
  eapply hoare_bind;
    [apply hoare_keeps; apply keeps_validation_block_unset|intros c]; cbv beta.
  destruct c.
  - rewrite ppo. cbv [when].
    eapply hoare_bind with (Q := fun _ _ => False).
    + eapply hoare_bind;
        [apply hoare_keeps; unfold reward_shaping_block; unset_auto|intros ?]; cbv beta.
      apply self_play_block_unset.
    + intros _ s c s' [].
  - intros s c s' _ E. injection E as <- _. reflexivity.
Qed.

Lemma log_due_first :
  hoare sp_horizon_unset (log_due cfg 1)
        (fun due s => due = true /\ sp_horizon_unset s).
Proof.
  intros s due s' Hs E. unfold log_due, bind, lift, ret in E.
  destruct (py_mod 1 (log_interval cfg)); [|discriminate].
  inversion E; subst. split; [apply orb_true_r|exact Hs].
Qed.

(** The first iteration cannot fall through to a second one. *)
Lemma update_body_first_unset :
  hoare sp_horizon_unset (update_body np_exp cfg W 1) (fun c _ => c = Break).
Proof.
  unfold update_body, update_rest.
  keep_first. keep_first. keep_first. keep_first.
  eapply hoare_bind;
    [apply hoare_keeps; unfold early_stopping_block; unset_auto|intros ?]; cbv beta.
  keep_first.
  eapply hoare_bind;
    [apply hoare_keeps; apply keeps_optimise_unset|intros ncalls]; cbv beta.
  eapply hoare_bind with (Q := fun c _ => c = Break).
  - unfold logging. eapply hoare_bind; [apply log_due_first|].
    intros due s c s' [-> Hs] E.
    eapply logging_block_unset; eassumption.
  - intros c s c' s' ->. cbv [ret]. intros E. inversion E. reflexivity.
Qed.

Lemma keeps_setup_unset : keeps sp_horizon_unset (setup cfg).
Proof. unfold setup. unset_auto. Qed.

End Unbound.

(** X12: in a ["ppo"] or ["joint_ppo"] run whose ["PPO_TO_SAVE"] lacks
    ["best_train"] and whose ["OTHER_AGENT_TYPE"] is not ["sp"], the
    variable [sp_horizon] is read at line 373 without ever having been
    assigned.  Such a run never starts a second iteration, and it returns
    normally only if no iteration is due at all or if the validation
    block breaks out of the loop in the first one. *)
Theorem sp_horizon_unbound (S : Type) (np_exp : num -> num) (cfg : config)
  (W : world S) :
  ppo_run cfg = true ->
  str_in "best_train" (PPO_TO_SAVE cfg) = false ->
  String.eqb (OTHER_AGENT_TYPE cfg) "sp" = false ->
  (count is_update (trace (snd (run_learn np_exp cfg W))) <= 1)%nat /\
  ((exists w, fst (run_learn np_exp cfg W) = Ok w) ->
   nupdates cfg <= 0 \/ In (EvBreak 1) (trace (snd (run_learn np_exp cfg W)))).
Proof.
  intros Hppo Hbt Hsp.
  apply first_update_is_last with (I := sp_horizon_unset).
  - reflexivity.
  - apply keeps_setup_unset.
  - apply update_body_first_unset; assumption.
Qed.

Lemma sp_horizon_unbound_witness :
  ppo_run bc_pop_cfg = true /\
  str_in "best_train" (PPO_TO_SAVE bc_pop_cfg) = false /\
  String.eqb (OTHER_AGENT_TYPE bc_pop_cfg) "sp" = false /\
  (count is_update
     (trace (snd (run_learn coarse_exp bc_pop_cfg (scenario_world stagnant_val))))
   <= 1)%nat /\
  ((exists w,
      fst (run_learn coarse_exp bc_pop_cfg (scenario_world stagnant_val)) = Ok w) ->
   nupdates bc_pop_cfg <= 0 \/
   In (EvBreak 1)
      (trace (snd (run_learn coarse_exp bc_pop_cfg (scenario_world stagnant_val))))).
Proof.
  split; [reflexivity|]. split; [reflexivity|]. split; [reflexivity|].
  apply (@sp_horizon_unbound unit coarse_exp bc_pop_cfg
           (scenario_world stagnant_val)); reflexivity.
Defined.

(** ** The best validation reward *)

Lemma le_trans (a b c : num) : Num.le a b -> Num.le b c -> Num.le a c.
Proof.
  unfold Num.le, Num.leb.
  destruct a as [| | |p], b as [| | |q], c as [| | |r]; cbn;
    try discriminate; auto.
  intros H1 H2.
  assert (L1 : (p <= q)%Q).
  { destruct (p ?= q)%Q eqn:E; try discriminate.
    - apply Qeq_alt in E. rewrite E. apply Qle_refl.
    - apply Qlt_alt in E. apply Qlt_le_weak. exact E. }
  assert (L2 : (q <= r)%Q).
  { destruct (q ?= r)%Q eqn:E; try discriminate.
    - apply Qeq_alt in E. rewrite E. apply Qle_refl.
    - apply Qlt_alt in E. apply Qlt_le_weak. exact E. }
  pose proof (Qle_trans _ _ _ L1 L2) as L.
  destruct (p ?= r)%Q eqn:E; auto;
    try (apply Qgt_alt in E; exfalso; apply (Qlt_not_le _ _ E); exact L).
Qed.

Lemma not_gtb_le (a b : num) :
  Num.gtb a b = false -> is_nan a = false -> is_nan b = false -> Num.le a b.
Proof.
  unfold Num.gtb, Num.le, Num.leb.
  destruct a as [| | |p], b as [| | |q]; cbn; try discriminate; auto.
  destruct (p ?= q)%Q; try discriminate; auto.
Qed.

Section BestVal.

Variable S : Type.
Variable np_exp : num -> num.
Variable cfg : config.
Variable W : world S.

(** Lines 304-310 leave [best_val_rew] at least at [val_rew]. *)
Lemma model_selection_records (u : Z) (val_rew : num) (s : state) :
  is_nan (best_val_rew s) = false -> is_nan val_rew = false ->
  Num.le val_rew (best_val_rew (snd (model_selection cfg u val_rew s))).
Proof.
  intros Hn Hv. unfold model_selection.
  cbv [bind get when save modify emit ret].
  destruct (val_rew >? best_val_rew s)%num eqn:Hg; cbn;
    repeat match goal with
           | |- context [if ?b then _ else _] => destruct b; cbn
           end;
    try (apply le_refl; exact Hv);
    apply not_gtb_le; assumption.
Qed.

Lemma best_val_dominates_emit (e : event) (s : state) :
  (forall u sp, e <> EvValidation u sp) ->
  best_val_dominates W s ->
  best_val_dominates W (set_trace (trace s ++ [e]) s).
Proof.
  intros He [Hn Hd]. split; [exact Hn|].
  intros u sp Hin. cbn [trace set_trace] in Hin.
  apply in_app_or in Hin. destruct Hin as [Hin|[E|[]]].
  - apply Hd with sp. exact Hin.
  - exfalso. eapply He. exact E.
Qed.

Lemma keeps_validation_block_best_val (update : Z) :
  keeps (best_val_dominates W) (validation_block cfg W update).
Proof.
  intros s [Hn Hd]. unfold validation_block, validation_due.
  destruct (ppo_run cfg && str_in "best_validation" (PPO_TO_SAVE cfg));
    [|split; assumption].
  unfold py_mod. cbv [bind lift get ret emit modify].
  destruct (VAL_FREQ cfg =? 0); [split; assumption|].
  destruct ((update mod VAL_FREQ cfg =? 0)
            && sp_horizon_nonzero (SELF_PLAY_HORIZON cfg)
            && (self_play_randomization s =? zero)%num);
    [|split; assumption].
  set (ev := EvValidation update (self_play_randomization s)).
  set (s1 := set_trace (trace s ++ [ev]) s).
  set (v := play_validation_games W update).
  assert (Hn1 : is_nan (best_val_rew s1) = false) by exact Hn.
  destruct (@best_val_rew_monotone cfg update v s1 Hn1) as [Hm Hn2].
  pose proof (@model_selection_records update v s1 Hn1) as Hrec.
  destruct (@steps_model_selection cfg
              (fun e => forall u sp, e <> EvValidation u sp) update v
              ltac:(discriminate) ltac:(discriminate) s1)
    as [evs [Ht [Hf _]]].
  destruct (model_selection cfg update v s1) as [r s2].
  cbn [snd] in *. split; [exact Hn2|].
  intros u sp Hin Hu. rewrite Ht in Hin.
  apply in_app_or in Hin. destruct Hin as [Hin|Hin].
  - unfold s1 in Hin. cbn [trace set_trace] in Hin.
    apply in_app_or in Hin. destruct Hin as [Hin|[E|[]]].
    + eapply le_trans; [|exact Hm]. apply Hd with sp; assumption.
    + unfold ev in E. injection E as -> _. apply Hrec. exact Hu.
  - exfalso. rewrite Forall_forall in Hf. eapply Hf; [exact Hin|reflexivity].
Qed.

Ltac best_val_leaf :=
  lazymatch goal with
  | |- keeps _ (save _) => unfold save
  | |- keeps _ (validation_block _ _ _) =>
      apply keeps_validation_block_best_val
  | |- forall s, best_val_dominates _ s ->
                 best_val_dominates _ (set_trace _ s) =>
      intros ? ?; apply best_val_dominates_emit;
      [intros ? ?; discriminate|assumption]
  | |- forall s, best_val_dominates _ s -> best_val_dominates _ _ =>
      intros ? ?; assumption
  end.

Lemma keeps_update_body_best_val (update : Z) :
  keeps (best_val_dominates W) (update_body np_exp cfg W update).
Proof.
  unfold update_body, update_rest, early_stopping_block, optimise, logging,
    logging_block, log_due, best_train_block, reward_shaping_block,
    self_play_block, periodic_save, visualize.
  repeat (keeps_step || best_val_leaf).
Qed.

Lemma keeps_learn_best_val :
  keeps (best_val_dominates W) (learn np_exp cfg W).
Proof.
  unfold learn. apply keeps_bind.
  - unfold setup. repeat (keeps_step || best_val_leaf).
  - intros n. apply keeps_bind.
    + apply keeps_run_updates. apply keeps_update_body_best_val.
    + intros _. unfold finish. repeat (keeps_step || best_val_leaf).
Qed.

End BestVal.

(** X13: whatever the outcome of a run, [best_val_rew] ends at least as
    high as the reward of every validation round the run has played
    (rounds that scored [nan] apart). *)
Theorem best_val_rew_dominates (S : Type) (np_exp : num -> num)
  (cfg : config) (W : world S) (u : Z) (sp : num) :
  In (EvValidation u sp) (trace (snd (run_learn np_exp cfg W))) ->
  is_nan (play_validation_games W u) = false ->
  Num.le (play_validation_games W u)
         (best_val_rew (snd (run_learn np_exp cfg W))).
Proof.
  intros Hin Hv.
  assert (H0 : best_val_dominates W (init_state W)).
  { split; [reflexivity|]. intros u' sp' []. }
  destruct (@keeps_learn_best_val S np_exp cfg W (init_state W) H0)
    as [_ Hd].
  apply Hd with sp; assumption.
Qed.

Lemma best_val_rew_dominates_witness :
  In (EvValidation 2 zero)
     (trace (snd (run_learn coarse_exp stagnation_cfg
                    (scenario_world stagnant_val)))) /\
  is_nan (play_validation_games (scenario_world stagnant_val) 2) = false /\
  Num.le (play_validation_games (scenario_world stagnant_val) 2)
         (best_val_rew (snd (run_learn coarse_exp stagnation_cfg
                               (scenario_world stagnant_val)))).
Proof.
  assert (Hin : In (EvValidation 2 zero)
     (trace (snd (run_learn coarse_exp stagnation_cfg
                    (scenario_world stagnant_val))))).
  { vm_compute. tauto. }
  split; [exact Hin|]. split; [reflexivity|].
  apply (@best_val_rew_dominates unit coarse_exp stagnation_cfg
           (scenario_world stagnant_val) 2 zero Hin). reflexivity.
Defined.

(** ** The banners of a run *)

Lemma filter_none (f : event -> bool) (l : list event) :
  Forall (fun e => f e = false) l -> filter f l = [].
Proof.
  induction 1 as [|e l He _ IH]; [reflexivity|].
  cbn [filter]. rewrite He. exact IH.
Qed.

Lemma firstn_update_range (k : nat) (n : Z) :
  (k <= Z.to_nat n)%nat ->
  firstn k (update_range n) = update_range (Z.of_nat k).
Proof.
  intros Hk. unfold update_range.
  rewrite firstn_map, Nat2Z.id.
  replace (Z.to_nat n) with (k + (Z.to_nat n - k))%nat by lia.
  rewrite firstn_seq_app. reflexivity.
Qed.

Lemma run_updates_banners (S : Type) (np_exp : num -> num) (cfg : config)
  (W : world S) (updates : list Z) (s : state) :
  exists k,
    (k <= List.length updates)%nat /\
    filter is_update (trace (snd (run_updates np_exp cfg W updates s)))
    = filter is_update (trace s) ++ map EvUpdate (firstn k updates).
Proof.
  revert s. induction updates as [|u rest IH]; intros s.
  - exists O. cbn. rewrite app_nil_r. split; [lia|reflexivity].
  - cbn [run_updates]. unfold bind.
    destruct (@update_body_spec S np_exp cfg W u s) as [evs [Ht [Hf _]]].
    assert (Hb : filter is_update (trace (snd (update_body np_exp cfg W u s)))
                 = filter is_update (trace s) ++ [EvUpdate u]).
    { rewrite Ht, filter_app. cbn [filter is_update].
      rewrite (@filter_none is_update evs); [reflexivity|].
      eapply Forall_impl; [|exact Hf]. apply update_event_not_update. }
    destruct (update_body np_exp cfg W u s) as [[[|]|e] s1];
      cbn [fst snd] in *.
    + destruct (IH s1) as [k [Hk Hr]]. exists (Datatypes.S k).
      split; [cbn; lia|].
      rewrite Hr, Hb, <- app_assoc. reflexivity.
    + exists 1%nat. split; [cbn; lia|]. exact Hb.
    + exists 1%nat. split; [cbn; lia|]. exact Hb.
Qed.

(** X14: whatever the outcome of a run, the iterations it has started are
    numbered [1, 2, .., k] for some [k <= nupdates], in that order and
    each once: no iteration is skipped or repeated. *)
Theorem banners_consecutive (S : Type) (np_exp : num -> num) (cfg : config)
  (W : world S) :
  exists k : nat,
    Z.of_nat k <= Z.max 0 (nupdates cfg) /\
    filter is_update (trace (snd (run_learn np_exp cfg W)))
    = map EvUpdate (update_range (Z.of_nat k)).
Proof.
  unfold run_learn. rewrite learn_unfold.
  destruct (@steps_setup S cfg W (init_state W)) as [evs0 [Ht0 [Hf0 _]]].
  pose proof (@returns_setup cfg (init_state W)) as Hr.
  assert (Hc0 : filter is_update evs0 = []).
  { apply filter_none. eapply Forall_impl; [|exact Hf0]. cbv beta. tauto. }
  cbn [init_state trace app] in Ht0.
  destruct (setup cfg (init_state W)) as [[n|e] s1]; cbn [fst snd] in *.
  2:{ exists O. split; [lia|]. rewrite Ht0, Hc0. reflexivity. }
  destruct (Hr n s1 eq_refl) as [_ ->]. fold (nupdates cfg).
  destruct (@run_updates_banners S np_exp cfg W
              (update_range (nupdates cfg)) s1) as [k [Hk Hb]].
  rewrite length_update_range in Hk.
  rewrite Ht0, Hc0, firstn_update_range in Hb by exact Hk.
  cbn [app] in Hb.
  exists k. split; [lia|].
  destruct (run_updates np_exp cfg W (update_range (nupdates cfg)) s1)
    as [[[]|e] s2]; cbn [fst snd] in *; [|exact Hb].
  destruct (@finish_frame cfg (nupdates cfg) s2) as [Htf _].
  rewrite Htf, filter_app, Hb.
  destruct ((0 <? nupdates cfg) && early_stopping cfg); cbn [filter is_update];
    apply app_nil_r.
Qed.

(** ** The [model.train] calls of an update *)




Section TrainCalls.

Variable S : Type.
Variable np_exp : num -> num.
Variable cfg : config.
Variable W : world S.

Hypothesis feed_forward : forall u, ro_states (runner_run W u) = None.
Hypothesis minibatches_pos : 0 < nminibatches cfg.
Hypothesis divisible : nbatch cfg mod nminibatches cfg = 0.







End TrainCalls.



(** ** A recurrent policy whose environments do not split evenly *)

Section RecurrentEdge.

Variable S : Type.
Variable np_exp : num -> num.
Variable cfg : config.
Variable W : world S.

Hypothesis minibatches_nonzero : nminibatches cfg <> 0.
Hypothesis envs_indivisible :
  Z.of_nat (num_envs cfg) mod nminibatches cfg <> 0.




End RecurrentEdge.



(** ** Zero intervals and a zero self-play horizon *)

Section FirstUpdate.

Variable S : Type.
Variable np_exp : num -> num.
Variable cfg : config.
Variable W : world S.

Ltac skip_first :=
  eapply hoare_bind with (Q := fun _ => any_state);
  [intros ? ? ? _ _; exact I|intros ?; cbv beta].

(** [update == 1] makes the first iteration a logged one, when
    [update % log_interval] can be evaluated at all. *)
Lemma log_due_first_true (P : state -> Prop) :
  hoare P (log_due cfg 1) (fun due s => due = true /\ P s).
Proof.
  intros s due s' Hs E. unfold log_due, bind, lift, ret in E.
  destruct (py_mod 1 (log_interval cfg)); [|discriminate].
  inversion E; subst. split; [apply orb_true_r|exact Hs].
Qed.

Lemma logging_first (P : state -> Prop) (R : ctrl -> state -> Prop)
  (ncalls : nat) :
  hoare P (logging_block np_exp cfg W 1 ncalls) R ->
  hoare P (logging np_exp cfg W 1 ncalls) R.
Proof.
  intros H. unfold logging. eapply hoare_bind; [apply log_due_first_true|].
  intros due s c s' [-> Hs] E. eapply H; eassumption.
Qed.

Lemma log_due_zero (update : Z) :
  log_interval cfg = 0 ->
  hoare any_state (log_due cfg update) (fun _ _ => False).
Proof.
  intros H0 s due s' _ E. unfold log_due, py_mod in E. rewrite H0 in E.
  discriminate.
Qed.

Lemma visualize_zero (update : Z) :
  ppo_run cfg = true -> VIZ_FREQUENCY cfg = 0 ->
  hoare any_state (visualize cfg update) (fun _ _ => False).
Proof.
  intros Hp H0 s a s' _ E. unfold visualize, py_mod in E.
  rewrite Hp, H0 in E. discriminate.
Qed.

Lemma validation_block_zero (update : Z) :
  ppo_run cfg = true -> str_in "best_validation" (PPO_TO_SAVE cfg) = true ->
  VAL_FREQ cfg = 0 ->
  hoare any_state (validation_block cfg W update) (fun _ _ => False).
Proof.
  intros Hp Hv H0 s a s' _ E.
  unfold validation_block, validation_due, py_mod in E.
  rewrite Hp, Hv, H0 in E. discriminate.
Qed.

Lemma update_body_zero_interval :
  log_interval cfg = 0 \/
  (ppo_run cfg = true /\
   (VIZ_FREQUENCY cfg = 0 \/
    (str_in "best_validation" (PPO_TO_SAVE cfg) = true /\ VAL_FREQ cfg = 0))) ->
  hoare any_state (update_body np_exp cfg W 1) (fun c _ => c = Break).
Proof.
  intros H. unfold update_body, update_rest.
  do 7 skip_first.
  destruct H as [Hl|[Hp [Hz|[Hv Hz]]]].
  - apply hoare_stuck. unfold logging. apply hoare_stuck.
    apply log_due_zero. exact Hl.
  - skip_first.
    match goal with
    | |- hoare _ (match ?c with _ => _ end) _ => destruct c
    end.
    + skip_first. apply hoare_stuck. apply visualize_zero; assumption.
    + intros s c s' _ E. inversion E. reflexivity.
  - apply hoare_stuck. apply logging_first.
    unfold logging_block. do 3 skip_first.
    apply hoare_stuck. apply validation_block_zero; assumption.
Qed.

Section ZeroHorizon.

Variable v : num.

Hypothesis ppo : ppo_run cfg = true.
Hypothesis best_train : str_in "best_train" (PPO_TO_SAVE cfg) = true.
Hypothesis not_sp : String.eqb (OTHER_AGENT_TYPE cfg) "sp" = false.
Hypothesis scalar : SELF_PLAY_HORIZON cfg = SpScalar v.
Hypothesis horizon_zero : Num.eqb v zero = true.

Ltac is_leaf :=
  lazymatch goal with
  | |- keeps _ (save _) => unfold save
  | |- forall s, sp_horizon_is _ s -> _ => intros ? ?; assumption
  end.

Ltac is_auto := repeat (keeps_step || is_leaf).

(** Line 272 assigns [sp_horizon]. *)
Lemma best_train_block_assigns (ep_sparse_rew_mean : num) :
  hoare any_state (best_train_block cfg ep_sparse_rew_mean)
        (fun _ => sp_horizon_is (SpScalar v)).
Proof.
  unfold best_train_block. rewrite ppo, best_train, scalar.
  cbn [andb when].
  eapply hoare_bind with (Q := fun _ => sp_horizon_is (SpScalar v)).
  - intros s a s' _ E. inversion E. reflexivity.
  - intros _. apply hoare_keeps. is_auto.
Qed.

(** Line 380 divides by [rew_target]. *)
Lemma self_play_block_zero (update : Z) (ep_sparse_rew_mean : num) :
  hoare (sp_horizon_is (SpScalar v))
        (self_play_block np_exp cfg update ep_sparse_rew_mean)
        (fun _ _ => False).
Proof.
  intros s a s' Hs. unfold self_play_block. rewrite not_sp.
  cbv [negb when bind get]. rewrite Hs.
  unfold Curriculum.sigmoid_fn, py_div. rewrite horizon_zero.
  destruct (Num.eqb (of_Z 2) zero); discriminate.
Qed.

Lemma update_body_zero_horizon :
  hoare any_state (update_body np_exp cfg W 1) (fun c _ => c = Break).
Proof.
  unfold update_body, update_rest.
  do 7 skip_first.
  eapply hoare_bind with (Q := fun c _ => c = Break).
  - apply logging_first.
    unfold logging_block. do 2 skip_first.
    eapply hoare_bind; [apply best_train_block_assigns|intros ?; cbv beta].
    eapply hoare_bind;
      [apply hoare_keeps; unfold validation_block, validation_due,
         model_selection; is_auto|intros c; cbv beta].
    destruct c.
    + rewrite ppo. cbv [when]. apply hoare_stuck.
      eapply hoare_bind;
        [apply hoare_keeps; unfold reward_shaping_block; is_auto
        |intros ?; cbv beta].
      apply self_play_block_zero.
    + intros s c s' _ E. inversion E. reflexivity.
  - intros c s c' s' ->. cbv [ret]. intros E. inversion E. reflexivity.
Qed.

End ZeroHorizon.

Lemma keeps_any_state {A : Type} (c : M A) : keeps any_state c.
Proof. intros s _. exact I. Qed.

End FirstUpdate.

(** X17: [log_interval], ["VAL_FREQ"] and ["VIZ_FREQUENCY"] are divisors of
    [update %], so a zero does not switch the feature off the way
    [save_interval = 0] does.  With [log_interval = 0], or in a ["ppo"]
    or ["joint_ppo"] run with ["VIZ_FREQUENCY"] zero or with
    ["best_validation"] to save and ["VAL_FREQ"] zero, a run never starts
    a second iteration, and it returns normally only if no iteration is
    due or the first one breaks. *)
Theorem zero_interval_stops_run (S : Type) (np_exp : num -> num)
  (cfg : config) (W : world S) :
  log_interval cfg = 0 \/
  (ppo_run cfg = true /\
   (VIZ_FREQUENCY cfg = 0 \/
    (str_in "best_validation" (PPO_TO_SAVE cfg) = true /\ VAL_FREQ cfg = 0))) ->
  (count is_update (trace (snd (run_learn np_exp cfg W))) <= 1)%nat /\
  ((exists w, fst (run_learn np_exp cfg W) = Ok w) ->
   nupdates cfg <= 0 \/ In (EvBreak 1) (trace (snd (run_learn np_exp cfg W)))).
Proof.
  intros H. apply first_update_is_last with (I := any_state).
  - exact I.
  - apply keeps_any_state.
  - apply update_body_zero_interval. exact H.
Qed.

Lemma zero_interval_stops_run_witness :
  (log_interval zero_log_interval_cfg = 0 \/
   (ppo_run zero_log_interval_cfg = true /\
    (VIZ_FREQUENCY zero_log_interval_cfg = 0 \/
     (str_in "best_validation" (PPO_TO_SAVE zero_log_interval_cfg) = true /\
      VAL_FREQ zero_log_interval_cfg = 0)))) /\
  (count is_update
     (trace (snd (run_learn coarse_exp zero_log_interval_cfg
                    (scenario_world stagnant_val)))) <= 1)%nat /\
  ((exists w,
      fst (run_learn coarse_exp zero_log_interval_cfg
             (scenario_world stagnant_val)) = Ok w) ->
   nupdates zero_log_interval_cfg <= 0 \/
   In (EvBreak 1)
      (trace (snd (run_learn coarse_exp zero_log_interval_cfg
                     (scenario_world stagnant_val))))).
Proof.
  split; [left; reflexivity|].
  apply (@zero_interval_stops_run unit coarse_exp zero_log_interval_cfg
           (scenario_world stagnant_val)).
  left. reflexivity.
Defined.

(** X18: a scalar ["SELF_PLAY_HORIZON"] of zero passes the test
    [sp_horizon is not None] of line 373 and is then divided by at line
    380.  In a ["ppo"] or ["joint_ppo"] run that saves ["best_train"] and
    whose ["OTHER_AGENT_TYPE"] is not ["sp"], such a horizon means that
    the run never starts a second iteration, and that it returns normally
    only if no iteration is due or the first one breaks. *)
Theorem zero_sp_horizon_stops_run (S : Type) (np_exp : num -> num)
  (cfg : config) (W : world S) (v : num) :
  ppo_run cfg = true ->
  str_in "best_train" (PPO_TO_SAVE cfg) = true ->
  String.eqb (OTHER_AGENT_TYPE cfg) "sp" = false ->
  SELF_PLAY_HORIZON cfg = SpScalar v -> Num.eqb v zero = true ->
  (count is_update (trace (snd (run_learn np_exp cfg W))) <= 1)%nat /\
  ((exists w, fst (run_learn np_exp cfg W) = Ok w) ->
   nupdates cfg <= 0 \/ In (EvBreak 1) (trace (snd (run_learn np_exp cfg W)))).
Proof.
  intros Hp Hb Hs Hh Hz. apply first_update_is_last with (I := any_state).
  - exact I.
  - apply keeps_any_state.
  - eapply update_body_zero_horizon; eassumption.
Qed.

Lemma zero_sp_horizon_stops_run_witness :
  ppo_run zero_horizon_cfg = true /\
  str_in "best_train" (PPO_TO_SAVE zero_horizon_cfg) = true /\
  String.eqb (OTHER_AGENT_TYPE zero_horizon_cfg) "sp" = false /\
  SELF_PLAY_HORIZON zero_horizon_cfg = SpScalar zero /\
  Num.eqb zero zero = true /\
  (count is_update
     (trace (snd (run_learn coarse_exp zero_horizon_cfg
                    (scenario_world stagnant_val)))) <= 1)%nat /\
  ((exists w,
      fst (run_learn coarse_exp zero_horizon_cfg
             (scenario_world stagnant_val)) = Ok w) ->
   nupdates zero_horizon_cfg <= 0 \/
   In (EvBreak 1)
      (trace (snd (run_learn coarse_exp zero_horizon_cfg
                     (scenario_world stagnant_val))))).
Proof.
  split; [reflexivity|]. split; [reflexivity|]. split; [reflexivity|].
  split; [reflexivity|]. split; [reflexivity|].
  apply (@zero_sp_horizon_stops_run unit coarse_exp zero_horizon_cfg
           (scenario_world stagnant_val) zero); reflexivity.
Defined.

(** ** Early stopping without a checkpoint, and runs without an update *)

Lemma last_save_none (c : ckpt) (tr : list event) :
  Forall (fun e => forall w, e <> EvSave c w) tr -> last_save c tr = None.
Proof.
  induction tr as [|e tr IH] using rev_ind; intros H; [reflexivity|].
  apply Forall_app in H. destruct H as [Htr He].
  rewrite last_save_snoc, (IH Htr).
  destruct e as [| | | | | | | | |c' w| | | | |]; try reflexivity.
  destruct c, c'; cbn [ckpt_eqb]; try reflexivity;
    try (exfalso; inversion He as [|? ? Hx _]; eapply Hx; reflexivity).
  destruct (Z.eqb_spec update update0) as [->|]; [|reflexivity].
  exfalso. inversion He as [|? ? Hx _]. eapply Hx. reflexivity.
Qed.

(** X19: with [early_stopping], at least one update and no
    [.temp_best_model] left by an earlier run, a run whose rollouts never
    complete an episode cannot return normally: nothing is ever written
    to [.temp_best_model], and the reload after the loop finds no file. *)
Theorem early_stopping_without_episode (S : Type) (np_exp : num -> num)
  (cfg : config) (W : world S) :
  early_stopping cfg = true -> 0 < nupdates cfg ->
  read_ckpt (disk0 W) TempBest = None ->
  (forall u, ro_epinfos (runner_run W u) = []) ->
  forall w, fst (run_learn np_exp cfg W) <> Ok w.
Proof.
  intros He Hn Hd Hq w E.
  destruct (run_learn np_exp cfg W) as [r s] eqn:R. cbn [fst] in E. subst r.
  destruct (learn_reload np_exp cfg W He Hn R) as [_ Hc].
  assert (Hnone : last_save TempBest (trace s) = None).
  { apply last_save_none.
    destruct (@steps_learn S np_exp cfg W (init_state W)) as [evs [Ht [Hf _]]].
    unfold run_learn in R. rewrite R in Ht. cbn [snd init_state trace app] in Ht.
    rewrite Ht. eapply Forall_impl; [|exact Hf].
    intros e Hr w' ->. destruct Hr as [u [_ Hne]]. apply Hne. apply Hq. }
  unfold ckpt_after in Hc. rewrite Hnone, Hd in Hc. discriminate.
Qed.

Lemma early_stopping_without_episode_witness :
  early_stopping early_stopping_cfg = true /\
  0 < nupdates early_stopping_cfg /\
  read_ckpt (disk0 quiet_world) TempBest = None /\
  (forall u, ro_epinfos (runner_run quiet_world u) = []) /\
  forall w, fst (run_learn coarse_exp early_stopping_cfg quiet_world) <> Ok w.
Proof.
  split; [reflexivity|]. split; [reflexivity|]. split; [reflexivity|].
  split; [reflexivity|].
  apply (@early_stopping_without_episode unit coarse_exp early_stopping_cfg
           quiet_world); reflexivity.
Defined.

(** X20: when [total_timesteps] does not fill one batch ([nupdates <= 0]),
    a run without [load_path] builds the policy, the model and the
    runners, collects no rollout, and returns the freshly constructed
    model without raising; [early_stopping] reloads nothing then. *)
Theorem no_update_run (S : Type) (np_exp : num -> num) (cfg : config)
  (W : world S) :
  has_load_path cfg = false -> nminibatches cfg <> 0 -> nbatch cfg <> 0 ->
  nupdates cfg <= 0 ->
  fst (run_learn np_exp cfg W) = Ok O /\
  trace (snd (run_learn np_exp cfg W))
  = [EvBuildPolicy; EvModelInit; EvRunnerInit]
    ++ (if has_eval_env cfg then [EvEvalRunnerInit] else []).
Proof.
  intros Hl Hm Hnb Hn. unfold run_learn. rewrite learn_unfold.
  assert (Hs : exists s1,
             setup cfg (init_state W) = (Ok (nupdates cfg), s1) /\
             model s1 = O /\
             trace s1 = [EvBuildPolicy; EvModelInit; EvRunnerInit]
                        ++ (if has_eval_env cfg then [EvEvalRunnerInit]
                            else [])).
  { unfold setup, py_floordiv, nupdates. rewrite Hl.
    destruct (Z.eqb_spec (nminibatches cfg) 0) as [H0|_]; [contradiction|].
    destruct (Z.eqb_spec (nbatch cfg) 0) as [H0|_]; [contradiction|].
    cbv [bind emit modify lift model_init when ret].
    destruct (has_eval_env cfg); eexists; repeat split; reflexivity. }
  destruct Hs as [s1 [E1 [Hm1 Ht1]]]. rewrite E1.
  unfold update_range. replace (Z.to_nat (nupdates cfg)) with O by lia.
  cbn [seq map run_updates ret]. rewrite finish_spec.
  replace (0 <? nupdates cfg) with false by (symmetry; apply Z.ltb_ge; lia).
  cbn [andb fst snd]. rewrite Hm1. split; [reflexivity|exact Ht1].
Qed.

Lemma no_update_run_witness :
  has_load_path short_cfg = false /\
  nminibatches short_cfg <> 0 /\ nbatch short_cfg <> 0 /\
  nupdates short_cfg <= 0 /\
  fst (run_learn coarse_exp short_cfg (scenario_world stagnant_val)) = Ok O /\
  trace (snd (run_learn coarse_exp short_cfg (scenario_world stagnant_val)))
  = [EvBuildPolicy; EvModelInit; EvRunnerInit]
    ++ (if has_eval_env short_cfg then [EvEvalRunnerInit] else []).
Proof.
  split; [reflexivity|]. split; [discriminate|]. split; [discriminate|].
  split; [discriminate|].
  apply (@no_update_run unit coarse_exp short_cfg
           (scenario_world stagnant_val));
    [reflexivity|discriminate|discriminate|discriminate].
Defined.
